(** * ShortVideo: the storyboard creator, embedded and verified

    The repository holds two variants of one React component and the
    service module both call:

    - [src/services/geminiService.ts]: [generateScript], [generateImage];
    - [src/App.tsx]: the topic-driven variant, narrated by speech
      synthesis (module [TopicApp]);
    - [src/unnamed/part_000]: the audio-driven variant, a text file and
      an audio file, scenes laid over the audio's time line (module
      [AudioApp]).

    React state is a record, a handler is a function on that record, an
    [await] splits a handler into the part before it and the part that
    resumes with the outcome of the awaited call.  The remote API is an
    oracle that hands out one outcome per call. *)

From Stdlib Require Import ZArith QArith Qround String Ascii List Bool Lia.
From Stdlib Require Import DecimalString.
Import ListNotations.

Set Warnings "-register-all".

Local Open Scope string_scope.
Local Open Scope Z_scope.

(** ** JavaScript values, exceptions and the few built-ins the code uses *)

Module Js.

(** Values as [JSON.parse] builds them, plus [undefined].  A number is
    carried by the text JavaScript prints for it ([-0] prints as ["0"]);
    an object is its list of own properties, first match wins. *)
Inductive value : Type :=
| VUndefined
| VNull
| VBool (b : bool)
| VNum (lit : string)
| VStr (s : string)
| VArr (items : list value)
| VObj (props : list (string * value)).

(** What a [throw] carries: an [Error] (or subclass) instance with its
    message, or any other value. *)
Inductive exn : Type :=
| JsError (message : string)
| Thrown (v : value).

(** [err instanceof Error ? err.message : fallback] *)
Definition messageOr (fallback : string) (err : exn) : string :=
  match err with
  | JsError m => m
  | Thrown _ => fallback
  end.

Definition bind {A B : Type} (m : exn + A) (k : A -> exn + B) : exn + B :=
  match m with
  | inl e => inl e
  | inr a => k a
  end.

Notation "x <- m ;; k" := (bind m (fun x => k))
  (at level 61, m at next level, right associativity).

(** The message V8 gives to a property read on [null] or [undefined]. *)
Definition typeErrorMessage (base name : string) : string :=
  "Cannot read properties of " ++ base ++ " (reading '" ++ name ++ "')".

Fixpoint lookup (name : string) (props : list (string * value)) : value :=
  match props with
  | [] => VUndefined
  | (k, v) :: rest => if String.eqb k name then v else lookup name rest
  end.

(** [v.name] for the property names the program reads ([scenes],
    [image_prompt], [narrator_script]); no primitive wrapper and no array
    has a property of one of these names. *)
Definition getProp (v : value) (name : string) : exn + value :=
  match v with
  | VUndefined => inl (JsError (typeErrorMessage "undefined" name))
  | VNull => inl (JsError (typeErrorMessage "null" name))
  | VObj props => inr (lookup name props)
  | VBool _ | VNum _ | VStr _ | VArr _ => inr VUndefined
  end.

Definition nullish (v : value) : bool :=
  match v with
  | VUndefined | VNull => true
  | _ => false
  end.

(** ToBoolean. *)
Definition truthy (v : value) : bool :=
  match v with
  | VUndefined | VNull => false
  | VBool b => b
  | VNum lit => negb (String.eqb lit "0")
  | VStr s => negb (String.eqb s "")
  | VArr _ | VObj _ => true
  end.

(** [Array.isArray] *)
Definition isArray (v : value) : bool :=
  match v with
  | VArr _ => true
  | _ => false
  end.

(** ToString, as a template literal applies it to an interpolated value. *)
Fixpoint toString (v : value) : string :=
  match v with
  | VUndefined => "undefined"
  | VNull => "null"
  | VBool true => "true"
  | VBool false => "false"
  | VNum lit => lit
  | VStr s => s
  | VArr items =>
      (fix join (l : list value) : string :=
         match l with
         | [] => ""
         | x :: rest =>
             let head := if nullish x then "" else toString x in
             match rest with
             | [] => head
             | _ :: _ => head ++ "," ++ join rest
             end
         end) items
  | VObj _ => "[object Object]"
  end.

(** Number to decimal text, for the integers the program interpolates. *)
Definition showZ (n : Z) : string := NilZero.string_of_int (Z.to_int n).

(** *** Strings

    A JavaScript string is held as its UTF-8 bytes.  [trim] removes the
    WhiteSpace and LineTerminator code points of ECMAScript from both ends:
    U+0009..U+000D, U+0020, U+00A0, U+1680, U+2000..U+200A, U+2028, U+2029,
    U+202F, U+205F, U+3000, U+FEFF. *)

Definition bytesOf (s : string) : list N :=
  map N_of_ascii (list_ascii_of_string s).

Definition ofBytes (l : list N) : string :=
  string_of_list_ascii (map ascii_of_N l).

Definition ws1 (a : N) : bool :=
  ((9 <=? a) && (a <=? 13) || (a =? 32))%N.

Definition ws2 (a b : N) : bool :=
  ((a =? 194) && (b =? 160))%N.

Definition ws3 (a b c : N) : bool :=
  ((a =? 225) && (b =? 154) && (c =? 128)
   || (a =? 226) && (b =? 128)
        && ((128 <=? c) && (c <=? 138) || (c =? 168) || (c =? 169) || (c =? 175))
   || (a =? 226) && (b =? 129) && (c =? 159)
   || (a =? 227) && (b =? 128) && (c =? 128)
   || (a =? 239) && (b =? 187) && (c =? 191))%N.

(** Drop leading white space; with [backwards] the list is a reversed
    string and the bytes of a code point arrive last byte first. *)
Fixpoint dropSpace (backwards : bool) (l : list N) : list N :=
  match l with
  | [] => []
  | a :: r1 =>
      if ws1 a then dropSpace backwards r1
      else
        match r1 with
        | [] => l
        | b :: r2 =>
            if (if backwards then ws2 b a else ws2 a b)
            then dropSpace backwards r2
            else
              match r2 with
              | [] => l
              | c :: r3 =>
                  if (if backwards then ws3 c b a else ws3 a b c)
                  then dropSpace backwards r3
                  else l
              end
        end
  end.

Definition trim (s : string) : string :=
  ofBytes (rev (dropSpace true (rev (dropSpace false (bytesOf s))))).

(** [s.split('\n')] *)
Fixpoint splitLines (s : string) : list string :=
  match s with
  | EmptyString => [EmptyString]
  | String c rest =>
      if Ascii.eqb c "010"%char then EmptyString :: splitLines rest
      else
        match splitLines rest with
        | [] => [String c EmptyString]
        | line :: more => String c line :: more
        end
  end.

(** [s.startsWith(prefix)] is [String.prefix prefix s]. *)
Definition startsWith (s prefix : string) : bool := String.prefix prefix s.

(** *** Numbers that carry time

    [HTMLMediaElement.duration] is [NaN] before the metadata is known,
    [Infinity] for an unbounded stream and a finite number otherwise.
    Finite values are held as exact rationals and the quotient and the
    product of the source are taken exactly. *)
Inductive number : Type :=
| NaN
| Infinity
| Finite (q : Q).

Definition isFinite (x : number) : bool :=
  match x with
  | Finite _ => true
  | NaN | Infinity => false
  end.

Definition numberTruthy (x : number) : bool :=
  match x with
  | NaN => false
  | Infinity => true
  | Finite q => negb (Qeq_bool q 0)
  end.

(** [%] of JavaScript on integers: the sign follows the dividend. *)
Definition remainder (a b : Z) : Z := Z.rem a b.

(** [xs[i]] for a number [i]: [undefined] outside the array. *)
Definition at_ {A : Type} (xs : list A) (i : Z) : option A :=
  if i <? 0 then None else nth_error xs (Z.to_nat i).

(** [xs.map((x, i) => f x i)] *)
Fixpoint mapIndexFrom {A B : Type} (f : A -> Z -> B) (i : Z) (xs : list A) : list B :=
  match xs with
  | [] => []
  | x :: rest => f x i :: mapIndexFrom f (i + 1) rest
  end.

Definition mapIndex {A B : Type} (f : A -> Z -> B) (xs : list A) : list B :=
  mapIndexFrom f 0 xs.

End Js.

(** ** src/services/geminiService.ts *)

Module GeminiService.
Import Js.

(** What [ai.models.generateContent] resolves to; [response.text] is a
    string or [undefined]. *)
Record GenerateContentResponse : Type := mkContent { text : option string }.

(** What [ai.models.generateImages] resolves to. *)
Record Image : Type := mkImage { imageBytes : option string }.
Record GeneratedImage : Type := mkGenerated { image : option Image }.
Record GenerateImagesResponse : Type :=
  mkImages { generatedImages : option (list GeneratedImage) }.

(** A request as it leaves the module (the constant [config] is left out). *)
Inductive request : Type :=
| GenerateContent (model contents : string)
| GenerateImages (model prompt : string).

(** The remote side: one outcome per call, a rejection or a response.  The
    image oracle is also told how many image calls came before, so that two
    calls with one prompt may fare differently. *)
Record Api : Type := mkApi {
  models_generateContent : string -> exn + GenerateContentResponse;
  models_generateImages : nat -> string -> exn + GenerateImagesResponse
}.

Definition newline : string := String "010"%char EmptyString.
Definition indent : string := "            ".

Definition scriptFailure : string := "スクリプトの生成に失敗しました。".
Definition imageFailure : string := "画像の生成に失敗しました。".

(** The template literal of lines 41-45. *)
Definition scriptContents (topic : string) (sceneCount : Z) : string :=
  "ショート動画のスクリプトを作成してください。" ++ newline
  ++ indent ++ "トピック: 「" ++ topic ++ "」" ++ newline
  ++ indent ++ "シーンの数: " ++ showZ sceneCount ++ newline
  ++ indent ++ newline
  ++ indent ++ "各シーンについて、画像生成AI用の詳細なプロンプトと、短いナレーション原稿を提供してください。".

Definition generateScript_request (topic : string) (sceneCount : Z) : request :=
  GenerateContent "gemini-2.5-flash" (scriptContents topic sceneCount).

Section Script.

(** [JSON.parse]: the value, or the [SyntaxError] it throws. *)
Variable JSON_parse : string -> exn + value.

(** Lines 52-64, from the point where the awaited call has settled. *)
Definition generateScript_resume
    (outcome : exn + GenerateContentResponse) : exn + value :=
  let attempt :=
    response <- outcome ;;
    jsonText <- match text response with
                | Some t => inr (trim t)
                | None => inl (JsError (typeErrorMessage "undefined" "trim"))
                end ;;
    parsedData <- JSON_parse jsonText ;;
    scenes <- getProp parsedData "scenes" ;;
    if negb (truthy scenes) || negb (isArray scenes)
    then inl (JsError "Invalid script format received from API.")
    else inr parsedData
  in
  match attempt with
  | inl _ => inl (JsError scriptFailure)
  | inr parsedData => inr parsedData
  end.

Definition generateScript (api : Api) (topic : string) (sceneCount : Z)
  : exn + value :=
  generateScript_resume
    (models_generateContent api (scriptContents topic sceneCount)).

End Script.

Definition imagePromptText (prompt : value) : string :=
  "cinematic, photorealistic, high detail, " ++ toString prompt.

Definition generateImage_request (prompt : value) : request :=
  GenerateImages "imagen-3.0-generate-002" (imagePromptText prompt).

(** Lines 79-88, from the point where the awaited call has settled. *)
Definition generateImage_resume
    (outcome : exn + GenerateImagesResponse) : exn + string :=
  let attempt :=
    response <- outcome ;;
    match generatedImages response with
    | Some (first :: _) =>
        match image first with
        | Some img =>
            inr ("data:image/jpeg;base64,"
                 ++ match imageBytes img with
                    | Some bytes => bytes
                    | None => "undefined"
                    end)
        | None => inl (JsError (typeErrorMessage "undefined" "imageBytes"))
        end
    | Some [] | None => inl (JsError "No image was generated.")
    end
  in
  match attempt with
  | inl _ => inl (JsError imageFailure)
  | inr url => inr url
  end.

(** [generateImage] as the [calls]-th image call of a run. *)
Definition generateImage (api : Api) (calls : nat) (prompt : value)
  : exn + string :=
  generateImage_resume (models_generateImages api calls (imagePromptText prompt)).

End GeminiService.

(** ** src/types.ts *)

Module Types.
Import Js.

(** [imagePrompt] and [narratorScript] are declared [string]; what arrives
    from the parsed response is whatever the response held, so the fields
    carry a [value]. *)
Record Scene : Type := mkScene {
  id : Z;
  imagePrompt : value;
  narratorScript : value;
  imageUrl : option string
}.

(** [{ ...s, imageUrl }], [{ ...s, imagePrompt }], [{ ...s, narratorScript }] *)
Definition withImageUrl (u : option string) (s : Scene) : Scene :=
  mkScene (id s) (imagePrompt s) (narratorScript s) u.

Definition withImagePrompt (p : value) (s : Scene) : Scene :=
  mkScene (id s) p (narratorScript s) (imageUrl s).

Definition withNarratorScript (n : value) (s : Scene) : Scene :=
  mkScene (id s) (imagePrompt s) n (imageUrl s).

(** [prev.map(s => s.id === i ? { ...s, imageUrl } : s)] *)
Definition patchImage (i : Z) (url : string) (prev : list Scene) : list Scene :=
  map (fun s => if id s =? i then withImageUrl (Some url) s else s) prev.

(** [prev.map((s, i) => i === current ? edit s : s)] *)
Definition editAt (current : Z) (edit : Scene -> Scene) (prev : list Scene)
  : list Scene :=
  mapIndex (fun s i => if i =? current then edit s else s) prev.

(** [!s.imageUrl] *)
Definition lacksImage (s : Scene) : bool :=
  match imageUrl s with
  | None => true
  | Some u => String.eqb u ""
  end.

End Types.

Notation "st |> f" := (f st) (at level 45, left associativity, only parsing).

(** ** src/App.tsx: the topic-driven variant *)

Module TopicApp.
Import Js GeminiService Types.

(** The [useState] cells of the component. *)
Record State : Type := mkState {
  topic : string;
  sceneCount : Z;
  scenes : list Scene;
  isLoading : bool;
  loadingMessage : string;
  error : option string;
  currentSceneIndex : Z;
  isPlaying : bool;
  regeneratingSceneId : option Z
}.

Definition initialState : State :=
  mkState "宇宙の魅力" 5 [] false "" None 0 false None.

(** The setters; [setScenes] and [setCurrentSceneIndex] take an updater, a
    plain value [v] being the updater [fun _ => v]. *)
Definition setTopic (v : string) (st : State) : State :=
  mkState v (sceneCount st) (scenes st) (isLoading st) (loadingMessage st)
    (error st) (currentSceneIndex st) (isPlaying st) (regeneratingSceneId st).

Definition setSceneCount (v : Z) (st : State) : State :=
  mkState (topic st) v (scenes st) (isLoading st) (loadingMessage st)
    (error st) (currentSceneIndex st) (isPlaying st) (regeneratingSceneId st).

Definition setScenes (f : list Scene -> list Scene) (st : State) : State :=
  mkState (topic st) (sceneCount st) (f (scenes st)) (isLoading st)
    (loadingMessage st) (error st) (currentSceneIndex st) (isPlaying st)
    (regeneratingSceneId st).

Definition setIsLoading (v : bool) (st : State) : State :=
  mkState (topic st) (sceneCount st) (scenes st) v (loadingMessage st)
    (error st) (currentSceneIndex st) (isPlaying st) (regeneratingSceneId st).

Definition setLoadingMessage (v : string) (st : State) : State :=
  mkState (topic st) (sceneCount st) (scenes st) (isLoading st) v
    (error st) (currentSceneIndex st) (isPlaying st) (regeneratingSceneId st).

Definition setError (v : option string) (st : State) : State :=
  mkState (topic st) (sceneCount st) (scenes st) (isLoading st)
    (loadingMessage st) v (currentSceneIndex st) (isPlaying st)
    (regeneratingSceneId st).

Definition setCurrentSceneIndex (f : Z -> Z) (st : State) : State :=
  mkState (topic st) (sceneCount st) (scenes st) (isLoading st)
    (loadingMessage st) (error st) (f (currentSceneIndex st)) (isPlaying st)
    (regeneratingSceneId st).

Definition setIsPlaying (v : bool) (st : State) : State :=
  mkState (topic st) (sceneCount st) (scenes st) (isLoading st)
    (loadingMessage st) (error st) (currentSceneIndex st) v
    (regeneratingSceneId st).

Definition setRegeneratingSceneId (v : option Z) (st : State) : State :=
  mkState (topic st) (sceneCount st) (scenes st) (isLoading st)
    (loadingMessage st) (error st) (currentSceneIndex st) (isPlaying st) v.

(** [scenes.length] and [const currentScene = scenes[currentSceneIndex]] *)
Definition sceneTotal (st : State) : Z := Z.of_nat (length (scenes st)).

Definition currentScene (st : State) : option Scene :=
  at_ (scenes st) (currentSceneIndex st).

(** *** The speech synthesis effect (lines 19-47)

    The effect runs after every render in which [isPlaying],
    [currentSceneIndex] or [scenes] changed; its clean-up cancels the
    utterance of the run before.  An utterance closes over the index and
    the length it was created with. *)
Record Utterance : Type := mkUtterance {
  spoken : value;
  madeAtIndex : Z;
  madeAtLength : Z
}.

Definition speechEffect (st : State) : option Utterance :=
  if isPlaying st && (0 <? sceneTotal st) then
    match currentScene st with
    | Some scene =>
        Some (mkUtterance (narratorScript scene) (currentSceneIndex st)
                (sceneTotal st))
    | None => None
    end
  else None.

Definition utterance_onend (u : Utterance) (st : State) : State :=
  if madeAtIndex u <? madeAtLength u - 1
  then st |> setCurrentSceneIndex (fun prev => prev + 1)
  else st |> setIsPlaying false.

Definition utterance_onerror (u : Utterance) (st : State) : State :=
  st |> setIsPlaying false.

(** *** handleGenerate (lines 56-93) *)

Definition emptyTopicMessage : string := "トピックを入力してください。".
Definition unknownErrorMessage : string := "不明なエラーが発生しました。".

(** Lines 61-69, up to the first [await]. *)
Definition handleGenerate_begin (st : State) : State :=
  st |> setIsLoading true
     |> setError None
     |> setScenes (fun _ => [])
     |> setCurrentSceneIndex (fun _ => 0)
     |> setIsPlaying false
     |> setLoadingMessage "AIがシナリオを執筆中...".

Definition handleGenerate_catch (err : exn) (st : State) : State :=
  st |> setError (Some (messageOr unknownErrorMessage err)).

Definition handleGenerate_finally (st : State) : State :=
  st |> setIsLoading false |> setLoadingMessage "".

Definition handleGenerate_fail (err : exn) (st : State) : State :=
  st |> handleGenerate_catch err |> handleGenerate_finally.

(** Lines 72-77: [scriptData.scenes.map((s, index) => ...)]. *)
Definition sceneOfEntry (s : value) (index : Z) : exn + Scene :=
  prompt <- getProp s "image_prompt" ;;
  script <- getProp s "narrator_script" ;;
  inr (mkScene index prompt script None).

Fixpoint scenesOfEntries (index : Z) (entries : list value) : exn + list Scene :=
  match entries with
  | [] => inr []
  | s :: rest =>
      scene <- sceneOfEntry s index ;;
      more <- scenesOfEntries (index + 1) rest ;;
      inr (scene :: more)
  end.

Definition initialScenesOf (scriptData : value) : exn + list Scene :=
  entries <- getProp scriptData "scenes" ;;
  match entries with
  | VArr items => scenesOfEntries 0 items
  | _ => inl (JsError "scriptData.scenes.map is not a function")
  end.

Definition imageProgress (i total : Z) : string :=
  "シーン " ++ showZ (i + 1) ++ "/" ++ showZ total ++ " の画像を生成中...".

(** Lines 80-86, the loop with [remaining] iterations to go. *)
Fixpoint imageLoop (api : Api) (initialScenes : list Scene) (remaining : nat)
    (i : Z) (st : State) (log : list request) : State * list request :=
  match remaining with
  | O => (handleGenerate_finally st, log)
  | S remaining' =>
      let st := st |> setLoadingMessage
                        (imageProgress i (Z.of_nat (length initialScenes))) in
      match at_ initialScenes i with
      | None =>
          (handleGenerate_fail
             (JsError (typeErrorMessage "undefined" "imagePrompt")) st, log)
      | Some scene =>
          let log := (log ++ [generateImage_request (imagePrompt scene)])%list in
          match generateImage api (Z.to_nat i) (imagePrompt scene) with
          | inr imageUrl =>
              imageLoop api initialScenes remaining' (i + 1)
                (st |> setScenes (patchImage i imageUrl)) log
          | inl err => (handleGenerate_fail err st, log)
          end
      end
  end.

Section WithJSON.

Variable JSON_parse : string -> exn + value.

(** The handler run from the click to its last line, no other event in
    between; the second component lists the API requests it issued. *)
Definition handleGenerate (api : Api) (st : State) : State * list request :=
  if String.eqb (trim (topic st)) "" then
    (st |> setError (Some emptyTopicMessage), [])
  else
    let log := [generateScript_request (topic st) (sceneCount st)] in
    let st := handleGenerate_begin st in
    match generateScript JSON_parse api (topic st) (sceneCount st) with
    | inl err => (handleGenerate_fail err st, log)
    | inr scriptData =>
        match initialScenesOf scriptData with
        | inl err => (handleGenerate_fail err st, log)
        | inr initialScenes =>
            imageLoop api initialScenes (length initialScenes) 0
              (st |> setScenes (fun _ => initialScenes)) log
        end
    end.

End WithJSON.

(** *** Playback and navigation (lines 95-119) *)

Definition togglePlayPause (st : State) : State :=
  if isPlaying st then st |> setIsPlaying false
  else if 0 <? sceneTotal st then
    let atEnd :=
      (currentSceneIndex st =? sceneTotal st - 1)
      && negb (truthy (match currentScene st with
                       | Some scene => narratorScript scene
                       | None => VUndefined
                       end)) in
    (if atEnd then st |> setCurrentSceneIndex (fun _ => 0) else st)
      |> setIsPlaying true
  else st.

Definition nextScene (st : State) : State :=
  let st' := st |> setIsPlaying false in
  if 0 <? sceneTotal st
  then st' |> setCurrentSceneIndex (fun prev => remainder (prev + 1) (sceneTotal st))
  else st'.

Definition prevScene (st : State) : State :=
  let st' := st |> setIsPlaying false in
  if 0 <? sceneTotal st
  then st' |> setCurrentSceneIndex
                (fun prev => remainder (prev - 1 + sceneTotal st) (sceneTotal st))
  else st'.

(** *** The editor (lines 121-145) *)

Definition handleScriptChange (newScript : string) (st : State) : State :=
  st |> setScenes (editAt (currentSceneIndex st)
                     (withNarratorScript (VStr newScript))).

Definition handlePromptChange (newPrompt : string) (st : State) : State :=
  st |> setScenes (editAt (currentSceneIndex st)
                     (withImagePrompt (VStr newPrompt))).

Definition regenerateFallback : string := "画像の再生成に失敗しました。".

(** [handleRegenerateImage] up to its [await]: the new state and, when a
    request went out, the scene it closed over. *)
Definition handleRegenerateImage_begin (st : State) : State * option Scene :=
  match currentScene st with
  | None => (st, None)
  | Some scene =>
      (st |> setIsPlaying false
          |> setRegeneratingSceneId (Some (id scene))
          |> setError None,
       Some scene)
  end.

(** [handleRegenerateImage] from the settled [await] to the end. *)
Definition handleRegenerateImage_resume (scene : Scene)
    (outcome : exn + GenerateImagesResponse) (st : State) : State :=
  match generateImage_resume outcome with
  | inr imageUrl =>
      st |> setScenes (patchImage (id scene) imageUrl)
         |> setRegeneratingSceneId None
  | inl err =>
      st |> setError (Some (messageOr regenerateFallback err))
         |> setRegeneratingSceneId None
  end.

End TopicApp.

(** ** src/App.tsx under events

    The component as the browser drives it: a click reaches its handler
    only when the button is rendered and not [disabled]; a handler that
    reaches an [await] parks a task, and the task resumes when its request
    settles.  Any number of tasks may be parked. *)

Module TopicEvents.
Import Js GeminiService Types TopicApp.

Inductive task : Type :=
| AwaitScript                                       (* handleGenerate, line 70 *)
| AwaitImage (initialScenes : list Scene) (i : Z)   (* handleGenerate, line 82 *)
| AwaitRegenerate (scene : Scene).                  (* handleRegenerateImage, line 138 *)

Inductive settled : Type :=
| ContentSettled (outcome : exn + GenerateContentResponse)
| ImagesSettled (outcome : exn + GenerateImagesResponse).

Inductive event : Type :=
| TypeTopic (v : string)
| SlideSceneCount (v : Z)
| ClickGenerate
| ClickPrev
| ClickNext
| ClickPlayPause
| TypeNarration (v : string)
| TypePrompt (v : string)
| ClickRegenerate
| Settle (n : nat) (r : settled)
| SpeechEnd
| SpeechError.

Record App : Type := mkApp {
  ui : State;
  awaiting : list task
}.

Definition initialApp : App := mkApp initialState [].

Definition isSome {A : Type} (o : option A) : bool :=
  match o with
  | Some _ => true
  | None => false
  end.

(** The [disabled] attributes and the conditions under which the JSX
    renders a control at all (lines 187-194, 202-246, 256-288). *)
Definition generateDisabled (st : State) : bool := isLoading st.

Definition previewShown (st : State) : bool :=
  negb (isLoading st) && (0 <? sceneTotal st).

Definition navDisabled (st : State) : bool :=
  isLoading st || (sceneTotal st =? 0).

Definition playDisabled (st : State) : bool :=
  isLoading st || (sceneTotal st =? 0) || existsb lacksImage (scenes st)
  || isSome (regeneratingSceneId st).

Definition editorShown (st : State) : bool :=
  (0 <? sceneTotal st) && isSome (currentScene st).

Definition regenerateDisabled (st : State) : bool :=
  isLoading st || isSome (regeneratingSceneId st).

(** The head of the [for] loop of [handleGenerate] at index [i]. *)
Definition loopHead (initialScenes : list Scene) (i : Z) (st : State)
  : State * list task :=
  if i <? Z.of_nat (length initialScenes) then
    let st := st |> setLoadingMessage
                      (imageProgress i (Z.of_nat (length initialScenes))) in
    match at_ initialScenes i with
    | Some _ => (st, [AwaitImage initialScenes i])
    | None =>
        (handleGenerate_fail
           (JsError (typeErrorMessage "undefined" "imagePrompt")) st, [])
    end
  else (handleGenerate_finally st, []).

Definition clickGenerate (st : State) : State * list task :=
  if generateDisabled st then (st, [])
  else if String.eqb (trim (topic st)) "" then
    (st |> setError (Some emptyTopicMessage), [])
  else (handleGenerate_begin st, [AwaitScript]).

Definition clickRegenerate (st : State) : State * list task :=
  if editorShown st && negb (regenerateDisabled st) then
    match handleRegenerateImage_begin st with
    | (st', Some scene) => (st', [AwaitRegenerate scene])
    | (st', None) => (st', [])
    end
  else (st, []).

Fixpoint removeNth {A : Type} (n : nat) (l : list A) : list A :=
  match l, n with
  | [], _ => []
  | _ :: rest, O => rest
  | x :: rest, S n' => x :: removeNth n' rest
  end.

Section WithJSON.

Variable JSON_parse : string -> exn + value.

Definition resumeScript (outcome : exn + GenerateContentResponse) (st : State)
  : State * list task :=
  match generateScript_resume JSON_parse outcome with
  | inl err => (handleGenerate_fail err st, [])
  | inr scriptData =>
      match initialScenesOf scriptData with
      | inl err => (handleGenerate_fail err st, [])
      | inr initialScenes =>
          loopHead initialScenes 0 (st |> setScenes (fun _ => initialScenes))
      end
  end.

Definition resumeImage (initialScenes : list Scene) (i : Z)
    (outcome : exn + GenerateImagesResponse) (st : State) : State * list task :=
  match generateImage_resume outcome with
  | inr imageUrl =>
      loopHead initialScenes (i + 1) (st |> setScenes (patchImage i imageUrl))
  | inl err => (handleGenerate_fail err st, [])
  end.

Definition settle (t : task) (r : settled) (st : State)
  : option (State * list task) :=
  match t, r with
  | AwaitScript, ContentSettled outcome => Some (resumeScript outcome st)
  | AwaitImage initialScenes i, ImagesSettled outcome =>
      Some (resumeImage initialScenes i outcome st)
  | AwaitRegenerate scene, ImagesSettled outcome =>
      Some (handleRegenerateImage_resume scene outcome st, [])
  | _, _ => None
  end.

Definition park (app : App) (r : State * list task) : App :=
  mkApp (fst r) (awaiting app ++ snd r)%list.

Definition step (app : App) (e : event) : App :=
  let st := ui app in
  match e with
  | TypeTopic v => mkApp (setTopic v st) (awaiting app)
  | SlideSceneCount v => mkApp (setSceneCount v st) (awaiting app)
  | ClickGenerate => park app (clickGenerate st)
  | ClickPrev =>
      if previewShown st && negb (navDisabled st)
      then mkApp (prevScene st) (awaiting app) else app
  | ClickNext =>
      if previewShown st && negb (navDisabled st)
      then mkApp (nextScene st) (awaiting app) else app
  | ClickPlayPause =>
      if previewShown st && negb (playDisabled st)
      then mkApp (togglePlayPause st) (awaiting app) else app
  | TypeNarration v =>
      if editorShown st
      then mkApp (handleScriptChange v st) (awaiting app) else app
  | TypePrompt v =>
      if editorShown st
      then mkApp (handlePromptChange v st) (awaiting app) else app
  | ClickRegenerate => park app (clickRegenerate st)
  | Settle n r =>
      match nth_error (awaiting app) n with
      | Some t =>
          match settle t r st with
          | Some (st', more) =>
              mkApp st' (removeNth n (awaiting app) ++ more)%list
          | None => app
          end
      | None => app
      end
  | SpeechEnd =>
      match speechEffect st with
      | Some u => mkApp (utterance_onend u st) (awaiting app)
      | None => app
      end
  | SpeechError =>
      match speechEffect st with
      | Some u => mkApp (utterance_onerror u st) (awaiting app)
      | None => app
      end
  end.

Definition run (app : App) (events : list event) : App :=
  fold_left step events app.

End WithJSON.

(** Requests in flight, by kind. *)
Definition isPipelineTask (t : task) : bool :=
  match t with
  | AwaitScript | AwaitImage _ _ => true
  | AwaitRegenerate _ => false
  end.

Definition isRegenerateTask (t : task) : bool :=
  match t with
  | AwaitRegenerate _ => true
  | _ => false
  end.


Definition count (p : task -> bool) (app : App) : nat :=
  length (filter p (awaiting app)).

End TopicEvents.

(** ** src/unnamed/part_000: the audio-driven variant *)

Module AudioApp.
Import Js GeminiService Types.

(** A [File]: its name, its MIME type and what [text()] resolves to. *)
Record File : Type := mkFile {
  name : string;
  type : string;
  content : string
}.

(** The [<audio>] element behind [audioRef], as far as the handlers read
    and write it.  [currentTime] holds the value last assigned or reported. *)
Record Audio : Type := mkAudio {
  currentTime : Q;
  duration : number
}.

(** The [useState] cells and the two refs.  [sceneDurationRef] starts at 0
    and is only ever assigned a finite duration divided by a positive
    count, so it is held as a rational.  [renders] counts the calls of
    [forceUpdate]. *)
Record State : Type := mkState {
  scriptFile : option File;
  audioFile : option File;
  audioUrl : option string;
  audioRef : option Audio;
  sceneDurationRef : Q;
  scenes : list Scene;
  isLoading : bool;
  loadingMessage : string;
  error : option string;
  currentSceneIndex : Z;
  isPlaying : bool;
  regeneratingSceneId : option Z;
  renders : nat
}.

Definition initialState : State :=
  mkState None None None None 0%Q [] false "" None 0 false None O.

Definition setScriptFile (v : option File) (st : State) : State :=
  mkState v (audioFile st) (audioUrl st) (audioRef st) (sceneDurationRef st)
    (scenes st) (isLoading st) (loadingMessage st) (error st)
    (currentSceneIndex st) (isPlaying st) (regeneratingSceneId st) (renders st).

Definition setAudioFile (v : option File) (st : State) : State :=
  mkState (scriptFile st) v (audioUrl st) (audioRef st) (sceneDurationRef st)
    (scenes st) (isLoading st) (loadingMessage st) (error st)
    (currentSceneIndex st) (isPlaying st) (regeneratingSceneId st) (renders st).

Definition setAudioUrl (v : option string) (st : State) : State :=
  mkState (scriptFile st) (audioFile st) v (audioRef st) (sceneDurationRef st)
    (scenes st) (isLoading st) (loadingMessage st) (error st)
    (currentSceneIndex st) (isPlaying st) (regeneratingSceneId st) (renders st).

(** [audioRef.current.currentTime = t], when the element is mounted. *)
Definition seek (t : Q) (st : State) : State :=
  mkState (scriptFile st) (audioFile st) (audioUrl st)
    (match audioRef st with
     | Some audio => Some (mkAudio t (duration audio))
     | None => None
     end)
    (sceneDurationRef st)
    (scenes st) (isLoading st) (loadingMessage st) (error st)
    (currentSceneIndex st) (isPlaying st) (regeneratingSceneId st) (renders st).

Definition setSceneDuration (v : Q) (st : State) : State :=
  mkState (scriptFile st) (audioFile st) (audioUrl st) (audioRef st) v
    (scenes st) (isLoading st) (loadingMessage st) (error st)
    (currentSceneIndex st) (isPlaying st) (regeneratingSceneId st) (renders st).

Definition setScenes (f : list Scene -> list Scene) (st : State) : State :=
  mkState (scriptFile st) (audioFile st) (audioUrl st) (audioRef st)
    (sceneDurationRef st) (f (scenes st)) (isLoading st) (loadingMessage st)
    (error st) (currentSceneIndex st) (isPlaying st) (regeneratingSceneId st)
    (renders st).

Definition setIsLoading (v : bool) (st : State) : State :=
  mkState (scriptFile st) (audioFile st) (audioUrl st) (audioRef st)
    (sceneDurationRef st) (scenes st) v (loadingMessage st) (error st)
    (currentSceneIndex st) (isPlaying st) (regeneratingSceneId st) (renders st).

Definition setLoadingMessage (v : string) (st : State) : State :=
  mkState (scriptFile st) (audioFile st) (audioUrl st) (audioRef st)
    (sceneDurationRef st) (scenes st) (isLoading st) v (error st)
    (currentSceneIndex st) (isPlaying st) (regeneratingSceneId st) (renders st).

Definition setError (v : option string) (st : State) : State :=
  mkState (scriptFile st) (audioFile st) (audioUrl st) (audioRef st)
    (sceneDurationRef st) (scenes st) (isLoading st) (loadingMessage st) v
    (currentSceneIndex st) (isPlaying st) (regeneratingSceneId st) (renders st).

Definition setCurrentSceneIndex (f : Z -> Z) (st : State) : State :=
  mkState (scriptFile st) (audioFile st) (audioUrl st) (audioRef st)
    (sceneDurationRef st) (scenes st) (isLoading st) (loadingMessage st)
    (error st) (f (currentSceneIndex st)) (isPlaying st)
    (regeneratingSceneId st) (renders st).

Definition setIsPlaying (f : bool -> bool) (st : State) : State :=
  mkState (scriptFile st) (audioFile st) (audioUrl st) (audioRef st)
    (sceneDurationRef st) (scenes st) (isLoading st) (loadingMessage st)
    (error st) (currentSceneIndex st) (f (isPlaying st))
    (regeneratingSceneId st) (renders st).

Definition setRegeneratingSceneId (v : option Z) (st : State) : State :=
  mkState (scriptFile st) (audioFile st) (audioUrl st) (audioRef st)
    (sceneDurationRef st) (scenes st) (isLoading st) (loadingMessage st)
    (error st) (currentSceneIndex st) (isPlaying st) v (renders st).

Definition forceUpdate (st : State) : State :=
  mkState (scriptFile st) (audioFile st) (audioUrl st) (audioRef st)
    (sceneDurationRef st) (scenes st) (isLoading st) (loadingMessage st)
    (error st) (currentSceneIndex st) (isPlaying st) (regeneratingSceneId st)
    (S (renders st)).

Definition sceneTotal (st : State) : Z := Z.of_nat (length (scenes st)).

Definition currentScene (st : State) : option Scene :=
  at_ (scenes st) (currentSceneIndex st).

(** *** File inputs (lines 42-64); [file] is [e.target.files?.[0]].  The
    reset of the input element leaves the state alone. *)

Definition badScriptFileMessage : string :=
  "有効なテキストファイル（.txt）を選択してください。".
Definition badAudioFileMessage : string :=
  "有効な音声ファイルを選択してください。".

Definition handleScriptFileChange (file : option File) (st : State) : State :=
  match file with
  | Some f =>
      if String.eqb (type f) "text/plain"
      then st |> setScriptFile (Some f) |> setError None
      else st |> setScriptFile None |> setError (Some badScriptFileMessage)
  | None => st |> setScriptFile None |> setError (Some badScriptFileMessage)
  end.

Definition handleAudioFileChange (file : option File) (st : State) : State :=
  match file with
  | Some f =>
      if startsWith (type f) "audio/"
      then st |> setAudioFile (Some f) |> setError None
      else st |> setAudioFile None |> setError (Some badAudioFileMessage)
  | None => st |> setAudioFile None |> setError (Some badAudioFileMessage)
  end.

(** *** handleCreateStoryboard (lines 66-118) *)

Definition missingFilesMessage : string :=
  "テキストファイルと音声ファイルの両方をアップロードしてください。".
Definition emptyScriptMessage : string :=
  "スクリプトファイルが空か、内容がありません。".
Definition unknownErrorMessage : string := "不明なエラーが発生しました。".

(** What the handler calls besides the image API.
    [generateImagePromptForScript] is imported from the service module but
    its body is not among the sources, so it is an oracle: the prompt, or
    what it throws.  [createObjectURL] is the browser's. *)
Record Env : Type := mkEnv {
  api : Api;
  generateImagePromptForScript : nat -> value -> exn + string;
  createObjectURL : File -> string
}.

Inductive call : Type :=
| PromptCall (script : value)
| ImageCall (r : request).

(** Lines 71-79, up to the first [await]. *)
Definition handleCreateStoryboard_begin (st : State) : State :=
  st |> setIsLoading true
     |> setError None
     |> setScenes (fun _ => [])
     |> setCurrentSceneIndex (fun _ => 0)
     |> setIsPlaying (fun _ => false)
     |> seek 0%Q
     |> setLoadingMessage "スクリプトを読み込み中...".

Definition handleCreateStoryboard_catch (err : exn) (st : State) : State :=
  st |> setError (Some (messageOr unknownErrorMessage err))
     |> setAudioUrl None.

Definition handleCreateStoryboard_finally (st : State) : State :=
  st |> setIsLoading false |> setLoadingMessage "".

Definition handleCreateStoryboard_fail (err : exn) (st : State) : State :=
  st |> handleCreateStoryboard_catch err |> handleCreateStoryboard_finally.

(** Line 81: [split('\n').filter(line => line.trim() !== '')]. *)
Definition scriptLinesOf (scriptContent : string) : list string :=
  filter (fun line => negb (String.eqb (trim line) ""))
    (splitLines scriptContent).

(** Lines 87-92. *)
Definition initialScenesOf (scriptLines : list string) : list Scene :=
  mapIndex (fun line index => mkScene index (VStr "") (VStr line) None)
    scriptLines.

(** [prev.map(s => s.id === i ? { ...s, imagePrompt: prompt } : s)] *)
Definition patchPrompt (i : Z) (prompt : string) (prev : list Scene)
  : list Scene :=
  map (fun s => if id s =? i then withImagePrompt (VStr prompt) s else s) prev.

Definition promptProgress (i total : Z) : string :=
  "シーン " ++ showZ (i + 1) ++ "/" ++ showZ total ++ " のプロンプトを生成中...".

Definition imageProgress (i total : Z) : string :=
  "シーン " ++ showZ (i + 1) ++ "/" ++ showZ total ++ " の画像を生成中...".

(** Lines 98-110, the loop with [remaining] iterations to go. *)
Fixpoint sceneLoop (env : Env) (initialScenes : list Scene) (remaining : nat)
    (i : Z) (st : State) (log : list call) : State * list call :=
  match remaining with
  | O => (handleCreateStoryboard_finally st, log)
  | S remaining' =>
      let total := Z.of_nat (length initialScenes) in
      let st := st |> setLoadingMessage (promptProgress i total) in
      match at_ initialScenes i with
      | None =>
          (handleCreateStoryboard_fail
             (JsError (typeErrorMessage "undefined" "narratorScript")) st, log)
      | Some scene =>
          let log := (log ++ [PromptCall (narratorScript scene)])%list in
          match generateImagePromptForScript env (Z.to_nat i)
                  (narratorScript scene) with
          | inl err => (handleCreateStoryboard_fail err st, log)
          | inr prompt =>
              let st := st |> setScenes (patchPrompt i prompt)
                           |> setLoadingMessage (imageProgress i total) in
              let log :=
                (log ++ [ImageCall (generateImage_request (VStr prompt))])%list in
              match generateImage (api env) (Z.to_nat i) (VStr prompt) with
              | inr imageUrl =>
                  sceneLoop env initialScenes remaining' (i + 1)
                    (st |> setScenes (patchImage i imageUrl)) log
              | inl err => (handleCreateStoryboard_fail err st, log)
              end
          end
      end
  end.

(** The handler run from the click to its last line, no other event in
    between; the second component lists the calls it made. *)
Definition handleCreateStoryboard (env : Env) (st : State)
  : State * list call :=
  match scriptFile st, audioFile st with
  | Some script, Some audio =>
      let st := handleCreateStoryboard_begin st in
      let scriptLines := scriptLinesOf (content script) in
      if (Z.of_nat (length scriptLines) =? 0) then
        (handleCreateStoryboard_fail (JsError emptyScriptMessage) st, [])
      else
        let initialScenes := initialScenesOf scriptLines in
        let st := st |> setScenes (fun _ => initialScenes)
                     |> setAudioUrl (Some (createObjectURL env audio)) in
        sceneLoop env initialScenes (length initialScenes) 0 st []
  | _, _ => (st |> setError (Some missingFilesMessage), [])
  end.

(** *** Playback over the audio time line (lines 120-160) *)

Definition togglePlayPause (st : State) : State :=
  if (0 <? sceneTotal st)
     && match audioUrl st with
        | Some url => negb (String.eqb url "")
        | None => false
        end
  then st |> setIsPlaying negb
  else st.

Definition handleAudioTimeUpdate (st : State) : State :=
  match audioRef st with
  | None => st
  | Some audio =>
      if Qeq_bool (sceneDurationRef st) 0 then st
      else
        let newIndex :=
          Z.min (sceneTotal st - 1)
                (Qfloor (currentTime audio / sceneDurationRef st)) in
        (if negb (newIndex =? currentSceneIndex st)
         then st |> setCurrentSceneIndex (fun _ => newIndex)
         else st)
          |> forceUpdate
  end.

Definition handleAudioLoadedMetadata (st : State) : State :=
  match audioRef st with
  | None => st
  | Some audio =>
      if sceneTotal st =? 0 then st
      else if numberTruthy (duration audio) && isFinite (duration audio) then
        match duration audio with
        | Finite d => st |> setSceneDuration (d / inject_Z (sceneTotal st))
        | NaN | Infinity => st
        end
      else st
  end.

Definition handleAudioEnded (st : State) : State :=
  st |> setIsPlaying (fun _ => false)
     |> setCurrentSceneIndex (fun _ => sceneTotal st - 1).

Definition goToScene (index : Z) (st : State) : State :=
  match audioRef st with
  | None => st
  | Some _ =>
      if (sceneTotal st =? 0) || negb (isFinite (Finite (sceneDurationRef st)))
      then st
      else
        let newIndex := remainder (index + sceneTotal st) (sceneTotal st) in
        st |> setCurrentSceneIndex (fun _ => newIndex)
           |> seek (inject_Z newIndex * sceneDurationRef st)
  end.

Definition nextScene (st : State) : State :=
  goToScene (currentSceneIndex st + 1) st.

Definition prevScene (st : State) : State :=
  goToScene (currentSceneIndex st - 1) st.

(** *** The editor (lines 164-187) *)

Definition handleScriptChange (newScript : string) (st : State) : State :=
  st |> setScenes (editAt (currentSceneIndex st)
                     (withNarratorScript (VStr newScript))).

Definition handlePromptChange (newPrompt : string) (st : State) : State :=
  st |> setScenes (editAt (currentSceneIndex st)
                     (withImagePrompt (VStr newPrompt))).

Definition regenerateFallback : string := "画像の再生成に失敗しました。".

Definition handleRegenerateImage_begin (st : State) : State * option Scene :=
  match currentScene st with
  | None => (st, None)
  | Some scene =>
      (st |> setIsPlaying (fun _ => false)
          |> setRegeneratingSceneId (Some (id scene))
          |> setError None,
       Some scene)
  end.

Definition handleRegenerateImage_resume (scene : Scene)
    (outcome : exn + GenerateImagesResponse) (st : State) : State :=
  match generateImage_resume outcome with
  | inr imageUrl =>
      st |> setScenes (patchImage (id scene) imageUrl)
         |> setRegeneratingSceneId None
  | inl err =>
      st |> setError (Some (messageOr regenerateFallback err))
         |> setRegeneratingSceneId None
  end.

(** The regenerate button (lines 295, 320-322): rendered with the editor,
    [disabled={isLoading || regeneratingSceneId !== null}]. *)
Definition editorShown (st : State) : bool :=
  (0 <? sceneTotal st)
  && match currentScene st with Some _ => true | None => false end.

Definition regenerateDisabled (st : State) : bool :=
  isLoading st
  || match regeneratingSceneId st with Some _ => true | None => false end.

Definition clickRegenerate (st : State) : State * option Scene :=
  if editorShown st && negb (regenerateDisabled st)
  then handleRegenerateImage_begin st
  else (st, None).

End AudioApp.

(** ** Concrete inputs for the examples *)

Module Samples.
Import Js GeminiService Types.

Definition quote : string := String "034"%char EmptyString.

Definition quoted (s : string) : string := quote ++ s ++ quote.

Fixpoint joinComma (l : list string) : string :=
  match l with
  | [] => ""
  | [x] => x
  | x :: rest => x ++ "," ++ joinComma rest
  end.

(** One entry of a script response, as JSON text and as the value
    [JSON.parse] makes of that text. *)
Definition entryJson (e : string * string) : string :=
  "{" ++ quoted "image_prompt" ++ ":" ++ quoted (fst e) ++ ","
      ++ quoted "narrator_script" ++ ":" ++ quoted (snd e) ++ "}".

Definition entryValue (e : string * string) : value :=
  VObj [("image_prompt", VStr (fst e)); ("narrator_script", VStr (snd e))].

Definition scriptJson (entries : list (string * string)) : string :=
  "{" ++ quoted "scenes" ++ ":[" ++ joinComma (map entryJson entries) ++ "]}".

Definition scriptValue (entries : list (string * string)) : value :=
  VObj [("scenes", VArr (map entryValue entries))].

(** [JSON.parse] on the texts of the examples; a [SyntaxError] elsewhere. *)
Definition parseKnown (known : list (string * value)) (s : string)
  : exn + value :=
  match find (fun kv => String.eqb (fst kv) s) known with
  | Some kv => inr (snd kv)
  | None => inl (JsError "Unexpected token")
  end.

Definition twoEntries : list (string * string) :=
  [("a reef at dawn", "The sea wakes."); ("a whale", "A giant passes.")].

Definition fourEntries : list (string * string) :=
  [("a reef at dawn", "The sea wakes."); ("a whale", "A giant passes.");
   ("a storm", "The sky turns."); ("a calm shore", "And it rests.")].

Definition parse : string -> exn + value :=
  parseKnown
    [(scriptJson twoEntries, scriptValue twoEntries);
     (scriptJson fourEntries, scriptValue fourEntries);
     ("{}", VObj []);
     ("{" ++ quoted "scenes" ++ ":7}", VObj [("scenes", VNum "7")]);
     ("null", VNull)].

Definition oneImage (bytes : string) : GenerateImagesResponse :=
  mkImages (Some [mkGenerated (Some (mkImage (Some bytes)))]).

(** An API that answers the script call with [scriptText] (or rejects it)
    and the [n]-th image call with an image while [imageOk n]. *)
Definition apiOf (scriptText : option string) (imageOk : nat -> bool) : Api :=
  mkApi
    (fun _ =>
       match scriptText with
       | Some t => inr (mkContent (Some t))
       | None => inl (JsError "fetch failed")
       end)
    (fun n _ =>
       if imageOk n then inr (oneImage "AAAA")
       else inl (JsError "503 Service Unavailable")).

(** A board of [n] scenes, each with its image. *)
Definition board (n : nat) : list Scene :=
  mapIndex
    (fun (_ : unit) i =>
       mkScene i (VStr "a prompt") (VStr "a line")
         (Some "data:image/jpeg;base64,AAAA"))
    (repeat tt n).

Definition topicBoard (n : nat) (index : Z) (playing : bool) : TopicApp.State :=
  TopicApp.mkState "ocean" 4 (board n) false "" None index playing None.

Definition scriptOf (text : string) : AudioApp.File :=
  AudioApp.mkFile "script.txt" "text/plain" text.

Definition narration : AudioApp.File :=
  AudioApp.mkFile "voice.mp3" "audio/mpeg" "".

(** An audio board of [n] scenes: the element is mounted with duration
    [d] and position [t]; [per] is what [sceneDurationRef] holds. *)
Definition audioBoard (n : nat) (d per t : Q) (index : Z) (playing : bool)
  : AudioApp.State :=
  AudioApp.mkState (Some (scriptOf "a line")) (Some narration)
    (Some "blob:voice") (Some (AudioApp.mkAudio t (Finite d))) per
    (board n) false "" None index playing None O.

(** What the audio variant calls: prompts always come, images while
    [imageOk]. *)
Definition envOf (promptOk imageOk : nat -> bool) : AudioApp.Env :=
  AudioApp.mkEnv (apiOf None imageOk)
    (fun n _ =>
       if promptOk n then inr "a prompt"
       else inl (JsError "プロンプトの生成に失敗しました。"))
    (fun f => "blob:" ++ AudioApp.name f).

(** A playing two-scene audio board on which a script file of blank lines
    has been chosen. *)
Definition blankScriptBoard : AudioApp.State :=
  AudioApp.setScriptFile
    (Some (scriptOf (GeminiService.newline ++ "  " ++ GeminiService.newline)))
    (audioBoard 2 30 15 0 1 true).

(** A session: a storyboard of two scenes is generated to the end, the
    image of the current scene is asked for again, and before that request
    settles a new storyboard is started and its script arrives. *)
Definition scriptArrives : TopicEvents.settled :=
  TopicEvents.ContentSettled (inr (mkContent (Some (scriptJson twoEntries)))).

Definition imageArrives : TopicEvents.settled :=
  TopicEvents.ImagesSettled (inr (oneImage "AAAA")).

Definition firstStoryboard : list TopicEvents.event :=
  [TopicEvents.ClickGenerate;
   TopicEvents.Settle 0 scriptArrives;
   TopicEvents.Settle 0 imageArrives;
   TopicEvents.Settle 0 imageArrives].


End Samples.

(** ** The vocabulary of the statements *)

Import Js GeminiService Types TopicEvents.

(** [after] is [before] with [edit] applied to the scene at position
    [current], if there is one, and to nothing else. *)
Definition editedOnlyAt (current : Z) (edit : Scene -> Scene)
    (before after : list Scene) : Prop :=
  length after = length before
  /\ forall j : nat,
       nth_error after j
       = option_map (fun s => if Z.of_nat j =? current then edit s else s)
           (nth_error before j).

(** The four cells a rejected input has to leave alone, in either variant. *)
Definition topicBoardKept (before after : TopicApp.State) : Prop :=
  TopicApp.scenes after = TopicApp.scenes before
  /\ TopicApp.currentSceneIndex after = TopicApp.currentSceneIndex before
  /\ TopicApp.isPlaying after = TopicApp.isPlaying before
  /\ TopicApp.isLoading after = TopicApp.isLoading before.

Definition audioBoardKept (before after : AudioApp.State) : Prop :=
  AudioApp.scenes after = AudioApp.scenes before
  /\ AudioApp.currentSceneIndex after = AudioApp.currentSceneIndex before
  /\ AudioApp.isPlaying after = AudioApp.isPlaying before
  /\ AudioApp.isLoading after = AudioApp.isLoading before.

(** The images written in by the loop for the ids in [[from, upto)]. *)
Definition patchRange (urlAt : Z -> option string) (from upto : Z)
    (prev : list Scene) : list Scene :=
  map (fun s =>
         if (from <=? id s) && (id s <? upto)
         then withImageUrl (urlAt (id s)) s else s)
      prev.

(** The ids of [l] count up from [k]. *)
Definition idsFrom (k : Z) (l : list Scene) : Prop :=
  forall (j : nat) (s : Scene), nth_error l j = Some s -> id s = k + Z.of_nat j.

Section TopicRun.

Variable api : Api.
Variable init : list Scene.

(** The outcome of the image call for scene [i], and the URL it brought. *)
Definition topicImageAt (i : Z) : option (exn + string) :=
  option_map (fun s => generateImage api (Z.to_nat i) (imagePrompt s)) (at_ init i).

Definition topicUrlAt (i : Z) : option string :=
  match topicImageAt i with
  | Some (inr u) => Some u
  | _ => None
  end.

(** Where the loop stops when entered at [i] with [remaining] iterations
    to go, what it throws there if anything, and the requests it issues. *)
Fixpoint imageRun (remaining : nat) (i : Z) : Z * option exn * list request :=
  match remaining with
  | O => (i, None, [])
  | S remaining' =>
      match at_ init i with
      | None => (i, Some (JsError (typeErrorMessage "undefined" "imagePrompt")), [])
      | Some scene =>
          let req := generateImage_request (imagePrompt scene) in
          match generateImage api (Z.to_nat i) (imagePrompt scene) with
          | inr _ =>
              let '(k, e, reqs) := imageRun remaining' (i + 1) in
              (k, e, req :: reqs)
          | inl err => (i, Some err, [req])
          end
      end
  end.

Definition topicFinish (e : option exn) (st : TopicApp.State) : TopicApp.State :=
  match e with
  | None => TopicApp.handleGenerate_finally st
  | Some err => TopicApp.handleGenerate_fail err st
  end.

End TopicRun.

(** How a run of the audio variant's loop ends. *)
Inductive loopEnd : Type :=
| Completed
| PromptFailed (err : exn)
| ImageFailed (err : exn).

Definition promptWritten (e : loopEnd) : bool :=
  match e with
  | ImageFailed _ => true
  | Completed | PromptFailed _ => false
  end.

(** What the loop wrote for the ids in [[from, upto)], and the prompt it
    wrote for [upto] when the image call for [upto] is the one that failed. *)
Definition written (promptAt : Z -> value) (urlAt : Z -> option string)
    (from upto : Z) (half : bool) (prev : list Scene) : list Scene :=
  map (fun s =>
         if (from <=? id s) && (id s <? upto)
         then withImageUrl (urlAt (id s)) (withImagePrompt (promptAt (id s)) s)
         else if half && (id s =? upto)
              then withImagePrompt (promptAt upto) s
              else s)
      prev.

Section AudioRun.

Variable env : AudioApp.Env.
Variable init : list Scene.

(** The outcome of the prompt call and of the image call for scene [i]. *)
Definition audioPromptAt (i : Z) : option (exn + string) :=
  option_map
    (fun s => AudioApp.generateImagePromptForScript env (Z.to_nat i)
                (narratorScript s))
    (at_ init i).

Definition audioImageAt (i : Z) : option (exn + string) :=
  match audioPromptAt i with
  | Some (inr p) => Some (generateImage (AudioApp.api env) (Z.to_nat i) (VStr p))
  | _ => None
  end.

Definition audioPromptValue (i : Z) : value :=
  match audioPromptAt i with
  | Some (inr p) => VStr p
  | _ => VUndefined
  end.

Definition audioUrlAt (i : Z) : option string :=
  match audioImageAt i with
  | Some (inr u) => Some u
  | _ => None
  end.

Fixpoint sceneRun (remaining : nat) (i : Z) : Z * loopEnd * list AudioApp.call :=
  match remaining with
  | O => (i, Completed, [])
  | S remaining' =>
      match at_ init i with
      | None =>
          (i, PromptFailed (JsError (typeErrorMessage "undefined" "narratorScript")),
           [])
      | Some scene =>
          let c1 := AudioApp.PromptCall (narratorScript scene) in
          match AudioApp.generateImagePromptForScript env (Z.to_nat i)
                  (narratorScript scene) with
          | inl err => (i, PromptFailed err, [c1])
          | inr p =>
              let c2 := AudioApp.ImageCall (generateImage_request (VStr p)) in
              match generateImage (AudioApp.api env) (Z.to_nat i) (VStr p) with
              | inl err => (i, ImageFailed err, [c1; c2])
              | inr _ =>
                  let '(k, e, calls) := sceneRun remaining' (i + 1) in
                  (k, e, c1 :: c2 :: calls)
              end
          end
      end
  end.

Definition audioFinish (e : loopEnd) (st : AudioApp.State) : AudioApp.State :=
  match e with
  | Completed => AudioApp.handleCreateStoryboard_finally st
  | PromptFailed err | ImageFailed err =>
      AudioApp.handleCreateStoryboard_fail err st
  end.

End AudioRun.

(** What the invariant records: a regeneration request is in flight
    exactly while [regeneratingSceneId] is set, a pipeline request exactly
    while [isLoading]. *)
Definition flagsMatch (app : App) : Prop :=
  count isRegenerateTask app
  = (if isSome (TopicApp.regeneratingSceneId (ui app)) then 1 else 0)%nat
  /\ count isPipelineTask app
     = (if TopicApp.isLoading (ui app) then 1 else 0)%nat.

(** How a resumed pipeline leaves the flags: it ends with [isLoading]
    false and nothing parked, or goes on with one image request parked. *)
Definition pipelineGoesOn (st : TopicApp.State)
    (r : TopicApp.State * list task) : Prop :=
  TopicApp.regeneratingSceneId (fst r) = TopicApp.regeneratingSceneId st
  /\ ((TopicApp.isLoading (fst r) = false /\ snd r = [])
      \/ (TopicApp.isLoading (fst r) = TopicApp.isLoading st
          /\ exists initialScenes i, snd r = [AwaitImage initialScenes i])).

(** The current index is on the board, and a running pipeline holds it at
    0 with playback off. *)
Definition indexInBoard (app : App) : Prop :=
  let st := ui app in
  0 <= TopicApp.currentSceneIndex st < Z.max 1 (TopicApp.sceneTotal st)
  /\ (TopicApp.isLoading st = true ->
      TopicApp.currentSceneIndex st = 0 /\ TopicApp.isPlaying st = false).

(** ** Handlers run to their end, and more vocabulary *)

Module TopicWhole.

(** [handleRegenerateImage] of src/App.tsx from the click to its last
    line, no other event in between. *)
Definition handleRegenerateImage (api : Api) (st : TopicApp.State)
  : TopicApp.State :=
  match TopicApp.handleRegenerateImage_begin st with
  | (st', Some scene) =>
      TopicApp.handleRegenerateImage_resume scene
        (models_generateImages api 0 (imagePromptText (imagePrompt scene))) st'
  | (st', None) => st'
  end.

End TopicWhole.

Module AudioWhole.

(** [handleRegenerateImage] of the audio variant, likewise. *)
Definition handleRegenerateImage (api : Api) (st : AudioApp.State)
  : AudioApp.State :=
  match AudioApp.handleRegenerateImage_begin st with
  | (st', Some scene) =>
      AudioApp.handleRegenerateImage_resume scene
        (models_generateImages api 0 (imagePromptText (imagePrompt scene))) st'
  | (st', None) => st'
  end.

End AudioWhole.

(** The two file inputs of the audio variant, used in any order. *)
Inductive upload : Type :=
  | ScriptChosen (file : option AudioApp.File)
  | AudioChosen (file : option AudioApp.File).

Definition choose (st : AudioApp.State) (u : upload) : AudioApp.State :=
  match u with
  | ScriptChosen file => AudioApp.handleScriptFileChange file st
  | AudioChosen file => AudioApp.handleAudioFileChange file st
  end.

(** What the file inputs let into the state. *)
Definition storedFilesAccepted (st : AudioApp.State) : Prop :=
  (forall f, AudioApp.scriptFile st = Some f -> AudioApp.type f = "text/plain")
  /\ (forall f, AudioApp.audioFile st = Some f ->
                startsWith (AudioApp.type f) "audio/" = true).

(** [after] is [before] with the image of every scene of id [i] replaced
    by [url] and nothing else touched. *)
Definition imageReplaced (i : Z) (url : string) (before after : list Scene)
  : Prop :=
  length after = length before
  /\ forall j : nat,
       nth_error after j
       = option_map
           (fun s => if id s =? i
                     then mkScene (id s) (imagePrompt s) (narratorScript s)
                            (Some url)
                     else s)
           (nth_error before j).

(** Playback is on only over a board whose scenes all have their image,
    with no pipeline run and no regeneration under way. *)
Definition playsIllustrated (app : App) : Prop :=
  TopicApp.isPlaying (ui app) = true ->
  TopicApp.isLoading (ui app) = false
  /\ TopicApp.regeneratingSceneId (ui app) = None
  /\ existsb lacksImage (TopicApp.scenes (ui app)) = false.

(** The progress message matches what the pipeline is waiting for, and is
    empty when the pipeline is not running. *)
Definition progressOf (st : TopicApp.State) (t : task) : Prop :=
  match t with
  | AwaitScript => TopicApp.loadingMessage st = "AIがシナリオを執筆中..."
  | AwaitImage initialScenes i =>
      0 <= i < Z.of_nat (length initialScenes)
      /\ TopicApp.loadingMessage st
         = TopicApp.imageProgress i (Z.of_nat (length initialScenes))
  | AwaitRegenerate _ => True
  end.

Definition progressShown (app : App) : Prop :=
  (TopicApp.isLoading (ui app) = false -> TopicApp.loadingMessage (ui app) = "")
  /\ forall t, In t (awaiting app) -> progressOf (ui app) t.

(** How a resumed pipeline leaves the message: it ends, idle and with an
    empty message, or waits for the image of a scene named in the message. *)
Definition pipelineReports (r : TopicApp.State * list task) : Prop :=
  (TopicApp.isLoading (fst r) = false
   /\ TopicApp.loadingMessage (fst r) = "" /\ snd r = [])
  \/ (TopicApp.isLoading (fst r) = true
      /\ exists initialScenes i,
           snd r = [AwaitImage initialScenes i]
           /\ progressOf (fst r) (AwaitImage initialScenes i)).

(** The settlements that answer the image requests of one pipeline run
    from the oracle, for the loop entered at [i] with [remaining]
    iterations to go. *)
Fixpoint imageSettles (api : Api) (initialScenes : list Scene)
    (remaining : nat) (i : Z) : list event :=
  match remaining with
  | O => []
  | S remaining' =>
      match at_ initialScenes i with
      | None => []
      | Some scene =>
          let outcome :=
            models_generateImages api (Z.to_nat i)
              (imagePromptText (imagePrompt scene)) in
          Settle 0 (ImagesSettled outcome)
          :: match generateImage_resume outcome with
             | inr _ => imageSettles api initialScenes remaining' (i + 1)
             | inl _ => []
             end
      end
  end.

(** One click on generate and the settlements of every request the run
    issues, with nothing else in between. *)
Definition generateSession (parse : string -> exn + value) (api : Api)
    (st : TopicApp.State) : list event :=
  let outcome :=
    models_generateContent api
      (scriptContents (TopicApp.topic st) (TopicApp.sceneCount st)) in
  ClickGenerate
  :: Settle 0 (ContentSettled outcome)
  :: match generateScript_resume parse outcome with
     | inl _ => []
     | inr scriptData =>
         match TopicApp.initialScenesOf scriptData with
         | inl _ => []
         | inr initialScenes =>
             imageSettles api initialScenes (length initialScenes) 0
         end
     end.

(** * Properties *)

(** ** generateScript *)

(** [generateScript] either fails with the one fixed message or returns the
    parsed response, whose [scenes] is then an array. *)
Lemma generateScript_resume_cases (parse : string -> exn + value)
    (outcome : exn + GenerateContentResponse) :
  generateScript_resume parse outcome = inl (JsError scriptFailure)
  \/ exists response t parsed items,
       outcome = inr response /\ text response = Some t
       /\ parse (trim t) = inr parsed
       /\ getProp parsed "scenes" = inr (VArr items)
       /\ generateScript_resume parse outcome = inr parsed.
Proof.
  unfold generateScript_resume.
  destruct outcome as [e | response]; cbn; [now left |].
  destruct (text response) as [t |] eqn:Ht; cbn; [| now left].
  destruct (parse (trim t)) as [e | parsed] eqn:Hp; cbn; [now left |].
  destruct (getProp parsed "scenes") as [e | v] eqn:Hs; cbn; [now left |].
  destruct v as [| | b | lit | s | items | props]; cbn;
    rewrite ?orb_true_r; try (now left).
  right. exists response, t, parsed, items. repeat split; auto.
Qed.

Lemma generateScript_failure (parse : string -> exn + value) (api : Api)
    (topic : string) (sceneCount : Z) (err : exn) :
  generateScript parse api topic sceneCount = inl err ->
  err = JsError scriptFailure.
Proof.
  unfold generateScript. intros H.
  destruct (generateScript_resume_cases parse
              (models_generateContent api (scriptContents topic sceneCount)))
    as [Hf | (r & t & p & items & _ & _ & _ & _ & Hok)]; congruence.
Qed.

(** C10: whatever makes [generateScript] fail, the caller is handed the same
    [Error] with the message "スクリプトの生成に失敗しました。": a rejected API call, a
    response text that does not parse, a parsed response whose [scenes] is
    missing or is no array. *)
Theorem generateScript_single_failure_message
    (parse : string -> exn + value) (api : Api) (topic : string) (sceneCount : Z) :
  (forall err, generateScript parse api topic sceneCount = inl err ->
               err = JsError scriptFailure)
  /\ (forall e, models_generateContent api (scriptContents topic sceneCount) = inl e ->
                generateScript parse api topic sceneCount = inl (JsError scriptFailure))
  /\ (forall t e,
        models_generateContent api (scriptContents topic sceneCount)
          = inr (mkContent (Some t)) ->
        parse (trim t) = inl e ->
        generateScript parse api topic sceneCount = inl (JsError scriptFailure))
  /\ (forall t parsed,
        models_generateContent api (scriptContents topic sceneCount)
          = inr (mkContent (Some t)) ->
        parse (trim t) = inr parsed ->
        (forall items, getProp parsed "scenes" <> inr (VArr items)) ->
        generateScript parse api topic sceneCount = inl (JsError scriptFailure)).
Proof.
  repeat split.
  - apply generateScript_failure.
  - intros e H. unfold generateScript. rewrite H. reflexivity.
  - intros t e H Hp. unfold generateScript.
    rewrite H. unfold generateScript_resume. cbn.
    rewrite Hp. reflexivity.
  - intros t parsed H Hp Hno. unfold generateScript.
    destruct (generateScript_resume_cases parse
                (models_generateContent api (scriptContents topic sceneCount)))
      as [Hf | (r & t' & p & items & Hr & Ht & Hp' & Hs & _)]; [exact Hf |].
    exfalso. rewrite H in Hr. injection Hr as <-. cbn in Ht.
    injection Ht as <-. rewrite Hp in Hp'. injection Hp' as <-.
    exact (Hno items Hs).
Qed.

Lemma generateScript_single_failure_message_witness :
  generateScript Samples.parse (Samples.apiOf None (fun _ => true)) "ocean" 4
    = inl (JsError scriptFailure)
  /\ generateScript Samples.parse (Samples.apiOf (Some "not json") (fun _ => true))
       "ocean" 4 = inl (JsError scriptFailure)
  /\ generateScript Samples.parse (Samples.apiOf (Some " {} ") (fun _ => true))
       "ocean" 4 = inl (JsError scriptFailure)
  /\ generateScript Samples.parse
       (Samples.apiOf (Some ("{" ++ Samples.quoted "scenes" ++ ":7}")) (fun _ => true))
       "ocean" 4 = inl (JsError scriptFailure).
Proof.
  split; [| split; [| split]].
  - apply (proj1 (proj2 (generateScript_single_failure_message
             Samples.parse (Samples.apiOf None (fun _ => true)) "ocean" 4))
             (JsError "fetch failed")).
    reflexivity.
  - apply (proj1 (proj2 (proj2 (generateScript_single_failure_message
             Samples.parse (Samples.apiOf (Some "not json") (fun _ => true))
             "ocean" 4))) "not json" (JsError "Unexpected token"));
      reflexivity.
  - apply (proj2 (proj2 (proj2 (generateScript_single_failure_message
             Samples.parse (Samples.apiOf (Some " {} ") (fun _ => true))
             "ocean" 4))) " {} " (VObj [])).
    + reflexivity.
    + reflexivity.
    + intros items H. discriminate H.
  - apply (proj2 (proj2 (proj2 (generateScript_single_failure_message
             Samples.parse
             (Samples.apiOf (Some ("{" ++ Samples.quoted "scenes" ++ ":7}"))
                (fun _ => true))
             "ocean" 4)))
             ("{" ++ Samples.quoted "scenes" ++ ":7}")
             (VObj [("scenes", VNum "7")])).
    + reflexivity.
    + reflexivity.
    + intros items H. discriminate H.
Defined.

(** ** The editor *)

Lemma nth_error_mapIndexFrom {A B : Type} (f : A -> Z -> B) (xs : list A) :
  forall (k : Z) (j : nat),
    nth_error (mapIndexFrom f k xs) j
    = option_map (fun x => f x (k + Z.of_nat j)) (nth_error xs j).
Proof.
  induction xs as [| x rest IH]; intros k j.
  - destruct j; reflexivity.
  - destruct j as [| j]; cbn [mapIndexFrom nth_error option_map].
    + now rewrite Z.add_0_r.
    + rewrite IH. destruct (nth_error rest j); cbn; [| reflexivity].
      do 2 f_equal. lia.
Qed.

Lemma length_mapIndexFrom {A B : Type} (f : A -> Z -> B) (xs : list A) :
  forall k : Z, length (mapIndexFrom f k xs) = length xs.
Proof.
  induction xs as [| x rest IH]; intros k; cbn; [reflexivity |].
  now rewrite IH.
Qed.

Lemma editAt_editedOnlyAt (current : Z) (edit : Scene -> Scene)
    (prev : list Scene) :
  editedOnlyAt current edit prev (editAt current edit prev).
Proof.
  split.
  - apply length_mapIndexFrom.
  - intros j. unfold editAt, mapIndex. rewrite nth_error_mapIndexFrom.
    reflexivity.
Qed.

(** C9: an edit of the narration or of the prompt, in either variant,
    rewrites that one field of the scene at the current position; the
    scene keeps its id, its image and its other text, and every other
    scene is the record it was. *)
Theorem editor_edit_is_local (v : string) :
  (forall st : TopicApp.State,
      editedOnlyAt (TopicApp.currentSceneIndex st)
        (fun s => mkScene (id s) (imagePrompt s) (VStr v) (imageUrl s))
        (TopicApp.scenes st)
        (TopicApp.scenes (TopicApp.handleScriptChange v st)))
  /\ (forall st : TopicApp.State,
      editedOnlyAt (TopicApp.currentSceneIndex st)
        (fun s => mkScene (id s) (VStr v) (narratorScript s) (imageUrl s))
        (TopicApp.scenes st)
        (TopicApp.scenes (TopicApp.handlePromptChange v st)))
  /\ (forall st : AudioApp.State,
      editedOnlyAt (AudioApp.currentSceneIndex st)
        (fun s => mkScene (id s) (imagePrompt s) (VStr v) (imageUrl s))
        (AudioApp.scenes st)
        (AudioApp.scenes (AudioApp.handleScriptChange v st)))
  /\ (forall st : AudioApp.State,
      editedOnlyAt (AudioApp.currentSceneIndex st)
        (fun s => mkScene (id s) (VStr v) (narratorScript s) (imageUrl s))
        (AudioApp.scenes st)
        (AudioApp.scenes (AudioApp.handlePromptChange v st))).
Proof.
  split; [| split; [| split]]; intros st;
    exact (editAt_editedOnlyAt _ _ _).
Qed.

(** ** Speech-driven playback *)

Lemma speechEffect_plays (st : TopicApp.State) (u : TopicApp.Utterance) :
  TopicApp.speechEffect st = Some u ->
  TopicApp.isPlaying st = true
  /\ 0 <= TopicApp.currentSceneIndex st < TopicApp.sceneTotal st
  /\ TopicApp.madeAtIndex u = TopicApp.currentSceneIndex st
  /\ TopicApp.madeAtLength u = TopicApp.sceneTotal st
  /\ exists scene, TopicApp.currentScene st = Some scene
                   /\ TopicApp.spoken u = narratorScript scene.
Proof.
  unfold TopicApp.speechEffect.
  destruct (TopicApp.isPlaying st); cbn [andb]; [| discriminate].
  destruct (0 <? TopicApp.sceneTotal st); [| discriminate].
  destruct (TopicApp.currentScene st) as [scene |] eqn:Hc; [| discriminate].
  intros H. injection H as <-. cbn.
  repeat split; try reflexivity.
  - unfold TopicApp.currentScene, at_ in Hc.
    destruct (TopicApp.currentSceneIndex st <? 0) eqn:Hn; [discriminate | lia].
  - unfold TopicApp.currentScene, at_ in Hc.
    destruct (TopicApp.currentSceneIndex st <? 0) eqn:Hn; [discriminate |].
    assert (Hlt : (Z.to_nat (TopicApp.currentSceneIndex st)
                   < length (TopicApp.scenes st))%nat).
    { apply nth_error_Some. congruence. }
    unfold TopicApp.sceneTotal. lia.
  - exists scene. auto.
Qed.

Lemma at_in_range {A : Type} (xs : list A) (i : Z) :
  0 <= i < Z.of_nat (length xs) -> exists x, at_ xs i = Some x.
Proof.
  intros H. unfold at_.
  destruct (i <? 0) eqn:Hn; [lia |].
  destruct (nth_error xs (Z.to_nat i)) as [x |] eqn:Hx; [now exists x |].
  apply nth_error_None in Hx. lia.
Qed.

(** C8: when the utterance for scene [i] ends and [i] is not the last
    scene, the index becomes [i + 1], playback stays on and the effect
    speaks the narration of scene [i + 1]; when [i] is the last scene,
    playback stops where it is; when synthesis fails, playback stops and
    the index stays. *)
Theorem utterance_chaining (st : TopicApp.State) (u : TopicApp.Utterance) :
  TopicApp.speechEffect st = Some u ->
  let i := TopicApp.currentSceneIndex st in
  let ended := TopicApp.utterance_onend u st in
  let failed := TopicApp.utterance_onerror u st in
  (i < TopicApp.sceneTotal st - 1 ->
     TopicApp.currentSceneIndex ended = i + 1
     /\ TopicApp.isPlaying ended = true
     /\ exists next,
          at_ (TopicApp.scenes st) (i + 1) = Some next
          /\ TopicApp.speechEffect ended
             = Some (TopicApp.mkUtterance (narratorScript next) (i + 1)
                       (TopicApp.sceneTotal st)))
  /\ (i = TopicApp.sceneTotal st - 1 ->
        TopicApp.isPlaying ended = false
        /\ TopicApp.currentSceneIndex ended = i)
  /\ TopicApp.isPlaying failed = false
  /\ TopicApp.currentSceneIndex failed = i.
Proof.
  intros Hu i ended failed.
  destruct (speechEffect_plays st u Hu) as (Hp & Hr & Hi & Hl & _).
  subst i ended failed. unfold TopicApp.utterance_onend. rewrite Hi, Hl.
  repeat split.
  - destruct (Z.ltb_spec (TopicApp.currentSceneIndex st)
                (TopicApp.sceneTotal st - 1)); [reflexivity | lia].
  - destruct (Z.ltb_spec (TopicApp.currentSceneIndex st)
                (TopicApp.sceneTotal st - 1)); [exact Hp | lia].
  - destruct (Z.ltb_spec (TopicApp.currentSceneIndex st)
                (TopicApp.sceneTotal st - 1)); [| lia].
    destruct (at_in_range (TopicApp.scenes st)
                (TopicApp.currentSceneIndex st + 1)) as [next Hn].
    { unfold TopicApp.sceneTotal in *. lia. }
    exists next. split; [exact Hn |].
    unfold TopicApp.speechEffect, TopicApp.currentScene, TopicApp.sceneTotal.
    cbn. rewrite Hp. cbn [andb].
    unfold TopicApp.sceneTotal in *.
    destruct (Z.ltb_spec 0 (Z.of_nat (length (TopicApp.scenes st)))); [| lia].
    rewrite Hn. reflexivity.
  - destruct (Z.ltb_spec (TopicApp.currentSceneIndex st)
                (TopicApp.sceneTotal st - 1)); [lia | reflexivity].
  - destruct (Z.ltb_spec (TopicApp.currentSceneIndex st)
                (TopicApp.sceneTotal st - 1)); [lia | reflexivity].
Qed.

(** ** Navigation *)

(** On a non-negative dividend the remainder of JavaScript is the
    mathematical residue. *)
Lemma remainder_mod (a n : Z) : 0 <= a -> 0 < n -> remainder a n = a mod n.
Proof. intros Ha Hn. unfold remainder. apply Z.rem_mod_nonneg; assumption. Qed.

Lemma audio_goToScene_mounted (st : AudioApp.State) (audio : AudioApp.Audio)
    (index : Z) :
  AudioApp.audioRef st = Some audio ->
  1 <= AudioApp.sceneTotal st ->
  AudioApp.goToScene index st
  = let newIndex :=
      remainder (index + AudioApp.sceneTotal st) (AudioApp.sceneTotal st) in
    st |> AudioApp.setCurrentSceneIndex (fun _ => newIndex)
       |> AudioApp.seek (inject_Z newIndex * AudioApp.sceneDurationRef st).
Proof.
  intros Ha Hn. unfold AudioApp.goToScene. rewrite Ha.
  destruct (Z.eqb_spec (AudioApp.sceneTotal st) 0); [lia |].
  reflexivity.
Qed.

(** C2, as the code has it.  Topic variant: next and previous set
    [isPlaying] to false, and with N >= 1 scenes and the index inside the
    board the new index is (current +- 1 + N) mod N.  Audio variant: with
    an audio element mounted and a per-scene duration known, the new index
    is the same residue, the position is moved to that scene's start and
    the playback flag is left as it was; with no audio element mounted,
    next and previous change nothing. *)
Theorem navigation_wraps :
  (forall st : TopicApp.State,
      TopicApp.isPlaying (TopicApp.nextScene st) = false
      /\ TopicApp.isPlaying (TopicApp.prevScene st) = false)
  /\ (forall st : TopicApp.State,
        let n := TopicApp.sceneTotal st in
        let current := TopicApp.currentSceneIndex st in
        1 <= n -> 0 <= current < n ->
        TopicApp.currentSceneIndex (TopicApp.nextScene st) = (current + 1 + n) mod n
        /\ TopicApp.currentSceneIndex (TopicApp.prevScene st) = (current - 1 + n) mod n)
  /\ (forall (st : AudioApp.State) (audio : AudioApp.Audio),
        let n := AudioApp.sceneTotal st in
        let current := AudioApp.currentSceneIndex st in
        AudioApp.audioRef st = Some audio ->
        ~ AudioApp.sceneDurationRef st == 0 ->
        1 <= n -> 0 <= current < n ->
        AudioApp.currentSceneIndex (AudioApp.nextScene st) = (current + 1 + n) mod n
        /\ AudioApp.currentSceneIndex (AudioApp.prevScene st) = (current - 1 + n) mod n
        /\ AudioApp.isPlaying (AudioApp.nextScene st) = AudioApp.isPlaying st
        /\ AudioApp.isPlaying (AudioApp.prevScene st) = AudioApp.isPlaying st
        /\ AudioApp.audioRef (AudioApp.nextScene st)
           = Some (AudioApp.mkAudio
                     (inject_Z ((current + 1 + n) mod n)
                      * AudioApp.sceneDurationRef st)
                     (AudioApp.duration audio))
        /\ AudioApp.audioRef (AudioApp.prevScene st)
           = Some (AudioApp.mkAudio
                     (inject_Z ((current - 1 + n) mod n)
                      * AudioApp.sceneDurationRef st)
                     (AudioApp.duration audio)))
  /\ (forall st : AudioApp.State,
        AudioApp.audioRef st = None ->
        AudioApp.nextScene st = st /\ AudioApp.prevScene st = st).
Proof.
  split; [| split; [| split]].
  - intros st. unfold TopicApp.nextScene, TopicApp.prevScene.
    destruct (0 <? TopicApp.sceneTotal st); split; reflexivity.
  - intros st n current Hn Hc. subst n current.
    unfold TopicApp.nextScene, TopicApp.prevScene.
    destruct (Z.ltb_spec 0 (TopicApp.sceneTotal st)); [| lia].
    cbn. rewrite !remainder_mod by lia. split; [| reflexivity].
    rewrite <- (Z.add_mod_idemp_r (TopicApp.currentSceneIndex st + 1)) by lia.
    rewrite Z.mod_same by lia. now rewrite Z.add_0_r.
  - intros st audio n current Ha _ Hn Hc. subst n current.
    unfold AudioApp.nextScene, AudioApp.prevScene.
    rewrite !(audio_goToScene_mounted st audio) by assumption.
    cbn. rewrite Ha, !remainder_mod by lia. repeat split.
  - intros st Ha. unfold AudioApp.nextScene, AudioApp.prevScene, AudioApp.goToScene.
    rewrite Ha. split; reflexivity.
Qed.

(** ** The audio time line *)

Lemma Qeq_bool_false (q : Q) : ~ q == 0 -> Qeq_bool q 0 = false.
Proof.
  intros H. destruct (Qeq_bool q 0) eqn:E; [| reflexivity].
  exfalso. apply H. now apply Qeq_bool_iff.
Qed.

Lemma audio_metadata_sets_duration (st : AudioApp.State)
    (audio : AudioApp.Audio) (d : Q) :
  AudioApp.audioRef st = Some audio ->
  AudioApp.duration audio = Finite d ->
  ~ d == 0 ->
  1 <= AudioApp.sceneTotal st ->
  AudioApp.handleAudioLoadedMetadata st
  = st |> AudioApp.setSceneDuration (d / inject_Z (AudioApp.sceneTotal st)).
Proof.
  intros Ha Hd Hnz Hn. unfold AudioApp.handleAudioLoadedMetadata.
  rewrite Ha, Hd. cbn.
  destruct (Z.eqb_spec (AudioApp.sceneTotal st) 0); [lia |].
  now rewrite (Qeq_bool_false d Hnz).
Qed.

Lemma audio_tick_index (st : AudioApp.State) (audio : AudioApp.Audio) :
  AudioApp.audioRef st = Some audio ->
  ~ AudioApp.sceneDurationRef st == 0 ->
  let newIndex :=
    Z.min (AudioApp.sceneTotal st - 1)
      (Qfloor (AudioApp.currentTime audio / AudioApp.sceneDurationRef st)) in
  AudioApp.currentSceneIndex (AudioApp.handleAudioTimeUpdate st) = newIndex
  /\ (newIndex = AudioApp.currentSceneIndex st ->
      AudioApp.handleAudioTimeUpdate st = AudioApp.forceUpdate st)
  /\ (newIndex <> AudioApp.currentSceneIndex st ->
      AudioApp.handleAudioTimeUpdate st
      = st |> AudioApp.setCurrentSceneIndex (fun _ => newIndex)
           |> AudioApp.forceUpdate).
Proof.
  intros Ha Hnz newIndex. unfold AudioApp.handleAudioTimeUpdate.
  rewrite Ha, (Qeq_bool_false _ Hnz). fold newIndex.
  destruct (Z.eqb_spec newIndex (AudioApp.currentSceneIndex st)) as [E | E];
    cbn [negb].
  - split; [cbn; now rewrite E | split; [reflexivity | contradiction]].
  - split; [reflexivity | split; [contradiction | reflexivity]].
Qed.

(** C4: at metadata load the per-scene duration becomes the audio's
    duration divided by the number of scenes, and no tick changes it; on a
    tick at elapsed time [t] the index becomes
    min (N - 1) (floor (t / per-scene duration)), and when that is the index
    already the tick only re-renders.  Three scenes over 30 seconds get 10
    seconds each, and at 22 seconds the index is 2. *)
Theorem time_division_sync :
  (forall (st : AudioApp.State) (audio : AudioApp.Audio) (d : Q),
      AudioApp.audioRef st = Some audio ->
      AudioApp.duration audio = Finite d ->
      ~ d == 0 ->
      1 <= AudioApp.sceneTotal st ->
      AudioApp.sceneDurationRef (AudioApp.handleAudioLoadedMetadata st)
      = (d / inject_Z (AudioApp.sceneTotal st))%Q)
  /\ (forall (st : AudioApp.State) (audio : AudioApp.Audio),
        AudioApp.audioRef st = Some audio ->
        ~ AudioApp.sceneDurationRef st == 0 ->
        let newIndex :=
          Z.min (AudioApp.sceneTotal st - 1)
            (Qfloor (AudioApp.currentTime audio / AudioApp.sceneDurationRef st)) in
        AudioApp.currentSceneIndex (AudioApp.handleAudioTimeUpdate st) = newIndex
        /\ (newIndex = AudioApp.currentSceneIndex st ->
            AudioApp.handleAudioTimeUpdate st = AudioApp.forceUpdate st)
        /\ AudioApp.sceneDurationRef (AudioApp.handleAudioTimeUpdate st)
           = AudioApp.sceneDurationRef st)
  /\ (let loaded :=
        AudioApp.handleAudioLoadedMetadata (Samples.audioBoard 3 30 0 22 0 true) in
      AudioApp.sceneTotal loaded = 3
      /\ AudioApp.sceneDurationRef loaded == 10
      /\ AudioApp.currentSceneIndex (AudioApp.handleAudioTimeUpdate loaded) = 2).
Proof.
  split; [| split].
  - intros st audio d Ha Hd Hnz Hn.
    now rewrite (audio_metadata_sets_duration st audio d).
  - intros st audio Ha Hnz newIndex.
    destruct (audio_tick_index st audio Ha Hnz) as (Hi & Hsame & Hdiff).
    fold newIndex in Hi, Hsame, Hdiff.
    split; [exact Hi | split; [exact Hsame |]].
    destruct (Z.eq_dec newIndex (AudioApp.currentSceneIndex st)) as [E | E].
    + now rewrite (Hsame E).
    + now rewrite (Hdiff E).
  - cbv zeta. split; [reflexivity | split; [reflexivity | reflexivity]].
Qed.

Lemma time_division_sync_witness :
  AudioApp.sceneDurationRef
    (AudioApp.handleAudioLoadedMetadata (Samples.audioBoard 3 30 0 22 0 true))
  = (30 / inject_Z 3)%Q
  /\ AudioApp.currentSceneIndex
       (AudioApp.handleAudioTimeUpdate (Samples.audioBoard 3 30 10 22 0 true))
     = Z.min (3 - 1) (Qfloor (22 / 10)).
Proof.
  split.
  - apply (proj1 time_division_sync
             (Samples.audioBoard 3 30 0 22 0 true)
             (AudioApp.mkAudio 22 (Finite 30)) 30%Q).
    + reflexivity.
    + reflexivity.
    + intro H. discriminate H.
    + cbn. lia.
  - apply (proj1 (proj2 time_division_sync)
             (Samples.audioBoard 3 30 10 22 0 true)
             (AudioApp.mkAudio 22 (Finite 30))).
    + reflexivity.
    + intro H. discriminate H.
Defined.

(** C5, as the code has it: on a board of N >= 1 scenes whose audio
    duration [d] is known, [goToScene i] for any [i >= -N] moves to scene
    [i mod N] and sets the playback position to (i mod N) * (d / N); for
    [i] inside the board that is scene [i] at i * (d / N). *)
Theorem goToScene_seeks (st : AudioApp.State) (audio : AudioApp.Audio)
    (d : Q) (i : Z) :
  let n := AudioApp.sceneTotal st in
  let sought := AudioApp.goToScene i (AudioApp.handleAudioLoadedMetadata st) in
  AudioApp.audioRef st = Some audio ->
  AudioApp.duration audio = Finite d ->
  ~ d == 0 ->
  1 <= n ->
  - n <= i ->
  AudioApp.currentSceneIndex sought = i mod n
  /\ AudioApp.audioRef sought
     = Some (AudioApp.mkAudio (inject_Z (i mod n) * (d / inject_Z n)) (Finite d))
  /\ (0 <= i < n ->
      AudioApp.currentSceneIndex sought = i
      /\ AudioApp.audioRef sought
         = Some (AudioApp.mkAudio (inject_Z i * (d / inject_Z n)) (Finite d))).
Proof.
  intros n sought Ha Hd Hnz Hn Hi. subst n sought.
  rewrite (audio_metadata_sets_duration st audio d) by assumption.
  rewrite (audio_goToScene_mounted _ audio) by (cbn; assumption).
  cbn. rewrite Ha, Hd.
  assert (E : forall q, AudioApp.sceneTotal (AudioApp.setSceneDuration q st)
                        = AudioApp.sceneTotal st) by reflexivity.
  rewrite !E, remainder_mod by lia.
  rewrite <- (Z.add_mod_idemp_r i) by lia.
  rewrite Z.mod_same, Z.add_0_r by lia.
  split; [reflexivity | split; [reflexivity |]].
  intros Hin. rewrite Z.mod_small by lia. split; reflexivity.
Qed.

Lemma goToScene_seeks_witness :
  let sought :=
    AudioApp.goToScene (-1)
      (AudioApp.handleAudioLoadedMetadata (Samples.audioBoard 5 30 0 0 0 false)) in
  AudioApp.currentSceneIndex sought = 4
  /\ AudioApp.audioRef sought
     = Some (AudioApp.mkAudio (inject_Z 4 * (30 / inject_Z 5)) (Finite 30)).
Proof.
  cbv zeta.
  destruct (goToScene_seeks (Samples.audioBoard 5 30 0 0 0 false)
              (AudioApp.mkAudio 0 (Finite 30)) 30 (-1)) as (H1 & H2 & _).
  - reflexivity.
  - reflexivity.
  - intro H. discriminate H.
  - cbn. lia.
  - cbn. lia.
  - split; [exact H1 | exact H2].
Defined.

(** Against C5 as worded: [goToScene (-6)] on a five-scene board does not
    land on scene 4, the residue of -6 modulo 5, but on index -1. *)
Lemma goToScene_wrap_counterexample :
  let sought := AudioApp.goToScene (-6) (Samples.audioBoard 5 30 6 0 0 false) in
  AudioApp.sceneTotal (Samples.audioBoard 5 30 6 0 0 false) = 5
  /\ (-6) mod 5 = 4
  /\ AudioApp.currentSceneIndex sought = -1.
Proof. cbv zeta. repeat split. Qed.

(** Against C2 as worded: on a playing three-scene audio board with its
    per-scene duration known, next moves to scene 1 and playback is still
    on. *)
Lemma navigation_keeps_playing_counterexample :
  let before := Samples.audioBoard 3 30 10 0 0 true in
  AudioApp.sceneTotal before = 3
  /\ AudioApp.isPlaying before = true
  /\ AudioApp.currentSceneIndex (AudioApp.nextScene before) = 1
  /\ AudioApp.isPlaying (AudioApp.nextScene before) = true.
Proof. cbv zeta. repeat split. Qed.

Lemma navigation_wraps_witness :
  (TopicApp.currentSceneIndex (TopicApp.nextScene (Samples.topicBoard 3 2 true))
   = (2 + 1 + 3) mod 3
   /\ TopicApp.currentSceneIndex (TopicApp.prevScene (Samples.topicBoard 3 2 true))
      = (2 - 1 + 3) mod 3)
  /\ AudioApp.currentSceneIndex
       (AudioApp.prevScene (Samples.audioBoard 3 30 10 0 0 true))
     = (0 - 1 + 3) mod 3
  /\ AudioApp.nextScene
       (AudioApp.setAudioUrl None AudioApp.initialState)
     = AudioApp.setAudioUrl None AudioApp.initialState.
Proof.
  split; [| split].
  - apply (proj1 (proj2 navigation_wraps) (Samples.topicBoard 3 2 true));
      cbn; lia.
  - apply (proj1 (proj2 (proj2 navigation_wraps))
             (Samples.audioBoard 3 30 10 0 0 true)
             (AudioApp.mkAudio 0 (Finite 30))).
    + reflexivity.
    + intro H. discriminate H.
    + cbn. lia.
    + cbn. lia.
  - apply (proj2 (proj2 (proj2 navigation_wraps))
             (AudioApp.setAudioUrl None AudioApp.initialState)).
    reflexivity.
Defined.

Lemma utterance_chaining_witness :
  TopicApp.currentSceneIndex
    (TopicApp.utterance_onend
       (TopicApp.mkUtterance (VStr "a line") 0 3) (Samples.topicBoard 3 0 true))
  = 0 + 1
  /\ TopicApp.isPlaying
       (TopicApp.utterance_onend
          (TopicApp.mkUtterance (VStr "a line") 2 3) (Samples.topicBoard 3 2 true))
     = false.
Proof.
  split.
  - destruct (utterance_chaining (Samples.topicBoard 3 0 true)
                (TopicApp.mkUtterance (VStr "a line") 0 3) eq_refl)
      as (Hnext & _).
    apply Hnext. cbn. lia.
  - destruct (utterance_chaining (Samples.topicBoard 3 2 true)
                (TopicApp.mkUtterance (VStr "a line") 2 3) eq_refl)
      as (_ & Hlast & _).
    apply Hlast. reflexivity.
Defined.

(** ** Rejected input *)

(** C7, as the code has it.  A blank topic, a file of the wrong type (or
    no file) and a missing upload are turned down on the spot: the message
    is set, no request goes out, and scenes, index, playback flag and
    loading flag are as before (a wrong file also clears the file held).
    A script file without a non-blank line is turned down only after the
    run has begun: the message is set and loading ends false, but the
    scenes are gone, the index is 0, playback is off and the audio URL is
    dropped. *)
Theorem invalid_input_rejection :
  (forall (parse : string -> exn + value) (api : Api) (st : TopicApp.State),
      trim (TopicApp.topic st) = "" ->
      TopicApp.handleGenerate parse api st
      = (TopicApp.setError (Some TopicApp.emptyTopicMessage) st, [])
      /\ topicBoardKept st (fst (TopicApp.handleGenerate parse api st)))
  /\ (forall (file : option AudioApp.File) (st : AudioApp.State),
        (forall f, file = Some f -> AudioApp.type f <> "text/plain") ->
        AudioApp.handleScriptFileChange file st
        = st |> AudioApp.setScriptFile None
             |> AudioApp.setError (Some AudioApp.badScriptFileMessage)
        /\ audioBoardKept st (AudioApp.handleScriptFileChange file st))
  /\ (forall (file : option AudioApp.File) (st : AudioApp.State),
        (forall f, file = Some f -> startsWith (AudioApp.type f) "audio/" = false) ->
        AudioApp.handleAudioFileChange file st
        = st |> AudioApp.setAudioFile None
             |> AudioApp.setError (Some AudioApp.badAudioFileMessage)
        /\ audioBoardKept st (AudioApp.handleAudioFileChange file st))
  /\ (forall (env : AudioApp.Env) (st : AudioApp.State),
        AudioApp.scriptFile st = None \/ AudioApp.audioFile st = None ->
        AudioApp.handleCreateStoryboard env st
        = (AudioApp.setError (Some AudioApp.missingFilesMessage) st, [])
        /\ audioBoardKept st (fst (AudioApp.handleCreateStoryboard env st)))
  /\ (forall (env : AudioApp.Env) (st : AudioApp.State)
             (script audio : AudioApp.File),
        AudioApp.scriptFile st = Some script ->
        AudioApp.audioFile st = Some audio ->
        AudioApp.scriptLinesOf (AudioApp.content script) = [] ->
        let after := fst (AudioApp.handleCreateStoryboard env st) in
        snd (AudioApp.handleCreateStoryboard env st) = []
        /\ AudioApp.error after = Some AudioApp.emptyScriptMessage
        /\ AudioApp.isLoading after = false
        /\ AudioApp.scenes after = []
        /\ AudioApp.currentSceneIndex after = 0
        /\ AudioApp.isPlaying after = false
        /\ AudioApp.audioUrl after = None).
Proof.
  split; [| split; [| split; [| split]]].
  - intros parse api st Ht. unfold TopicApp.handleGenerate. rewrite Ht.
    cbn. repeat split.
  - intros file st Hf. unfold AudioApp.handleScriptFileChange.
    destruct file as [f |].
    + destruct (String.eqb_spec (AudioApp.type f) "text/plain") as [E | E].
      * exfalso. exact (Hf f eq_refl E).
      * repeat split.
    + repeat split.
  - intros file st Hf. unfold AudioApp.handleAudioFileChange.
    destruct file as [f |].
    + rewrite (Hf f eq_refl). repeat split.
    + repeat split.
  - intros env st Hm. unfold AudioApp.handleCreateStoryboard.
    destruct Hm as [Hm | Hm]; rewrite Hm.
    + repeat split.
    + destruct (AudioApp.scriptFile st); repeat split.
  - intros env st script audio Hs Ha Hl after. subst after.
    unfold AudioApp.handleCreateStoryboard. rewrite Hs, Ha, Hl.
    cbn. repeat split.
Qed.

Lemma invalid_input_rejection_witness :
  TopicApp.handleGenerate Samples.parse (Samples.apiOf None (fun _ => true))
    (TopicApp.setTopic " 　 " (Samples.topicBoard 3 1 true))
  = (TopicApp.setError (Some TopicApp.emptyTopicMessage)
       (TopicApp.setTopic " 　 " (Samples.topicBoard 3 1 true)), [])
  /\ AudioApp.error
       (AudioApp.handleScriptFileChange (Some Samples.narration)
          (Samples.audioBoard 2 30 15 0 1 true))
     = Some AudioApp.badScriptFileMessage
  /\ AudioApp.scenes
       (fst (AudioApp.handleCreateStoryboard
               (Samples.envOf (fun _ => true) (fun _ => true))
               Samples.blankScriptBoard))
     = [].
Proof.
  split; [| split].
  - apply (proj1 invalid_input_rejection). reflexivity.
  - destruct (proj1 (proj2 invalid_input_rejection) (Some Samples.narration)
                (Samples.audioBoard 2 30 15 0 1 true)) as [H _].
    + intros f Hf. injection Hf as <-. discriminate.
    + rewrite H. reflexivity.
  - apply (proj2 (proj2 (proj2 (proj2 invalid_input_rejection)))
             (Samples.envOf (fun _ => true) (fun _ => true))
             Samples.blankScriptBoard
             (Samples.scriptOf
                (GeminiService.newline ++ "  " ++ GeminiService.newline))
             Samples.narration); reflexivity.
Defined.

(** Against C7 as worded: on a playing two-scene board positioned at scene
    1, creating a storyboard from a script file of blank lines sets the
    message, and the scenes, the index and the playback flag are not what
    they were. *)
Lemma empty_script_counterexample :
  let before := Samples.blankScriptBoard in
  let after :=
    fst (AudioApp.handleCreateStoryboard
           (Samples.envOf (fun _ => true) (fun _ => true)) before) in
  AudioApp.error after = Some AudioApp.emptyScriptMessage
  /\ length (AudioApp.scenes before) = 2%nat
  /\ AudioApp.scenes after = []
  /\ AudioApp.currentSceneIndex before = 1
  /\ AudioApp.currentSceneIndex after = 0
  /\ AudioApp.isPlaying before = true
  /\ AudioApp.isPlaying after = false.
Proof. cbv zeta. repeat split. Qed.

(** ** The generation pipeline *)

Lemma generateImage_resume_cases (outcome : exn + GenerateImagesResponse) :
  generateImage_resume outcome = inl (JsError imageFailure)
  \/ exists url, generateImage_resume outcome = inr url.
Proof.
  unfold generateImage_resume.
  destruct outcome as [e | response]; cbn; [now left |].
  destruct (generatedImages response) as [[| first rest] |]; try (now left).
  destruct (image first) as [img |]; [| now left].
  right. eexists. reflexivity.
Qed.

Lemma generateImage_failure (api : Api) (calls : nat) (prompt : value) (err : exn) :
  generateImage api calls prompt = inl err -> err = JsError imageFailure.
Proof.
  unfold generateImage. intros H.
  destruct (generateImage_resume_cases
              (models_generateImages api calls (imagePromptText prompt)))
    as [E | [url E]]; congruence.
Qed.

Lemma patchRange_empty (urlAt : Z -> option string) (i : Z) (prev : list Scene) :
  patchRange urlAt i i prev = prev.
Proof.
  unfold patchRange. rewrite <- (map_id prev) at 2. apply map_ext.
  intros s. destruct (Z.leb_spec i (id s)), (Z.ltb_spec (id s) i);
    cbn; try reflexivity. lia.
Qed.

Lemma patchRange_step (urlAt : Z -> option string) (i k : Z) (u : string)
    (prev : list Scene) :
  urlAt i = Some u -> i + 1 <= k ->
  patchRange urlAt (i + 1) k (patchImage i u prev) = patchRange urlAt i k prev.
Proof.
  intros Hu Hk. unfold patchRange, patchImage. rewrite map_map.
  apply map_ext. intros s.
  destruct (Z.eqb_spec (id s) i) as [E | E].
  - cbn [withImageUrl id]. rewrite E, Hu.
    destruct (Z.leb_spec (i + 1) i); [lia |].
    destruct (Z.leb_spec i i); [| lia].
    destruct (Z.ltb_spec i k); [| lia]. reflexivity.
  - destruct (Z.leb_spec (i + 1) (id s)), (Z.leb_spec i (id s));
      try lia; reflexivity.
Qed.

Lemma length_patchRange (urlAt : Z -> option string) (i k : Z) (prev : list Scene) :
  length (patchRange urlAt i k prev) = length prev.
Proof. apply length_map. Qed.

Lemma nth_error_patchRange (urlAt : Z -> option string) (upto : Z)
    (l : list Scene) (j : nat) :
  idsFrom 0 l ->
  nth_error (patchRange urlAt 0 upto l) j
  = option_map (fun s => if Z.of_nat j <? upto
                         then withImageUrl (urlAt (Z.of_nat j)) s else s)
      (nth_error l j).
Proof.
  intros Hid. unfold patchRange. rewrite nth_error_map.
  destruct (nth_error l j) as [s |] eqn:Hs; [| reflexivity].
  cbn. rewrite (Hid j s Hs), Z.add_0_l.
  destruct (Z.leb_spec 0 (Z.of_nat j)); [reflexivity | lia].
Qed.

Section TopicPipeline.

Variable api : Api.
Variable init : list Scene.

Lemma imageRun_from (remaining : nat) :
  forall i : Z, i <= fst (fst (imageRun api init remaining i)).
Proof.
  induction remaining as [| r IH]; intros i; cbn; [lia |].
  destruct (at_ init i) as [scene |]; cbn; [| lia].
  destruct (generateImage api (Z.to_nat i) (imagePrompt scene)); cbn; [lia |].
  specialize (IH (i + 1)).
  destruct (imageRun api init r (i + 1)) as [[k e] reqs]. cbn in *. lia.
Qed.

Ltac topic_fields :=
  unfold topicFinish, TopicApp.handleGenerate_fail,
    TopicApp.handleGenerate_catch, TopicApp.handleGenerate_finally,
    TopicApp.setScenes, TopicApp.setIsLoading, TopicApp.setLoadingMessage,
    TopicApp.setError;
  cbn -[patchRange patchImage].

Lemma imageLoop_closed (remaining : nat) :
  forall (i : Z) (st : TopicApp.State) (log : list request),
    TopicApp.imageLoop api init remaining i st log
    = let '(k, e, reqs) := imageRun api init remaining i in
      (topicFinish e
         (st |> TopicApp.setScenes (patchRange (topicUrlAt api init) i k)),
       (log ++ reqs)%list).
Proof.
  induction remaining as [| r IH]; intros i st log.
  - cbn [TopicApp.imageLoop imageRun]. topic_fields.
    rewrite patchRange_empty, app_nil_r. reflexivity.
  - cbn [TopicApp.imageLoop imageRun].
    destruct (at_ init i) as [scene |] eqn:Hat.
    + destruct (generateImage api (Z.to_nat i) (imagePrompt scene))
        as [err | u] eqn:Hg.
      * topic_fields. rewrite patchRange_empty. reflexivity.
      * rewrite IH. pose proof (imageRun_from r (i + 1)) as Hk.
        destruct (imageRun api init r (i + 1)) as [[k e] reqs]. cbn in Hk.
        rewrite <- app_assoc. cbn [app]. f_equal.
        assert (Hu : topicUrlAt api init i = Some u).
        { unfold topicUrlAt, topicImageAt. rewrite Hat. cbn. now rewrite Hg. }
        destruct e; topic_fields;
          rewrite (patchRange_step (topicUrlAt api init) i k u) by assumption;
          reflexivity.
    + topic_fields. rewrite patchRange_empty, app_nil_r. reflexivity.
Qed.

(** The loop stops at the first image call that fails. *)
Lemma imageRun_stops (remaining : nat) :
  forall (i f : Z) (err : exn),
    0 <= i <= f -> f < i + Z.of_nat remaining ->
    (forall j, i <= j < f -> exists u, topicImageAt api init j = Some (inr u)) ->
    topicImageAt api init f = Some (inl err) ->
    exists reqs,
      imageRun api init remaining i = (f, Some err, reqs)
      /\ Z.of_nat (length reqs) = f - i + 1.
Proof.
  induction remaining as [| r IH]; intros i f err Hi Hf Hok Hfail; [lia |].
  cbn [imageRun].
  destruct (Z.eq_dec i f) as [-> | Hne].
  - unfold topicImageAt in Hfail.
    destruct (at_ init f) as [scene |]; [| discriminate].
    cbn in Hfail. injection Hfail as Hfail. rewrite Hfail.
    eexists. split; [reflexivity | cbn; lia].
  - destruct (Hok i) as [u Hu]; [lia |].
    unfold topicImageAt in Hu.
    destruct (at_ init i) as [scene |]; [| discriminate].
    cbn in Hu. injection Hu as Hu. rewrite Hu.
    destruct (IH (i + 1) f err) as (reqs & Hrun & Hlen); try lia; auto.
    { intros j Hj. apply Hok. lia. }
    rewrite Hrun. eexists. split; [reflexivity |].
    cbn [length]. lia.
Qed.

(** With every image call answered, the loop runs to the end. *)
Lemma imageRun_completes (remaining : nat) :
  forall i : Z,
    0 <= i ->
    (forall j, i <= j < i + Z.of_nat remaining ->
               exists u, topicImageAt api init j = Some (inr u)) ->
    exists reqs,
      imageRun api init remaining i = (i + Z.of_nat remaining, None, reqs)
      /\ length reqs = remaining.
Proof.
  induction remaining as [| r IH]; intros i Hi Hok.
  - exists []. cbn. split; [do 2 f_equal; lia | reflexivity].
  - cbn [imageRun].
    destruct (Hok i) as [u Hu]; [lia |].
    unfold topicImageAt in Hu.
    destruct (at_ init i) as [scene |]; [| discriminate].
    cbn in Hu. injection Hu as Hu. rewrite Hu.
    destruct (IH (i + 1)) as (reqs & Hrun & Hlen); [lia | |].
    { intros j Hj. apply Hok. lia. }
    rewrite Hrun. eexists. split; [do 2 f_equal; lia | cbn; now rewrite Hlen].
Qed.

End TopicPipeline.

Lemma scenesOfEntries_shape (items : list value) :
  forall (k : Z) (init : list Scene),
    TopicApp.scenesOfEntries k items = inr init ->
    length init = length items
    /\ idsFrom k init
    /\ (forall s, In s init -> imageUrl s = None).
Proof.
  induction items as [| e rest IH]; intros k init H; cbn in H.
  - injection H as <-. repeat split; try easy.
    intros j s Hj. destruct j; discriminate.
  - unfold TopicApp.sceneOfEntry, bind in H.
    destruct (getProp e "image_prompt") as [? | p]; [discriminate |].
    destruct (getProp e "narrator_script") as [? | n]; [discriminate |].
    destruct (TopicApp.scenesOfEntries (k + 1) rest) as [? | more] eqn:Hm;
      [discriminate |].
    injection H as <-.
    destruct (IH (k + 1) more Hm) as (Hl & Hi & Hu).
    split; [cbn; now rewrite Hl | split].
    + intros j s Hj. destruct j as [| j]; cbn in Hj.
      * injection Hj as <-. cbn. lia.
      * rewrite (Hi j s Hj). lia.
    + intros s [<- | Hin]; [reflexivity | now apply Hu].
Qed.

Lemma scenesOfEntries_total (items : list value) :
  Forall (fun e => nullish e = false) items ->
  forall k : Z, exists init, TopicApp.scenesOfEntries k items = inr init.
Proof.
  induction 1 as [| e rest He _ IH]; intros k; cbn.
  - now exists [].
  - destruct (IH (k + 1)) as [more Hm]. rewrite Hm.
    unfold TopicApp.sceneOfEntry.
    destruct e; try discriminate; cbn; eexists; reflexivity.
Qed.

Lemma scenesOfEntries_nullish (items : list value) :
  Exists (fun e => nullish e = true) items ->
  forall k : Z, exists m, TopicApp.scenesOfEntries k items = inl (JsError m).
Proof.
  induction 1 as [e rest He | e rest _ IH]; intros k; cbn.
  - destruct e; try discriminate; cbn; eexists; reflexivity.
  - destruct (IH (k + 1)) as [m Hm]. rewrite Hm.
    unfold TopicApp.sceneOfEntry.
    destruct e; cbn; eexists; reflexivity.
Qed.

Lemma initialScenesOf_shape (scriptData : value) (init : list Scene) :
  TopicApp.initialScenesOf scriptData = inr init ->
  idsFrom 0 init /\ (forall s, In s init -> imageUrl s = None).
Proof.
  unfold TopicApp.initialScenesOf, bind.
  destruct (getProp scriptData "scenes") as [? | entries]; [discriminate |].
  destruct entries; try discriminate.
  intros H. now destruct (scenesOfEntries_shape _ _ _ H) as (_ & Hi & Hu).
Qed.

(** [handleGenerate] once the script has come: the loop's stopping point
    decides the rest. *)
Lemma handleGenerate_scripted (parse : string -> exn + value) (api : Api)
    (st : TopicApp.State) (scriptData : value) (init : list Scene) :
  trim (TopicApp.topic st) <> "" ->
  generateScript parse api (TopicApp.topic st) (TopicApp.sceneCount st)
    = inr scriptData ->
  TopicApp.initialScenesOf scriptData = inr init ->
  TopicApp.handleGenerate parse api st
  = let '(k, e, reqs) := imageRun api init (length init) 0 in
    (topicFinish e
       (TopicApp.handleGenerate_begin st
          |> TopicApp.setScenes
               (fun _ => patchRange (topicUrlAt api init) 0 k init)),
     generateScript_request (TopicApp.topic st) (TopicApp.sceneCount st) :: reqs).
Proof.
  intros Ht Hs Hi. unfold TopicApp.handleGenerate.
  destruct (String.eqb_spec (trim (TopicApp.topic st)) ""); [contradiction |].
  change (TopicApp.topic (TopicApp.handleGenerate_begin st))
    with (TopicApp.topic st).
  change (TopicApp.sceneCount (TopicApp.handleGenerate_begin st))
    with (TopicApp.sceneCount st).
  rewrite Hs, Hi, imageLoop_closed.
  destruct (imageRun api init (length init) 0) as [[k e] reqs].
  reflexivity.
Qed.

Lemma handleGenerate_unscripted (parse : string -> exn + value) (api : Api)
    (st : TopicApp.State) (err : exn) :
  trim (TopicApp.topic st) <> "" ->
  generateScript parse api (TopicApp.topic st) (TopicApp.sceneCount st)
    = inl err ->
  TopicApp.handleGenerate parse api st
  = (TopicApp.handleGenerate_fail (JsError scriptFailure)
       (TopicApp.handleGenerate_begin st),
     [generateScript_request (TopicApp.topic st) (TopicApp.sceneCount st)]).
Proof.
  intros Ht Hs. unfold TopicApp.handleGenerate.
  destruct (String.eqb_spec (trim (TopicApp.topic st)) ""); [contradiction |].
  change (TopicApp.topic (TopicApp.handleGenerate_begin st))
    with (TopicApp.topic st).
  change (TopicApp.sceneCount (TopicApp.handleGenerate_begin st))
    with (TopicApp.sceneCount st).
  rewrite Hs.
  pose proof (generateScript_failure parse api _ _ err Hs) as ->.
  reflexivity.
Qed.

(** C1, as the code has it: in topic mode, once [generateScript] returns a
    response whose [scenes] array has m entries, none of them [null],
    [handleGenerate] ends with exactly m scenes, whatever [sceneCount] was
    and however the image calls fare; so k scenes for k entries.  When
    [generateScript] fails, the message is surfaced and there are 0 scenes;
    likewise, with some message, when an entry is [null]. *)
Theorem topic_scene_count (parse : string -> exn + value) (api : Api)
    (st : TopicApp.State) :
  trim (TopicApp.topic st) <> "" ->
  let result :=
    generateScript parse api (TopicApp.topic st) (TopicApp.sceneCount st) in
  let after := fst (TopicApp.handleGenerate parse api st) in
  (forall scriptData items,
      result = inr scriptData ->
      getProp scriptData "scenes" = inr (VArr items) ->
      Forall (fun e => nullish e = false) items ->
      length (TopicApp.scenes after) = length items)
  /\ (forall err,
        result = inl err ->
        TopicApp.scenes after = []
        /\ TopicApp.error after = Some scriptFailure)
  /\ (forall scriptData items,
        result = inr scriptData ->
        getProp scriptData "scenes" = inr (VArr items) ->
        Exists (fun e => nullish e = true) items ->
        TopicApp.scenes after = []
        /\ exists m, TopicApp.error after = Some m).
Proof.
  intros Ht result after. subst result after. split; [| split].
  - intros scriptData items Hs Hp Hok.
    destruct (scenesOfEntries_total items Hok 0) as [init Hinit].
    assert (Hi : TopicApp.initialScenesOf scriptData = inr init).
    { unfold TopicApp.initialScenesOf. rewrite Hp. exact Hinit. }
    rewrite (handleGenerate_scripted parse api st scriptData init Ht Hs Hi).
    destruct (scenesOfEntries_shape _ _ _ Hinit) as (Hl & _).
    destruct (imageRun api init (length init) 0) as [[k e] reqs].
    rewrite <- Hl. destruct e; cbn; apply length_patchRange.
  - intros err Hs.
    rewrite (handleGenerate_unscripted parse api st err Ht Hs).
    split; reflexivity.
  - intros scriptData items Hs Hp Hnull.
    destruct (scenesOfEntries_nullish items Hnull 0) as [m Hm].
    unfold TopicApp.handleGenerate.
    destruct (String.eqb_spec (trim (TopicApp.topic st)) ""); [contradiction |].
    change (TopicApp.topic (TopicApp.handleGenerate_begin st))
      with (TopicApp.topic st).
    change (TopicApp.sceneCount (TopicApp.handleGenerate_begin st))
      with (TopicApp.sceneCount st).
    rewrite Hs. unfold TopicApp.initialScenesOf. rewrite Hp. cbn [bind].
    rewrite Hm. split; [reflexivity | now exists m].
Qed.

Lemma topic_scene_count_witness :
  length
    (TopicApp.scenes
       (fst (TopicApp.handleGenerate Samples.parse
               (Samples.apiOf (Some (Samples.scriptJson Samples.fourEntries))
                  (fun n => (n <? 2)%nat))
               (Samples.topicBoard 0 0 false))))
  = length (map Samples.entryValue Samples.fourEntries).
Proof.
  apply (proj1 (topic_scene_count Samples.parse
                  (Samples.apiOf (Some (Samples.scriptJson Samples.fourEntries))
                     (fun n => (n <? 2)%nat))
                  (Samples.topicBoard 0 0 false)
                  ltac:(discriminate))
           (Samples.scriptValue Samples.fourEntries)).
  - reflexivity.
  - reflexivity.
  - repeat constructor.
Defined.

(** Against C1 as worded: three scenes are asked for, the script call
    succeeds with two entries, and the run ends with two scenes and no
    error message. *)
Lemma short_script_counterexample :
  let st := TopicApp.setSceneCount 3 (Samples.topicBoard 0 0 false) in
  let api :=
    Samples.apiOf (Some (Samples.scriptJson Samples.twoEntries)) (fun _ => true) in
  let after := fst (TopicApp.handleGenerate Samples.parse api st) in
  TopicApp.sceneCount st = 3
  /\ generateScript Samples.parse api (TopicApp.topic st) (TopicApp.sceneCount st)
     = inr (Samples.scriptValue Samples.twoEntries)
  /\ length (TopicApp.scenes after) = 2%nat
  /\ TopicApp.error after = None.
Proof. cbv zeta. repeat split. Qed.

Lemma written_none (promptAt : Z -> value) (urlAt : Z -> option string)
    (i : Z) (prev : list Scene) :
  written promptAt urlAt i i false prev = prev.
Proof.
  unfold written. rewrite <- (map_id prev) at 2. apply map_ext.
  intros s. destruct (Z.leb_spec i (id s)), (Z.ltb_spec (id s) i);
    cbn; try reflexivity. lia.
Qed.

Lemma written_half (promptAt : Z -> value) (urlAt : Z -> option string)
    (i : Z) (p : string) (prev : list Scene) :
  promptAt i = VStr p ->
  written promptAt urlAt i i true prev = AudioApp.patchPrompt i p prev.
Proof.
  intros Hp. unfold written, AudioApp.patchPrompt. apply map_ext.
  intros s. rewrite Hp.
  destruct (Z.leb_spec i (id s)), (Z.ltb_spec (id s) i);
    cbn; try reflexivity. lia.
Qed.

Lemma written_step (promptAt : Z -> value) (urlAt : Z -> option string)
    (i k : Z) (half : bool) (p u : string) (prev : list Scene) :
  promptAt i = VStr p -> urlAt i = Some u -> i + 1 <= k ->
  written promptAt urlAt (i + 1) k half
    (patchImage i u (AudioApp.patchPrompt i p prev))
  = written promptAt urlAt i k half prev.
Proof.
  intros Hp Hu Hk. unfold written, patchImage, AudioApp.patchPrompt.
  rewrite !map_map. apply map_ext. intros [sid sp sn su].
  cbn [id]. destruct (Z.eqb_spec sid i) as [-> | E].
  - cbn [withImagePrompt withImageUrl id imagePrompt narratorScript imageUrl].
    rewrite Z.eqb_refl.
    cbn [withImagePrompt withImageUrl id imagePrompt narratorScript imageUrl].
    rewrite Hp, Hu.
    destruct (Z.leb_spec (i + 1) i); [lia |].
    destruct (Z.leb_spec i i); [| lia].
    destruct (Z.ltb_spec i k); [| lia].
    destruct (Z.eqb_spec i k); [lia |].
    now rewrite andb_false_r.
  - cbn [id]. destruct (Z.eqb_spec sid i); [contradiction |].
    cbn [id].
    destruct (Z.leb_spec (i + 1) sid), (Z.leb_spec i sid);
      try lia; reflexivity.
Qed.

Lemma nth_error_written (promptAt : Z -> value) (urlAt : Z -> option string)
    (upto : Z) (half : bool) (l : list Scene) (j : nat) :
  idsFrom 0 l ->
  nth_error (written promptAt urlAt 0 upto half l) j
  = option_map
      (fun s =>
         if Z.of_nat j <? upto
         then withImageUrl (urlAt (Z.of_nat j))
                (withImagePrompt (promptAt (Z.of_nat j)) s)
         else if half && (Z.of_nat j =? upto)
              then withImagePrompt (promptAt upto) s
              else s)
      (nth_error l j).
Proof.
  intros Hid. unfold written. rewrite nth_error_map.
  destruct (nth_error l j) as [s |] eqn:Hs; [| reflexivity].
  cbn. rewrite (Hid j s Hs), Z.add_0_l.
  destruct (Z.leb_spec 0 (Z.of_nat j)); [reflexivity | lia].
Qed.

Section AudioPipeline.

Variable env : AudioApp.Env.
Variable init : list Scene.

Lemma sceneRun_from (remaining : nat) :
  forall i : Z, i <= fst (fst (sceneRun env init remaining i)).
Proof.
  induction remaining as [| r IH]; intros i; cbn; [lia |].
  destruct (at_ init i) as [scene |]; cbn; [| lia].
  destruct (AudioApp.generateImagePromptForScript env (Z.to_nat i)
              (narratorScript scene)) as [? | p]; cbn; [lia |].
  destruct (generateImage (AudioApp.api env) (Z.to_nat i) (VStr p)); cbn; [lia |].
  specialize (IH (i + 1)).
  destruct (sceneRun env init r (i + 1)) as [[k e] calls]. cbn in *. lia.
Qed.

Lemma audioFinish_message (e : loopEnd) (m : string) (st : AudioApp.State) :
  audioFinish e (AudioApp.setLoadingMessage m st) = audioFinish e st.
Proof. destruct e; reflexivity. Qed.

Lemma audio_setScenes_message (f : list Scene -> list Scene) (m : string)
    (st : AudioApp.State) :
  AudioApp.setScenes f (AudioApp.setLoadingMessage m st)
  = AudioApp.setLoadingMessage m (AudioApp.setScenes f st).
Proof. reflexivity. Qed.

Lemma audio_setScenes_twice (f g : list Scene -> list Scene)
    (st : AudioApp.State) :
  AudioApp.setScenes g (AudioApp.setScenes f st)
  = AudioApp.setScenes (fun prev => g (f prev)) st.
Proof. reflexivity. Qed.

Lemma audio_setScenes_ext (f g : list Scene -> list Scene)
    (st : AudioApp.State) :
  f (AudioApp.scenes st) = g (AudioApp.scenes st) ->
  AudioApp.setScenes f st = AudioApp.setScenes g st.
Proof. unfold AudioApp.setScenes. now intros ->. Qed.

Lemma audio_setScenes_same (f : list Scene -> list Scene) (st : AudioApp.State) :
  f (AudioApp.scenes st) = AudioApp.scenes st ->
  AudioApp.setScenes f st = st.
Proof. unfold AudioApp.setScenes. intros ->. now destruct st. Qed.

Lemma audio_fail_message (err : exn) (m : string) (st : AudioApp.State) :
  AudioApp.handleCreateStoryboard_fail err (AudioApp.setLoadingMessage m st)
  = AudioApp.handleCreateStoryboard_fail err st.
Proof. reflexivity. Qed.

Lemma sceneLoop_closed (remaining : nat) :
  forall (i : Z) (st : AudioApp.State) (log : list AudioApp.call),
    AudioApp.sceneLoop env init remaining i st log
    = let '(k, e, calls) := sceneRun env init remaining i in
      (audioFinish e
         (st |> AudioApp.setScenes
                  (written (audioPromptValue env init) (audioUrlAt env init) i k (promptWritten e))),
       (log ++ calls)%list).
Proof.
  induction remaining as [| r IH]; intros i st log.
  - cbn [AudioApp.sceneLoop sceneRun promptWritten audioFinish].
    rewrite app_nil_r, audio_setScenes_same by apply written_none.
    reflexivity.
  - cbn [AudioApp.sceneLoop sceneRun].
    destruct (at_ init i) as [scene |] eqn:Hat.
    + destruct (AudioApp.generateImagePromptForScript env (Z.to_nat i)
                  (narratorScript scene)) as [err | p] eqn:Hp.
      * cbn [promptWritten audioFinish].
        rewrite audio_setScenes_same by apply written_none.
        now rewrite audio_fail_message.
      * assert (Hpv : audioPromptValue env init i = VStr p).
        { unfold audioPromptValue, audioPromptAt. rewrite Hat.
          cbn [option_map]. now rewrite Hp. }
        destruct (generateImage (AudioApp.api env) (Z.to_nat i) (VStr p))
          as [err | u] eqn:Hg.
        -- cbn [promptWritten audioFinish]. rewrite <- app_assoc. cbn [app].
           rewrite audio_fail_message, audio_setScenes_message,
             audio_fail_message.
           apply (f_equal2 pair); [| reflexivity].
           apply (f_equal (AudioApp.handleCreateStoryboard_fail err)).
           apply audio_setScenes_ext. symmetry. now apply written_half.
        -- rewrite IH. pose proof (sceneRun_from r (i + 1)) as Hk.
           destruct (sceneRun env init r (i + 1)) as [[k e] calls].
           cbn [fst] in Hk.
           rewrite <- !app_assoc. cbn [app].
           apply (f_equal2 pair); [| reflexivity].
           assert (Hu : audioUrlAt env init i = Some u).
           { unfold audioUrlAt, audioImageAt, audioPromptAt. rewrite Hat.
             cbn [option_map]. rewrite Hp. now rewrite Hg. }
           rewrite !audio_setScenes_twice, audio_setScenes_message,
             audioFinish_message.
           rewrite !audio_setScenes_twice, audio_setScenes_message,
             audioFinish_message.
           apply (f_equal (audioFinish e)).
           apply audio_setScenes_ext.
           now apply written_step.
    + cbn [promptWritten audioFinish].
      rewrite app_nil_r, audio_setScenes_same by apply written_none.
      now rewrite audio_fail_message.
Qed.

(** The loop stops at the first call that fails, be it the prompt call or
    the image call of scene [f]. *)
Lemma sceneRun_stops (remaining : nat) :
  forall (i f : Z),
    0 <= i <= f -> f < i + Z.of_nat remaining ->
    (forall j, i <= j < f -> exists u, audioImageAt env init j = Some (inr u)) ->
    (forall err, audioPromptAt env init f = Some (inl err) ->
       exists calls,
         sceneRun env init remaining i = (f, PromptFailed err, calls)
         /\ Z.of_nat (length calls) = 2 * (f - i) + 1)
    /\ (forall err, audioImageAt env init f = Some (inl err) ->
          exists calls,
            sceneRun env init remaining i = (f, ImageFailed err, calls)
            /\ Z.of_nat (length calls) = 2 * (f - i) + 2).
Proof.
  induction remaining as [| r IH]; intros i f Hi Hf Hok; [lia |].
  cbn [sceneRun].
  destruct (Z.eq_dec i f) as [-> | Hne].
  - unfold audioImageAt, audioPromptAt.
    destruct (at_ init f) as [scene |]; cbn [option_map];
      [| split; intros err H; discriminate H].
    destruct (AudioApp.generateImagePromptForScript env (Z.to_nat f)
                (narratorScript scene)) as [e | p].
    + split; intros err H; [| discriminate H].
      injection H as <-. eexists. split; [reflexivity | cbn [length]; lia].
    + split; intros err H; [discriminate H |].
      injection H as H. rewrite H.
      eexists. split; [reflexivity | cbn [length]; lia].
  - destruct (Hok i) as [u Hu]; [lia |].
    unfold audioImageAt, audioPromptAt in Hu.
    destruct (at_ init i) as [scene |]; [| discriminate].
    cbn [option_map] in Hu.
    destruct (AudioApp.generateImagePromptForScript env (Z.to_nat i)
                (narratorScript scene)) as [e | p]; [discriminate |].
    injection Hu as Hu. rewrite Hu.
    destruct (IH (i + 1) f) as (Hprompt & Himage); try lia.
    { intros j Hj. apply Hok. lia. }
    split; intros err H.
    + destruct (Hprompt err H) as (calls & Hrun & Hlen).
      rewrite Hrun. eexists. split; [reflexivity | cbn [length]; lia].
    + destruct (Himage err H) as (calls & Hrun & Hlen).
      rewrite Hrun. eexists. split; [reflexivity | cbn [length]; lia].
Qed.

End AudioPipeline.

Lemma at_some_bound {A : Type} (xs : list A) (i : Z) (x : A) :
  at_ xs i = Some x -> 0 <= i < Z.of_nat (length xs).
Proof.
  unfold at_. destruct (Z.ltb_spec i 0) as [Hneg | Hpos]; [discriminate |].
  intros Hx. assert (Hlt : (Z.to_nat i < length xs)%nat).
  { apply nth_error_Some. congruence. }
  lia.
Qed.

(** The topic variant when the image call of scene [f] is the first call
    to fail. *)
Lemma topic_image_failure (parse : string -> exn + value) (api : Api)
    (st : TopicApp.State) (scriptData : value) (init : list Scene)
    (f : Z) (err : exn) :
  trim (TopicApp.topic st) <> "" ->
  generateScript parse api (TopicApp.topic st) (TopicApp.sceneCount st)
    = inr scriptData ->
  TopicApp.initialScenesOf scriptData = inr init ->
  (forall j, 0 <= j < f -> exists u, topicImageAt api init j = Some (inr u)) ->
  topicImageAt api init f = Some (inl err) ->
  let after := fst (TopicApp.handleGenerate parse api st) in
  Z.of_nat (length (snd (TopicApp.handleGenerate parse api st))) = 1 + (f + 1)
  /\ TopicApp.error after = Some imageFailure
  /\ TopicApp.isLoading after = false
  /\ length (TopicApp.scenes after) = length init
  /\ (forall j s, nth_error init j = Some s -> Z.of_nat j < f ->
        exists u, nth_error (TopicApp.scenes after) j
                  = Some (withImageUrl (Some u) s))
  /\ (forall j s, nth_error init j = Some s -> f <= Z.of_nat j ->
        nth_error (TopicApp.scenes after) j = Some s /\ imageUrl s = None).
Proof.
  intros Ht Hs Hi Hok Hfail after. subst after.
  destruct (initialScenesOf_shape scriptData init Hi) as (Hids & Hnone).
  assert (Hf : 0 <= f < Z.of_nat (length init)).
  { unfold topicImageAt in Hfail.
    destruct (at_ init f) as [s |] eqn:Hat; [| discriminate].
    exact (at_some_bound _ _ _ Hat). }
  assert (Herr : err = JsError imageFailure).
  { unfold topicImageAt in Hfail.
    destruct (at_ init f) as [s |]; [| discriminate].
    cbn in Hfail. injection Hfail as Hfail.
    exact (generateImage_failure _ _ _ _ Hfail). }
  rewrite (handleGenerate_scripted parse api st scriptData init Ht Hs Hi).
  destruct (imageRun_stops api init (length init) 0 f err) as (reqs & Hrun & Hlen);
    try lia; auto.
  rewrite Hrun, Herr. cbn [fst snd length topicFinish].
  repeat split.
  - lia.
  - cbn. apply length_patchRange.
  - intros j s Hj Hlt.
    destruct (Hok (Z.of_nat j)) as [u Hu]; [lia |].
    exists u. cbn. rewrite nth_error_patchRange by assumption.
    rewrite Hj. cbn.
    destruct (Z.ltb_spec (Z.of_nat j) f); [| lia].
    unfold topicUrlAt. now rewrite Hu.
  - cbn. rewrite nth_error_patchRange by assumption.
    rewrite H. cbn.
    destruct (Z.ltb_spec (Z.of_nat j) f); [lia | reflexivity].
  - apply Hnone. eapply nth_error_In; eassumption.
Qed.

(** The topic variant when every image call is answered: the run ends
    without a message and every scene carries its image. *)
Lemma topic_run_completes (parse : string -> exn + value) (api : Api)
    (st : TopicApp.State) (scriptData : value) (init : list Scene) :
  trim (TopicApp.topic st) <> "" ->
  generateScript parse api (TopicApp.topic st) (TopicApp.sceneCount st)
    = inr scriptData ->
  TopicApp.initialScenesOf scriptData = inr init ->
  (forall j, 0 <= j < Z.of_nat (length init) ->
             exists u, topicImageAt api init j = Some (inr u)) ->
  let after := fst (TopicApp.handleGenerate parse api st) in
  length (snd (TopicApp.handleGenerate parse api st)) = S (length init)
  /\ TopicApp.error after = None
  /\ TopicApp.isLoading after = false
  /\ (forall j s, nth_error init j = Some s ->
        exists u, nth_error (TopicApp.scenes after) j
                  = Some (withImageUrl (Some u) s)).
Proof.
  intros Ht Hs Hi Hok after. subst after.
  destruct (initialScenesOf_shape scriptData init Hi) as (Hids & _).
  rewrite (handleGenerate_scripted parse api st scriptData init Ht Hs Hi).
  destruct (imageRun_completes api init (length init) 0) as (reqs & Hrun & Hlen);
    [lia | exact Hok |].
  rewrite Hrun. cbn [fst snd length topicFinish].
  split; [now rewrite Hlen |].
  split; [reflexivity |].
  split; [reflexivity |].
  intros j s Hj.
  assert (Hlt : (j < length init)%nat) by (apply nth_error_Some; congruence).
  destruct (Hok (Z.of_nat j)) as [u Hu]; [lia |].
  exists u. cbn. rewrite nth_error_patchRange by assumption.
  rewrite Hj. cbn.
  match goal with
  | |- context [?a <? ?b] => destruct (Z.ltb_spec a b); [| lia]
  end.
  unfold topicUrlAt. now rewrite Hu.
Qed.

Lemma audio_initialScenes_ids (scriptLines : list string) :
  idsFrom 0 (AudioApp.initialScenesOf scriptLines)
  /\ (forall s, In s (AudioApp.initialScenesOf scriptLines) -> imageUrl s = None)
  /\ length (AudioApp.initialScenesOf scriptLines) = length scriptLines.
Proof.
  unfold AudioApp.initialScenesOf, mapIndex. split; [| split].
  - intros j s Hj. rewrite nth_error_mapIndexFrom in Hj.
    destruct (nth_error scriptLines j); [| discriminate].
    cbn in Hj. now injection Hj as <-.
  - intros s Hin. apply In_nth_error in Hin. destruct Hin as [j Hj].
    rewrite nth_error_mapIndexFrom in Hj.
    destruct (nth_error scriptLines j); [| discriminate].
    cbn in Hj. now injection Hj as <-.
  - apply length_mapIndexFrom.
Qed.

(** [handleCreateStoryboard] once the script has been read and has lines:
    the loop's stopping point decides the rest. *)
Lemma handleCreateStoryboard_started (env : AudioApp.Env) (st : AudioApp.State)
    (script audio : AudioApp.File) :
  AudioApp.scriptFile st = Some script ->
  AudioApp.audioFile st = Some audio ->
  AudioApp.scriptLinesOf (AudioApp.content script) <> [] ->
  let init :=
    AudioApp.initialScenesOf (AudioApp.scriptLinesOf (AudioApp.content script)) in
  AudioApp.handleCreateStoryboard env st
  = let '(k, e, calls) := sceneRun env init (length init) 0 in
    (audioFinish e
       (AudioApp.handleCreateStoryboard_begin st
          |> AudioApp.setAudioUrl (Some (AudioApp.createObjectURL env audio))
          |> AudioApp.setScenes
               (fun _ => written (audioPromptValue env init) (audioUrlAt env init)
                           0 k (promptWritten e) init)),
     calls).
Proof.
  intros Hs Ha Hl init. unfold AudioApp.handleCreateStoryboard.
  rewrite Hs, Ha.
  destruct (AudioApp.scriptLinesOf (AudioApp.content script)) as [| l ls] eqn:E;
    [contradiction |].
  change (Z.of_nat (length (l :: ls)) =? 0) with false. cbv iota.
  fold init. rewrite sceneLoop_closed.
  destruct (sceneRun env init (length init) 0) as [[k e] calls].
  reflexivity.
Qed.

(** The audio variant when a call for scene [f] is the first to fail. *)
Lemma audio_call_failure (env : AudioApp.Env) (st : AudioApp.State)
    (script audio : AudioApp.File) (f : Z) (err : exn) :
  AudioApp.scriptFile st = Some script ->
  AudioApp.audioFile st = Some audio ->
  let init :=
    AudioApp.initialScenesOf (AudioApp.scriptLinesOf (AudioApp.content script)) in
  (forall j, 0 <= j < f -> exists u, audioImageAt env init j = Some (inr u)) ->
  audioPromptAt env init f = Some (inl err)
  \/ audioImageAt env init f = Some (inl err) ->
  let after := fst (AudioApp.handleCreateStoryboard env st) in
  let calls := snd (AudioApp.handleCreateStoryboard env st) in
  2 * f + 1 <= Z.of_nat (length calls) <= 2 * f + 2
  /\ AudioApp.error after = Some (messageOr AudioApp.unknownErrorMessage err)
  /\ AudioApp.isLoading after = false
  /\ AudioApp.audioUrl after = None
  /\ length (AudioApp.scenes after) = length init
  /\ (forall j s, nth_error init j = Some s -> Z.of_nat j < f ->
        exists p u, nth_error (AudioApp.scenes after) j
                    = Some (withImageUrl (Some u) (withImagePrompt (VStr p) s)))
  /\ (forall j s, nth_error (AudioApp.scenes after) j = Some s ->
        f <= Z.of_nat j -> imageUrl s = None).
Proof.
  intros Hs Ha init Hok Hfail after calls. subst after calls.
  destruct (audio_initialScenes_ids
              (AudioApp.scriptLinesOf (AudioApp.content script)))
    as (Hids & Hnone & Hlen). fold init in Hids, Hnone, Hlen.
  assert (Hf : 0 <= f < Z.of_nat (length init)).
  { unfold audioImageAt, audioPromptAt in Hfail.
    destruct (at_ init f) as [s |] eqn:Hat; [exact (at_some_bound _ _ _ Hat) |].
    destruct Hfail; discriminate. }
  assert (Hlines : AudioApp.scriptLinesOf (AudioApp.content script) <> []).
  { intros E. rewrite E in Hlen. cbn in Hlen. lia. }
  rewrite (handleCreateStoryboard_started env st script audio Hs Ha Hlines).
  fold init.
  destruct (sceneRun_stops env init (length init) 0 f) as (Hprompt & Himage);
    try lia; auto.
  assert (Hrun : exists e calls,
             sceneRun env init (length init) 0 = (f, e, calls)
             /\ 2 * f + 1 <= Z.of_nat (length calls) <= 2 * f + 2
             /\ audioFinish e = AudioApp.handleCreateStoryboard_fail err).
  { destruct Hfail as [H | H].
    - destruct (Hprompt err H) as (cs & Hrun & Hl).
      exists (PromptFailed err), cs. repeat split; try assumption; lia.
    - destruct (Himage err H) as (cs & Hrun & Hl).
      exists (ImageFailed err), cs. repeat split; try assumption; lia. }
  destruct Hrun as (e & cs & Hrun & Hl & Hfin).
  rewrite Hrun, Hfin. cbn [fst snd].
  split; [exact Hl |].
  split; [reflexivity |].
  split; [reflexivity |].
  split; [reflexivity |].
  split; [cbn; apply length_map |].
  split.
  - intros j s Hj Hlt.
    destruct (Hok (Z.of_nat j)) as [u Hu]; [lia |].
    assert (Hp : exists p, audioPromptValue env init (Z.of_nat j) = VStr p).
    { unfold audioImageAt in Hu. unfold audioPromptValue.
      destruct (audioPromptAt env init (Z.of_nat j)) as [[? | p] |];
        try discriminate. now exists p. }
    destruct Hp as [p Hp]. exists p, u.
    cbn. rewrite nth_error_written by assumption. rewrite Hj. cbn.
    destruct (Z.ltb_spec (Z.of_nat j) f); [| lia].
    unfold audioUrlAt. now rewrite Hu, Hp.
  - intros j s Hj Hge. cbn in Hj.
    rewrite nth_error_written in Hj by assumption.
    destruct (nth_error init j) as [s0 |] eqn:Hj0; [| discriminate].
    cbn in Hj. injection Hj as <-.
    assert (Hn : imageUrl s0 = None).
    { apply Hnone. eapply nth_error_In; eassumption. }
    destruct (Z.ltb_spec (Z.of_nat j) f); [lia |].
    destruct (promptWritten e && (Z.of_nat j =? f)); exact Hn.
Qed.

(** C6: the first call to fail ends the run.  Topic variant, script call:
    nothing but the script request went out, the fixed message is set,
    loading is off and there are no scenes.  Topic variant, image call of
    scene [f]: the script request and [f + 1] image requests went out and
    none after; the image message is set, loading is off, scenes before [f]
    carry their image and scenes from [f] on are as created, without one.
    Audio variant, prompt or image call of scene [f]: no call follows the
    failing one, the thrown message is set, loading is off, the audio URL
    is dropped, scenes before [f] carry prompt and image, scenes from [f] on
    have no image.  And the run for topic "ocean" with four scenes whose
    third image call fails ends with scenes 0 and 1 carrying their image,
    scenes 2 and 3 without one, the message set and loading off. *)
Theorem pipeline_failure_policy :
  (forall (parse : string -> exn + value) (api : Api) (st : TopicApp.State)
          (err : exn),
      trim (TopicApp.topic st) <> "" ->
      generateScript parse api (TopicApp.topic st) (TopicApp.sceneCount st)
        = inl err ->
      let after := fst (TopicApp.handleGenerate parse api st) in
      snd (TopicApp.handleGenerate parse api st)
        = [generateScript_request (TopicApp.topic st) (TopicApp.sceneCount st)]
      /\ TopicApp.error after = Some scriptFailure
      /\ TopicApp.isLoading after = false
      /\ TopicApp.scenes after = [])
  /\ (forall (parse : string -> exn + value) (api : Api) (st : TopicApp.State)
             (scriptData : value) (init : list Scene) (f : Z) (err : exn),
        trim (TopicApp.topic st) <> "" ->
        generateScript parse api (TopicApp.topic st) (TopicApp.sceneCount st)
          = inr scriptData ->
        TopicApp.initialScenesOf scriptData = inr init ->
        (forall j, 0 <= j < f -> exists u, topicImageAt api init j = Some (inr u)) ->
        topicImageAt api init f = Some (inl err) ->
        let after := fst (TopicApp.handleGenerate parse api st) in
        Z.of_nat (length (snd (TopicApp.handleGenerate parse api st)))
          = 1 + (f + 1)
        /\ TopicApp.error after = Some imageFailure
        /\ TopicApp.isLoading after = false
        /\ length (TopicApp.scenes after) = length init
        /\ (forall j s, nth_error init j = Some s -> Z.of_nat j < f ->
              exists u, nth_error (TopicApp.scenes after) j
                        = Some (withImageUrl (Some u) s))
        /\ (forall j s, nth_error init j = Some s -> f <= Z.of_nat j ->
              nth_error (TopicApp.scenes after) j = Some s
              /\ imageUrl s = None))
  /\ (forall (env : AudioApp.Env) (st : AudioApp.State)
             (script audio : AudioApp.File) (f : Z) (err : exn),
        AudioApp.scriptFile st = Some script ->
        AudioApp.audioFile st = Some audio ->
        let init :=
          AudioApp.initialScenesOf
            (AudioApp.scriptLinesOf (AudioApp.content script)) in
        (forall j, 0 <= j < f -> exists u, audioImageAt env init j = Some (inr u)) ->
        audioPromptAt env init f = Some (inl err)
        \/ audioImageAt env init f = Some (inl err) ->
        let after := fst (AudioApp.handleCreateStoryboard env st) in
        let calls := snd (AudioApp.handleCreateStoryboard env st) in
        2 * f + 1 <= Z.of_nat (length calls) <= 2 * f + 2
        /\ AudioApp.error after
           = Some (messageOr AudioApp.unknownErrorMessage err)
        /\ AudioApp.isLoading after = false
        /\ AudioApp.audioUrl after = None
        /\ length (AudioApp.scenes after) = length init
        /\ (forall j s, nth_error init j = Some s -> Z.of_nat j < f ->
              exists p u,
                nth_error (AudioApp.scenes after) j
                = Some (withImageUrl (Some u) (withImagePrompt (VStr p) s)))
        /\ (forall j s, nth_error (AudioApp.scenes after) j = Some s ->
              f <= Z.of_nat j -> imageUrl s = None))
  /\ (let api :=
        Samples.apiOf (Some (Samples.scriptJson Samples.fourEntries))
          (fun n => (n <? 2)%nat) in
      let st := Samples.topicBoard 0 0 false in
      let after := fst (TopicApp.handleGenerate Samples.parse api st) in
      TopicApp.topic st = "ocean" /\ TopicApp.sceneCount st = 4
      /\ map imageUrl (TopicApp.scenes after)
         = [Some "data:image/jpeg;base64,AAAA";
            Some "data:image/jpeg;base64,AAAA"; None; None]
      /\ TopicApp.error after = Some imageFailure
      /\ TopicApp.isLoading after = false).
Proof.
  split; [| split; [| split]].
  - intros parse api st err Ht Hs after. subst after.
    rewrite (handleGenerate_unscripted parse api st err Ht Hs).
    repeat split.
  - exact topic_image_failure.
  - exact audio_call_failure.
  - cbv zeta. repeat split.
Qed.

Lemma pipeline_failure_policy_witness :
  let api :=
    Samples.apiOf (Some (Samples.scriptJson Samples.fourEntries))
      (fun n => (n <? 2)%nat) in
  let after :=
    fst (TopicApp.handleGenerate Samples.parse api (Samples.topicBoard 0 0 false)) in
  TopicApp.error after = Some imageFailure
  /\ TopicApp.isLoading after = false
  /\ AudioApp.audioUrl
       (fst (AudioApp.handleCreateStoryboard
               (Samples.envOf (fun _ => true) (fun _ => false))
               (Samples.audioBoard 0 30 0 0 0 false)))
     = None.
Proof.
  cbv zeta. split; [| split].
  - apply (proj1 (proj2 pipeline_failure_policy) Samples.parse
             (Samples.apiOf (Some (Samples.scriptJson Samples.fourEntries))
                (fun n => (n <? 2)%nat))
             (Samples.topicBoard 0 0 false)
             (Samples.scriptValue Samples.fourEntries)
             (map (fun p => mkScene (fst p) (VStr (fst (snd p)))
                              (VStr (snd (snd p))) None)
                  (combine [0; 1; 2; 3] Samples.fourEntries))
             2 (JsError imageFailure)).
    + discriminate.
    + reflexivity.
    + reflexivity.
    + intros j Hj. assert (Hc : j = 0 \/ j = 1) by lia.
      destruct Hc as [-> | ->]; eexists; reflexivity.
    + reflexivity.
  - apply (proj1 (proj2 pipeline_failure_policy) Samples.parse
             (Samples.apiOf (Some (Samples.scriptJson Samples.fourEntries))
                (fun n => (n <? 2)%nat))
             (Samples.topicBoard 0 0 false)
             (Samples.scriptValue Samples.fourEntries)
             (map (fun p => mkScene (fst p) (VStr (fst (snd p)))
                              (VStr (snd (snd p))) None)
                  (combine [0; 1; 2; 3] Samples.fourEntries))
             2 (JsError imageFailure)).
    + discriminate.
    + reflexivity.
    + reflexivity.
    + intros j Hj. assert (Hc : j = 0 \/ j = 1) by lia.
      destruct Hc as [-> | ->]; eexists; reflexivity.
    + reflexivity.
  - apply (proj1 (proj2 (proj2 pipeline_failure_policy))
             (Samples.envOf (fun _ => true) (fun _ => false))
             (Samples.audioBoard 0 30 0 0 0 false)
             (Samples.scriptOf "a line") Samples.narration
             0 (JsError imageFailure)).
    + reflexivity.
    + reflexivity.
    + intros j Hj. lia.
    + right. reflexivity.
Defined.

(** ** Requests in flight *)

Lemma filter_removeNth {A : Type} (p : A -> bool) (l : list A) :
  forall (n : nat) (t : A),
    nth_error l n = Some t ->
    (length (filter p l)
     = length (filter p (removeNth n l)) + (if p t then 1 else 0))%nat.
Proof.
  induction l as [| x rest IH]; intros n t Hn.
  - destruct n; discriminate.
  - destruct n as [| n]; cbn in Hn.
    + injection Hn as ->. cbn. destruct (p t); cbn; lia.
    + cbn [removeNth filter]. specialize (IH n t Hn).
      destruct (p x); cbn [length]; lia.
Qed.

Lemma loopHead_goesOn (initialScenes : list Scene) (i : Z)
    (st0 st : TopicApp.State) :
  TopicApp.regeneratingSceneId st = TopicApp.regeneratingSceneId st0 ->
  TopicApp.isLoading st = TopicApp.isLoading st0 ->
  pipelineGoesOn st0 (loopHead initialScenes i st).
Proof.
  intros Hr Hl. unfold loopHead, pipelineGoesOn.
  destruct (i <? Z.of_nat (length initialScenes)).
  - destruct (at_ initialScenes i); cbn [fst snd].
    + split; [exact Hr | right]. split; [exact Hl | eauto].
    + split; [exact Hr | left]. split; reflexivity.
  - cbn [fst snd]. split; [exact Hr | left]. split; reflexivity.
Qed.

Lemma resumeScript_goesOn (parse : string -> exn + value)
    (outcome : exn + GenerateContentResponse) (st : TopicApp.State) :
  pipelineGoesOn st (resumeScript parse outcome st).
Proof.
  unfold resumeScript.
  destruct (generateScript_resume parse outcome) as [err | scriptData].
  - split; [reflexivity | left]. split; reflexivity.
  - destruct (TopicApp.initialScenesOf scriptData) as [err | initialScenes].
    + split; [reflexivity | left]. split; reflexivity.
    + apply loopHead_goesOn; reflexivity.
Qed.

Lemma resumeImage_goesOn (initialScenes : list Scene) (i : Z)
    (outcome : exn + GenerateImagesResponse) (st : TopicApp.State) :
  pipelineGoesOn st (resumeImage initialScenes i outcome st).
Proof.
  unfold resumeImage.
  destruct (generateImage_resume outcome) as [err | imageUrl].
  - split; [reflexivity | left]. split; reflexivity.
  - apply loopHead_goesOn; reflexivity.
Qed.

Lemma count_app (p : task -> bool) (st : TopicApp.State) (l more : list task) :
  count p (mkApp st (l ++ more)%list)
  = (length (filter p l) + length (filter p more))%nat.
Proof. unfold count. cbn. now rewrite filter_app, length_app. Qed.

(** A button or a text field that leaves both flags and parks nothing. *)
Lemma flagsMatch_same_flags (app : App) (st' : TopicApp.State) :
  TopicApp.regeneratingSceneId st' = TopicApp.regeneratingSceneId (ui app) ->
  TopicApp.isLoading st' = TopicApp.isLoading (ui app) ->
  flagsMatch app -> flagsMatch (mkApp st' (awaiting app)).
Proof.
  intros Hr Hl [H1 H2]. unfold flagsMatch, count in *. cbn.
  now rewrite Hr, Hl.
Qed.

Lemma flagsMatch_pipeline_settles (app : App) (n : nat) (t : task)
    (r : TopicApp.State * list task) :
  nth_error (awaiting app) n = Some t ->
  isPipelineTask t = true ->
  pipelineGoesOn (ui app) r ->
  flagsMatch app ->
  flagsMatch (mkApp (fst r) (removeNth n (awaiting app) ++ snd r)%list).
Proof.
  intros Hn Ht [Hr Hgo] [H1 H2].
  pose proof (filter_removeNth isPipelineTask _ _ _ Hn) as Hp.
  pose proof (filter_removeNth isRegenerateTask _ _ _ Hn) as Hg.
  rewrite Ht in Hp.
  assert (Hnot : isRegenerateTask t = false) by (destruct t; easy).
  rewrite Hnot in Hg. unfold count in H1, H2.
  assert (Hload : TopicApp.isLoading (ui app) = true).
  { destruct (TopicApp.isLoading (ui app)); [reflexivity | lia]. }
  rewrite Hload in H2.
  unfold flagsMatch. rewrite !count_app. cbn [ui]. rewrite Hr.
  destruct Hgo as [[Hl Hm] | [Hl (initialScenes & i & Hm)]];
    rewrite Hl, Hm; cbn [filter isRegenerateTask isPipelineTask length];
    [| rewrite Hload]; split; lia.
Qed.

Lemma flagsMatch_step (parse : string -> exn + value) (app : App) (e : event) :
  flagsMatch app -> flagsMatch (step parse app e).
Proof.
  intros Hinv. pose proof Hinv as [H1 H2]. destruct e; cbn [step].
  - now apply flagsMatch_same_flags.
  - now apply flagsMatch_same_flags.
  - (* ClickGenerate *)
    unfold clickGenerate, generateDisabled, park.
    destruct (TopicApp.isLoading (ui app)) eqn:Hl; cbn [fst snd].
    + rewrite app_nil_r. destruct app. exact Hinv.
    + destruct (String.eqb (trim (TopicApp.topic (ui app))) ""); cbn [fst snd].
      * rewrite app_nil_r. apply flagsMatch_same_flags; auto.
      * unfold flagsMatch. rewrite !count_app. cbn.
        unfold count in H1, H2. rewrite H1, H2. split; lia.
  - unfold TopicApp.prevScene.
    destruct (previewShown (ui app) && negb (navDisabled (ui app)));
      [| exact Hinv].
    apply flagsMatch_same_flags; auto;
      destruct (0 <? TopicApp.sceneTotal (ui app)); reflexivity.
  - unfold TopicApp.nextScene.
    destruct (previewShown (ui app) && negb (navDisabled (ui app)));
      [| exact Hinv].
    apply flagsMatch_same_flags; auto;
      destruct (0 <? TopicApp.sceneTotal (ui app)); reflexivity.
  - unfold TopicApp.togglePlayPause.
    destruct (previewShown (ui app) && negb (playDisabled (ui app)));
      [| exact Hinv].
    apply flagsMatch_same_flags; auto;
      destruct (TopicApp.isPlaying (ui app)); try reflexivity;
      destruct (0 <? TopicApp.sceneTotal (ui app)); try reflexivity;
      match goal with |- context [if ?c then _ else _] => destruct c end;
      reflexivity.
  - destruct (editorShown (ui app)); [| exact Hinv].
    now apply flagsMatch_same_flags.
  - destruct (editorShown (ui app)); [| exact Hinv].
    now apply flagsMatch_same_flags.
  - (* ClickRegenerate *)
    unfold clickRegenerate, editorShown, regenerateDisabled, park,
      TopicApp.handleRegenerateImage_begin.
    destruct (TopicApp.currentScene (ui app)) as [scene |];
      cbn [isSome]; rewrite ?andb_false_r; cbn [andb fst snd];
      [| rewrite app_nil_r; destruct app; exact Hinv].
    destruct (0 <? TopicApp.sceneTotal (ui app)); cbn [andb fst snd];
      [| rewrite app_nil_r; destruct app; exact Hinv].
    destruct (TopicApp.isLoading (ui app)) eqn:Hl; cbn [orb negb fst snd];
      [rewrite app_nil_r; destruct app; exact Hinv |].
    destruct (TopicApp.regeneratingSceneId (ui app)) eqn:Hr;
      cbn [isSome negb fst snd];
      [rewrite app_nil_r; destruct app; exact Hinv |].
    unfold flagsMatch. rewrite !count_app. cbn.
    unfold count in H1, H2. rewrite H1, H2, Hl. cbn. split; lia.
  - (* Settle *)
    destruct (nth_error (awaiting app) n) as [t |] eqn:Hn; [| exact Hinv].
    destruct t as [| initialScenes i | scene];
      destruct r as [outcome | outcome]; cbn [settle]; try exact Hinv.
    + pose proof (resumeScript_goesOn parse outcome (ui app)) as Hgo.
      destruct (resumeScript parse outcome (ui app)) as [st' more].
      exact (flagsMatch_pipeline_settles app n AwaitScript (st', more)
               Hn eq_refl Hgo Hinv).
    + pose proof (resumeImage_goesOn initialScenes i outcome (ui app)) as Hgo.
      destruct (resumeImage initialScenes i outcome (ui app)) as [st' more].
      exact (flagsMatch_pipeline_settles app n (AwaitImage initialScenes i)
               (st', more) Hn eq_refl Hgo Hinv).
    + pose proof (filter_removeNth isPipelineTask _ _ _ Hn) as Hp.
      pose proof (filter_removeNth isRegenerateTask _ _ _ Hn) as Hg.
      cbn [isPipelineTask isRegenerateTask] in Hp, Hg.
      unfold count in H1, H2.
      unfold flagsMatch. rewrite !count_app. cbn [ui filter length].
      unfold TopicApp.handleRegenerateImage_resume.
      destruct (generateImage_resume outcome); cbn;
        destruct (isSome (TopicApp.regeneratingSceneId (ui app)));
        split; lia.
  - destruct (TopicApp.speechEffect (ui app)) as [u |]; [| exact Hinv].
    apply flagsMatch_same_flags; auto; unfold TopicApp.utterance_onend;
      destruct (TopicApp.madeAtIndex u <? TopicApp.madeAtLength u - 1);
      reflexivity.
  - destruct (TopicApp.speechEffect (ui app)) as [u |]; [| exact Hinv].
    now apply flagsMatch_same_flags.
Qed.






(** ** The current index stays on the board

    The bound on the index under which navigation is stated for the topic
    variant holds in every state the component reaches. *)

Lemma indexInBoard_keep (app : App) (st' : TopicApp.State) (tasks : list task) :
  TopicApp.currentSceneIndex st' = TopicApp.currentSceneIndex (ui app) ->
  TopicApp.sceneTotal st' = TopicApp.sceneTotal (ui app) ->
  (TopicApp.isLoading st' = true ->
   TopicApp.isLoading (ui app) = true
   /\ TopicApp.isPlaying st' = TopicApp.isPlaying (ui app)) ->
  indexInBoard app -> indexInBoard (mkApp st' tasks).
Proof.
  intros Hi Hn Hl [Hb Hload]. unfold indexInBoard. cbn [ui].
  rewrite Hi, Hn. split; [exact Hb |].
  intros Ht. destruct (Hl Ht) as [Hl' Hp]. rewrite Hp. now apply Hload.
Qed.

Lemma loopHead_keeps (initialScenes : list Scene) (i : Z) (st : TopicApp.State) :
  let st' := fst (loopHead initialScenes i st) in
  TopicApp.currentSceneIndex st' = TopicApp.currentSceneIndex st
  /\ TopicApp.scenes st' = TopicApp.scenes st
  /\ TopicApp.isPlaying st' = TopicApp.isPlaying st
  /\ (TopicApp.isLoading st' = true -> TopicApp.isLoading st = true).
Proof.
  unfold loopHead.
  destruct (i <? Z.of_nat (length initialScenes)).
  - destruct (at_ initialScenes i); cbn; repeat split; auto; discriminate.
  - cbn. repeat split; auto; discriminate.
Qed.

Lemma pipeline_task_loading (app : App) (n : nat) (t : task) :
  flagsMatch app ->
  nth_error (awaiting app) n = Some t ->
  isPipelineTask t = true ->
  TopicApp.isLoading (ui app) = true.
Proof.
  intros [_ H2] Hn Ht.
  pose proof (filter_removeNth isPipelineTask _ _ _ Hn) as Hp.
  rewrite Ht in Hp. unfold count in H2.
  destruct (TopicApp.isLoading (ui app)); [reflexivity | lia].
Qed.

Lemma indexInBoard_step (parse : string -> exn + value) (app : App) (e : event) :
  flagsMatch app -> indexInBoard app -> indexInBoard (step parse app e).
Proof.
  intros Hflags Hinv. pose proof Hinv as [Hb Hload].
  destruct e; cbn [step].
  - apply (indexInBoard_keep app); auto.
  - apply (indexInBoard_keep app); auto.
  - (* ClickGenerate *)
    unfold clickGenerate, generateDisabled, park.
    destruct (TopicApp.isLoading (ui app)) eqn:Hl; cbn [fst snd].
    + apply (indexInBoard_keep app); auto.
    + destruct (String.eqb (trim (TopicApp.topic (ui app))) ""); cbn [fst snd].
      * apply (indexInBoard_keep app); auto; cbn; now rewrite Hl.
      * split; cbn; [lia | auto].
  - (* ClickPrev *)
    unfold previewShown, navDisabled, TopicApp.prevScene.
    destruct (TopicApp.isLoading (ui app)) eqn:Hl; cbn [negb andb orb];
      [exact Hinv |].
    destruct (Z.ltb_spec 0 (TopicApp.sceneTotal (ui app))); cbn [andb];
      [| exact Hinv].
    destruct (Z.eqb_spec (TopicApp.sceneTotal (ui app)) 0); cbn [negb];
      [exact Hinv |].
    split; cbn; [| rewrite Hl; discriminate].
    unfold TopicApp.sceneTotal in *. cbn.
    rewrite remainder_mod by lia.
    match goal with
    | |- context [?a mod ?b] => pose proof (Z.mod_pos_bound a b)
    end.
    lia.
  - (* ClickNext *)
    unfold previewShown, navDisabled, TopicApp.nextScene.
    destruct (TopicApp.isLoading (ui app)) eqn:Hl; cbn [negb andb orb];
      [exact Hinv |].
    destruct (Z.ltb_spec 0 (TopicApp.sceneTotal (ui app))); cbn [andb];
      [| exact Hinv].
    destruct (Z.eqb_spec (TopicApp.sceneTotal (ui app)) 0); cbn [negb];
      [exact Hinv |].
    split; cbn; [| rewrite Hl; discriminate].
    unfold TopicApp.sceneTotal in *. cbn.
    rewrite remainder_mod by lia.
    match goal with
    | |- context [?a mod ?b] => pose proof (Z.mod_pos_bound a b)
    end.
    lia.
  - (* ClickPlayPause *)
    unfold previewShown, playDisabled, TopicApp.togglePlayPause.
    destruct (TopicApp.isLoading (ui app)) eqn:Hl; cbn [negb andb orb];
      [exact Hinv |].
    destruct (Z.ltb_spec 0 (TopicApp.sceneTotal (ui app))); cbn [andb];
      [| exact Hinv].
    match goal with |- context [negb ?c] => destruct c end; cbn [negb];
      [exact Hinv |].
    destruct (TopicApp.isPlaying (ui app)).
    + apply (indexInBoard_keep app); auto. cbn. rewrite Hl. discriminate.
    + match goal with |- context [if ?c then _ else _] => destruct c end.
      * split; cbn; [| rewrite Hl; discriminate].
        unfold TopicApp.sceneTotal in *. cbn. lia.
      * apply (indexInBoard_keep app); auto. cbn. rewrite Hl. discriminate.
  - destruct (editorShown (ui app)); [| exact Hinv].
    apply (indexInBoard_keep app); auto.
    unfold TopicApp.sceneTotal, TopicApp.handleScriptChange. cbn.
    unfold editAt, mapIndex. now rewrite length_mapIndexFrom.
  - destruct (editorShown (ui app)); [| exact Hinv].
    apply (indexInBoard_keep app); auto.
    unfold TopicApp.sceneTotal, TopicApp.handlePromptChange. cbn.
    unfold editAt, mapIndex. now rewrite length_mapIndexFrom.
  - (* ClickRegenerate *)
    unfold clickRegenerate, park, TopicApp.handleRegenerateImage_begin.
    destruct (editorShown (ui app) && negb (regenerateDisabled (ui app)));
      cbn [fst snd]; [| apply (indexInBoard_keep app); auto].
    destruct (TopicApp.currentScene (ui app)); cbn [fst snd];
      [| apply (indexInBoard_keep app); auto].
    split; cbn; [exact Hb |].
    intros Hl. split; [now apply Hload | reflexivity].
  - (* Settle *)
    destruct (nth_error (awaiting app) n) as [t |] eqn:Hn; [| exact Hinv].
    destruct t as [| initialScenes i | scene];
      destruct r as [outcome | outcome]; cbn [settle]; try exact Hinv.
    + pose proof (pipeline_task_loading app n AwaitScript Hflags Hn eq_refl) as Hl.
      destruct (Hload Hl) as [Hzero Hstop].
      unfold resumeScript.
      destruct (generateScript_resume parse outcome) as [err | scriptData].
      * split; cbn; [exact Hb | discriminate].
      * destruct (TopicApp.initialScenesOf scriptData) as [err | initialScenes].
        -- split; cbn; [exact Hb | discriminate].
        -- pose proof (loopHead_keeps initialScenes 0
                         (TopicApp.setScenes (fun _ => initialScenes) (ui app)))
             as (Ki & Ks & Kp & Kl).
           destruct (loopHead initialScenes 0
                       (TopicApp.setScenes (fun _ => initialScenes) (ui app)))
             as [st' more].
           cbn [fst] in Ki, Ks, Kp, Kl. cbn in Ki, Kp.
           split; cbn [ui].
           ++ rewrite Ki, Hzero. unfold TopicApp.sceneTotal. lia.
           ++ intros _. now rewrite Ki, Kp.
    + pose proof (pipeline_task_loading app n (AwaitImage initialScenes i)
                    Hflags Hn eq_refl) as Hl.
      unfold resumeImage.
      destruct (generateImage_resume outcome) as [err | imageUrl].
      * split; cbn; [exact Hb | discriminate].
      * pose proof (loopHead_keeps initialScenes (i + 1)
                      (TopicApp.setScenes (patchImage i imageUrl) (ui app)))
          as (Ki & Ks & Kp & Kl).
        destruct (loopHead initialScenes (i + 1)
                    (TopicApp.setScenes (patchImage i imageUrl) (ui app)))
          as [st' more].
        cbn [fst] in Ki, Ks, Kp, Kl. cbn in Ki, Ks, Kp.
        apply (indexInBoard_keep app); auto.
        unfold TopicApp.sceneTotal. rewrite Ks. unfold patchImage.
        now rewrite length_map.
    + unfold TopicApp.handleRegenerateImage_resume.
      destruct (generateImage_resume outcome) as [err | imageUrl];
        apply (indexInBoard_keep app); auto.
      unfold TopicApp.sceneTotal. cbn. unfold patchImage.
      now rewrite length_map.
  - (* SpeechEnd *)
    destruct (TopicApp.speechEffect (ui app)) as [u |] eqn:Hu; [| exact Hinv].
    destruct (speechEffect_plays _ _ Hu) as (Hp & Hr & Hi & Hlen & _).
    assert (Hl : TopicApp.isLoading (ui app) = false).
    { destruct (TopicApp.isLoading (ui app)) eqn:E; [| reflexivity].
      destruct (Hload eq_refl) as [_ Hstop]. congruence. }
    unfold TopicApp.utterance_onend. rewrite Hi, Hlen.
    destruct (Z.ltb_spec (TopicApp.currentSceneIndex (ui app))
                (TopicApp.sceneTotal (ui app) - 1)).
    + split; cbn; [| rewrite Hl; discriminate].
      unfold TopicApp.sceneTotal in *. cbn. lia.
    + apply (indexInBoard_keep app); auto. cbn. rewrite Hl. discriminate.
  - (* SpeechError *)
    destruct (TopicApp.speechEffect (ui app)) as [u |] eqn:Hu; [| exact Hinv].
    destruct (speechEffect_plays _ _ Hu) as (Hp & _).
    assert (Hl : TopicApp.isLoading (ui app) = false).
    { destruct (TopicApp.isLoading (ui app)) eqn:E; [| reflexivity].
      destruct (Hload eq_refl) as [_ Hstop]. congruence. }
    apply (indexInBoard_keep app); auto. cbn. rewrite Hl. discriminate.
Qed.

(** In every state reached from the initial one the index is on the
    board: at least 0, and below the number of scenes when there are any. *)
Lemma index_stays_on_board (parse : string -> exn + value)
    (events : list event) :
  let st := ui (run parse initialApp events) in
  0 <= TopicApp.currentSceneIndex st
  /\ (1 <= TopicApp.sceneTotal st ->
      TopicApp.currentSceneIndex st < TopicApp.sceneTotal st).
Proof.
  assert (H : forall app, flagsMatch app -> indexInBoard app ->
                          flagsMatch (run parse app events)
                          /\ indexInBoard (run parse app events)).
  { induction events as [| e rest IH]; intros app Hf Hi; [now split |].
    cbn. apply IH; [now apply flagsMatch_step | now apply indexInBoard_step]. }
  destruct (H initialApp) as [_ [Hb _]].
  - split; reflexivity.
  - split; cbn; [lia | discriminate].
  - cbv zeta. lia.
Qed.

(** * Further properties *)

(** ** generateImage *)

(** X1: [generateImage] hands back a JPEG data URL made of the bytes of the
    first generated image, and in every other case throws the one message
    "画像の生成に失敗しました。": when the call is rejected, and when the response
    lists no image. *)
Theorem generateImage_outcomes (api : Api) (calls : nat) (prompt : value) :
  let outcome := models_generateImages api calls (imagePromptText prompt) in
  (forall err, generateImage api calls prompt = inl err ->
               err = JsError imageFailure)
  /\ (forall url, generateImage api calls prompt = inr url ->
        exists response first rest img,
          outcome = inr response
          /\ generatedImages response = Some (first :: rest)
          /\ image first = Some img
          /\ url = "data:image/jpeg;base64,"
                   ++ match imageBytes img with
                      | Some bytes => bytes
                      | None => "undefined"
                      end)
  /\ (forall e, outcome = inl e ->
                generateImage api calls prompt = inl (JsError imageFailure))
  /\ (forall response,
        outcome = inr response ->
        generatedImages response = None \/ generatedImages response = Some [] ->
        generateImage api calls prompt = inl (JsError imageFailure)).
Proof.
  intros outcome. subst outcome. unfold generateImage, generateImage_resume.
  destruct (models_generateImages api calls (imagePromptText prompt))
    as [e | response]; cbn [bind].
  - repeat split; intros; try discriminate; congruence.
  - destruct (generatedImages response) as [[| first rest] |] eqn:Hg.
    + repeat split; intros; try discriminate; congruence.
    + destruct (image first) as [img |] eqn:Hi.
      * split; [intros err H; discriminate |].
        split.
        { intros url H. injection H as <-.
          exists response, first, rest, img. repeat split; assumption. }
        split; [intros e H; discriminate |].
        intros r Hr [H | H]; injection Hr as <-; congruence.
      * repeat split; intros; try discriminate; congruence.
    + repeat split; intros; try discriminate; congruence.
Qed.

Lemma generateImage_outcomes_witness :
  generateImage (Samples.apiOf None (fun _ => false)) 0 (VStr "a reef")
    = inl (JsError imageFailure)
  /\ generateImage
       (mkApi (fun _ => inl (JsError "unused")) (fun _ _ => inr (mkImages (Some []))))
       0 (VStr "a reef")
     = inl (JsError imageFailure).
Proof.
  split.
  - apply (proj1 (proj2 (proj2 (generateImage_outcomes
             (Samples.apiOf None (fun _ => false)) 0 (VStr "a reef"))))
             (JsError "503 Service Unavailable")).
    reflexivity.
  - apply (proj2 (proj2 (proj2 (generateImage_outcomes
             (mkApi (fun _ => inl (JsError "unused"))
                (fun _ _ => inr (mkImages (Some []))))
             0 (VStr "a reef"))))
             (mkImages (Some []))).
    + reflexivity.
    + right. reflexivity.
Defined.

(** ** Edits compose *)

Lemma mapIndexFrom_twice {A B C : Type} (f : A -> Z -> B) (g : B -> Z -> C)
    (xs : list A) :
  forall k : Z,
    mapIndexFrom g k (mapIndexFrom f k xs)
    = mapIndexFrom (fun x i => g (f x i) i) k xs.
Proof.
  induction xs as [| x rest IH]; intros k; cbn; [reflexivity |].
  now rewrite IH.
Qed.

Lemma mapIndexFrom_ext {A B : Type} (f g : A -> Z -> B) (xs : list A) :
  (forall x i, f x i = g x i) ->
  forall k : Z, mapIndexFrom f k xs = mapIndexFrom g k xs.
Proof.
  intros H. induction xs as [| x rest IH]; intros k; cbn; [reflexivity |].
  now rewrite H, IH.
Qed.

Lemma editAt_twice (current : Z) (first second : Scene -> Scene)
    (prev : list Scene) :
  editAt current second (editAt current first prev)
  = editAt current (fun s => second (first s)) prev.
Proof.
  unfold editAt, mapIndex. rewrite mapIndexFrom_twice.
  apply mapIndexFrom_ext. intros s i. now destruct (i =? current).
Qed.

Lemma editAt_ext (current : Z) (f g : Scene -> Scene) (prev : list Scene) :
  (forall s, f s = g s) -> editAt current f prev = editAt current g prev.
Proof.
  intros H. unfold editAt, mapIndex. apply mapIndexFrom_ext.
  intros s i. destruct (i =? current); [apply H | reflexivity].
Qed.

Lemma topic_setScenes_ext (f g : list Scene -> list Scene) (st : TopicApp.State) :
  f (TopicApp.scenes st) = g (TopicApp.scenes st) ->
  TopicApp.setScenes f st = TopicApp.setScenes g st.
Proof. unfold TopicApp.setScenes. now intros ->. Qed.

Lemma topic_setScenes_twice (f g : list Scene -> list Scene)
    (st : TopicApp.State) :
  TopicApp.setScenes g (TopicApp.setScenes f st)
  = TopicApp.setScenes (fun prev => g (f prev)) st.
Proof. reflexivity. Qed.

(** X2: typing in the editor is last-write-wins and the two text fields
    do not interfere: a second narration (or prompt) edit leaves the state
    the second edit alone would, so repeating an edit changes nothing, and
    a narration edit and a prompt edit give the same state in either
    order.  Both variants. *)
Theorem editor_edits_compose (v w : string) :
  (forall st : TopicApp.State,
      TopicApp.handleScriptChange w (TopicApp.handleScriptChange v st)
      = TopicApp.handleScriptChange w st
      /\ TopicApp.handlePromptChange w (TopicApp.handlePromptChange v st)
         = TopicApp.handlePromptChange w st
      /\ TopicApp.handleScriptChange v (TopicApp.handlePromptChange w st)
         = TopicApp.handlePromptChange w (TopicApp.handleScriptChange v st))
  /\ (forall st : AudioApp.State,
        AudioApp.handleScriptChange w (AudioApp.handleScriptChange v st)
        = AudioApp.handleScriptChange w st
        /\ AudioApp.handlePromptChange w (AudioApp.handlePromptChange v st)
           = AudioApp.handlePromptChange w st
        /\ AudioApp.handleScriptChange v (AudioApp.handlePromptChange w st)
           = AudioApp.handlePromptChange w (AudioApp.handleScriptChange v st)).
Proof.
  split; intros st.
  - unfold TopicApp.handleScriptChange, TopicApp.handlePromptChange.
    rewrite !topic_setScenes_twice.
    repeat split; apply topic_setScenes_ext;
      cbn [TopicApp.scenes TopicApp.currentSceneIndex TopicApp.setScenes];
      rewrite !editAt_twice; apply editAt_ext; intros s; reflexivity.
  - unfold AudioApp.handleScriptChange, AudioApp.handlePromptChange.
    rewrite !audio_setScenes_twice.
    repeat split; apply audio_setScenes_ext;
      cbn [AudioApp.scenes AudioApp.currentSceneIndex AudioApp.setScenes];
      rewrite !editAt_twice; apply editAt_ext; intros s; reflexivity.
Qed.

(** ** Regenerating one image *)

Lemma patchImage_replaced (i : Z) (url : string) (prev : list Scene) :
  imageReplaced i url prev (patchImage i url prev).
Proof.
  unfold imageReplaced, patchImage. split; [apply length_map |].
  intros j. rewrite nth_error_map. reflexivity.
Qed.

(** X3: [handleRegenerateImage], run to its end on a board with a current
    scene, always ends with [regeneratingSceneId] null and playback off and
    never moves the index; when the image comes, exactly the scenes with
    the current scene's id get the new URL, texts and other scenes as they
    were, and the error is cleared; when it fails, every scene keeps the
    image it had and the error is the image message.  Without a current
    scene the handler changes nothing.  Both variants. *)
Theorem regenerate_image_outcome (api : Api) :
  (forall (st : TopicApp.State) (scene : Scene),
      TopicApp.currentScene st = Some scene ->
      let after := TopicWhole.handleRegenerateImage api st in
      TopicApp.regeneratingSceneId after = None
      /\ TopicApp.isPlaying after = false
      /\ TopicApp.currentSceneIndex after = TopicApp.currentSceneIndex st
      /\ (forall url, generateImage api 0 (imagePrompt scene) = inr url ->
            imageReplaced (id scene) url (TopicApp.scenes st)
              (TopicApp.scenes after)
            /\ TopicApp.error after = None)
      /\ (forall err, generateImage api 0 (imagePrompt scene) = inl err ->
            TopicApp.scenes after = TopicApp.scenes st
            /\ TopicApp.error after = Some imageFailure))
  /\ (forall st : TopicApp.State,
        TopicApp.currentScene st = None ->
        TopicWhole.handleRegenerateImage api st = st)
  /\ (forall (st : AudioApp.State) (scene : Scene),
        AudioApp.currentScene st = Some scene ->
        let after := AudioWhole.handleRegenerateImage api st in
        AudioApp.regeneratingSceneId after = None
        /\ AudioApp.isPlaying after = false
        /\ AudioApp.currentSceneIndex after = AudioApp.currentSceneIndex st
        /\ (forall url, generateImage api 0 (imagePrompt scene) = inr url ->
              imageReplaced (id scene) url (AudioApp.scenes st)
                (AudioApp.scenes after)
              /\ AudioApp.error after = None)
        /\ (forall err, generateImage api 0 (imagePrompt scene) = inl err ->
              AudioApp.scenes after = AudioApp.scenes st
              /\ AudioApp.error after = Some imageFailure))
  /\ (forall st : AudioApp.State,
        AudioApp.currentScene st = None ->
        AudioWhole.handleRegenerateImage api st = st).
Proof.
  split; [| split; [| split]].
  - intros st scene Hc after. subst after.
    unfold TopicWhole.handleRegenerateImage, TopicApp.handleRegenerateImage_begin,
      TopicApp.handleRegenerateImage_resume.
    rewrite Hc.
    change (generateImage_resume
              (models_generateImages api 0 (imagePromptText (imagePrompt scene))))
      with (generateImage api 0 (imagePrompt scene)).
    destruct (generateImage api 0 (imagePrompt scene)) as [err | url] eqn:Hg.
    + rewrite (generateImage_failure _ _ _ _ Hg).
      repeat split; intros; try discriminate.
    + repeat split; intros; try discriminate.
      * match goal with H : inr _ = inr _ |- _ => injection H as <- end.
        apply length_map.
      * match goal with H : inr _ = inr _ |- _ => injection H as <- end.
        apply patchImage_replaced.
  - intros st Hc.
    unfold TopicWhole.handleRegenerateImage, TopicApp.handleRegenerateImage_begin.
    now rewrite Hc.
  - intros st scene Hc after. subst after.
    unfold AudioWhole.handleRegenerateImage, AudioApp.handleRegenerateImage_begin,
      AudioApp.handleRegenerateImage_resume.
    rewrite Hc.
    change (generateImage_resume
              (models_generateImages api 0 (imagePromptText (imagePrompt scene))))
      with (generateImage api 0 (imagePrompt scene)).
    destruct (generateImage api 0 (imagePrompt scene)) as [err | url] eqn:Hg.
    + rewrite (generateImage_failure _ _ _ _ Hg).
      repeat split; intros; try discriminate.
    + repeat split; intros; try discriminate.
      * match goal with H : inr _ = inr _ |- _ => injection H as <- end.
        apply length_map.
      * match goal with H : inr _ = inr _ |- _ => injection H as <- end.
        apply patchImage_replaced.
  - intros st Hc.
    unfold AudioWhole.handleRegenerateImage, AudioApp.handleRegenerateImage_begin.
    now rewrite Hc.
Qed.

Lemma regenerate_image_outcome_witness :
  TopicApp.scenes
    (TopicWhole.handleRegenerateImage (Samples.apiOf None (fun _ => false))
       (Samples.topicBoard 2 1 true))
  = TopicApp.scenes (Samples.topicBoard 2 1 true)
  /\ TopicApp.error
       (TopicWhole.handleRegenerateImage (Samples.apiOf None (fun _ => false))
          (Samples.topicBoard 2 1 true))
     = Some imageFailure.
Proof.
  destruct (proj1 (regenerate_image_outcome (Samples.apiOf None (fun _ => false)))
              (Samples.topicBoard 2 1 true)
              (mkScene 1 (VStr "a prompt") (VStr "a line")
                 (Some "data:image/jpeg;base64,AAAA"))
              eq_refl) as (_ & _ & _ & _ & Hfail).
  apply (Hfail (JsError imageFailure)). reflexivity.
Defined.

(** ** The time line, bounds *)

Lemma Qdiv_nonneg (t per : Q) : (0 <= t)%Q -> (0 < per)%Q -> (0 <= t / per)%Q.
Proof.
  intros Ht Hp. apply Qle_shift_div_l; [exact Hp |].
  now rewrite Qmult_0_l.
Qed.

Lemma Qdiv_le_compat (t1 t2 per : Q) :
  (t1 <= t2)%Q -> (0 < per)%Q -> (t1 / per <= t2 / per)%Q.
Proof.
  intros Ht Hp. unfold Qdiv. apply Qmult_le_compat_r; [exact Ht |].
  apply Qlt_le_weak. now apply Qinv_lt_0_compat.
Qed.

Lemma audio_tick_value (st : AudioApp.State) (audio : AudioApp.Audio) :
  AudioApp.audioRef st = Some audio ->
  (0 < AudioApp.sceneDurationRef st)%Q ->
  AudioApp.currentSceneIndex (AudioApp.handleAudioTimeUpdate st)
  = Z.min (AudioApp.sceneTotal st - 1)
      (Qfloor (AudioApp.currentTime audio / AudioApp.sceneDurationRef st)).
Proof.
  intros Ha Hp.
  assert (Hnz : ~ AudioApp.sceneDurationRef st == 0).
  { intros E. rewrite E in Hp. discriminate Hp. }
  exact (proj1 (audio_tick_index st audio Ha Hnz)).
Qed.

(** X4: with per-scene duration [per > 0], N >= 1 scenes and elapsed time
    t >= 0, a time-update tick always leaves the index on the board; the
    index it computes never decreases as t grows; and once t has reached
    N x per (the whole duration) it is the last scene, the index
    [handleAudioEnded] sets. *)
Theorem tick_index_on_board :
  (forall (st : AudioApp.State) (audio : AudioApp.Audio),
      AudioApp.audioRef st = Some audio ->
      (0 < AudioApp.sceneDurationRef st)%Q ->
      (0 <= AudioApp.currentTime audio)%Q ->
      1 <= AudioApp.sceneTotal st ->
      0 <= AudioApp.currentSceneIndex (AudioApp.handleAudioTimeUpdate st)
        <= AudioApp.sceneTotal st - 1)
  /\ (forall (st : AudioApp.State) (audio : AudioApp.Audio) (later : Q),
        AudioApp.audioRef st = Some audio ->
        (0 < AudioApp.sceneDurationRef st)%Q ->
        (AudioApp.currentTime audio <= later)%Q ->
        AudioApp.currentSceneIndex (AudioApp.handleAudioTimeUpdate st)
        <= AudioApp.currentSceneIndex
             (AudioApp.handleAudioTimeUpdate (AudioApp.seek later st)))
  /\ (forall (st : AudioApp.State) (audio : AudioApp.Audio),
        AudioApp.audioRef st = Some audio ->
        (0 < AudioApp.sceneDurationRef st)%Q ->
        (inject_Z (AudioApp.sceneTotal st) * AudioApp.sceneDurationRef st
         <= AudioApp.currentTime audio)%Q ->
        AudioApp.currentSceneIndex (AudioApp.handleAudioTimeUpdate st)
        = AudioApp.sceneTotal st - 1
        /\ AudioApp.currentSceneIndex (AudioApp.handleAudioEnded st)
           = AudioApp.sceneTotal st - 1).
Proof.
  split; [| split].
  - intros st audio Ha Hp Ht Hn.
    rewrite (audio_tick_value st audio Ha Hp).
    pose proof (Qfloor_resp_le _ _ (Qdiv_nonneg _ _ Ht Hp)) as Hf.
    change (Qfloor 0) with 0 in Hf. lia.
  - intros st audio later Ha Hp Hl.
    rewrite (audio_tick_value st audio Ha Hp).
    rewrite (audio_tick_value (AudioApp.seek later st)
               (AudioApp.mkAudio later (AudioApp.duration audio))).
    + pose proof (Qfloor_resp_le _ _ (Qdiv_le_compat _ _ _ Hl Hp)) as Hf.
      change (AudioApp.sceneTotal (AudioApp.seek later st))
        with (AudioApp.sceneTotal st).
      cbn [AudioApp.currentTime].
      change (AudioApp.sceneDurationRef (AudioApp.seek later st))
        with (AudioApp.sceneDurationRef st).
      lia.
    + unfold AudioApp.seek. cbn [AudioApp.audioRef]. now rewrite Ha.
    + exact Hp.
  - intros st audio Ha Hp Hend.
    rewrite (audio_tick_value st audio Ha Hp).
    split; [| reflexivity].
    assert (Hq : (inject_Z (AudioApp.sceneTotal st)
                  <= AudioApp.currentTime audio / AudioApp.sceneDurationRef st)%Q).
    { now apply Qle_shift_div_l. }
    pose proof (Qfloor_resp_le _ _ Hq) as Hf.
    rewrite Qfloor_Z in Hf. lia.
Qed.

Lemma tick_index_on_board_witness :
  0 <= AudioApp.currentSceneIndex
         (AudioApp.handleAudioTimeUpdate (Samples.audioBoard 3 30 10 22 0 true))
    <= 3 - 1
  /\ AudioApp.currentSceneIndex
       (AudioApp.handleAudioTimeUpdate (Samples.audioBoard 3 30 10 30 0 true))
     = 3 - 1.
Proof.
  split.
  - apply (proj1 tick_index_on_board (Samples.audioBoard 3 30 10 22 0 true)
             (AudioApp.mkAudio 22 (Finite 30))).
    + reflexivity.
    + reflexivity.
    + discriminate.
    + cbn. lia.
  - apply (proj2 (proj2 tick_index_on_board)
             (Samples.audioBoard 3 30 10 30 0 true)
             (AudioApp.mkAudio 30 (Finite 30))).
    + reflexivity.
    + reflexivity.
    + discriminate.
Defined.

(** ** Play and pause *)



(** X6: the play button of the audio variant flips the playback flag and
    nothing else, so two presses give the state back; without scenes or
    without an audio URL it does nothing. *)
Theorem audio_toggle_play (st : AudioApp.State) :
  AudioApp.togglePlayPause (AudioApp.togglePlayPause st) = st
  /\ (AudioApp.scenes st = [] \/ AudioApp.audioUrl st = None ->
      AudioApp.togglePlayPause st = st)
  /\ (AudioApp.scenes st <> [] ->
      (exists url, AudioApp.audioUrl st = Some url /\ url <> "") ->
      AudioApp.togglePlayPause st = AudioApp.setIsPlaying negb st).
Proof.
  unfold AudioApp.togglePlayPause. split; [| split].
  - pose (cond := fun s : AudioApp.State =>
                    (0 <? AudioApp.sceneTotal s)
                    && match AudioApp.audioUrl s with
                       | Some url => negb (url =? "")%string
                       | None => false
                       end).
    change (let once := if cond st then AudioApp.setIsPlaying negb st else st in
            (if cond once then AudioApp.setIsPlaying negb once else once) = st).
    cbv zeta. destruct (cond st) eqn:Hc.
    + change (cond (AudioApp.setIsPlaying negb st)) with (cond st).
      rewrite Hc. destruct st. unfold AudioApp.setIsPlaying.
      cbn. now rewrite negb_involutive.
    + now rewrite Hc.
  - intros [He | Hu].
    + unfold AudioApp.sceneTotal. rewrite He. reflexivity.
    + rewrite Hu. now rewrite andb_false_r.
  - intros Hne (url & Hu & Hurl). rewrite Hu.
    destruct (Z.ltb_spec 0 (AudioApp.sceneTotal st)) as [_ | Hz].
    + destruct (String.eqb_spec url ""); [contradiction | reflexivity].
    + exfalso. apply Hne. unfold AudioApp.sceneTotal in Hz.
      destruct (AudioApp.scenes st); [reflexivity | cbn in Hz; lia].
Qed.

Lemma audio_toggle_play_witness :
  AudioApp.togglePlayPause AudioApp.initialState = AudioApp.initialState
  /\ AudioApp.togglePlayPause (Samples.audioBoard 2 30 15 0 0 false)
     = AudioApp.setIsPlaying negb (Samples.audioBoard 2 30 15 0 0 false).
Proof.
  split.
  - apply (proj1 (proj2 (audio_toggle_play AudioApp.initialState))).
    left. reflexivity.
  - apply (proj2 (proj2 (audio_toggle_play (Samples.audioBoard 2 30 15 0 0 false)))).
    + discriminate.
    + exists "blob:voice". split; [reflexivity | discriminate].
Defined.

(** ** Storyboards that come out whole *)

Lemma topic_run_completes_witness :
  TopicApp.error
    (fst (TopicApp.handleGenerate Samples.parse
            (Samples.apiOf (Some (Samples.scriptJson Samples.twoEntries))
               (fun _ => true))
            (Samples.topicBoard 0 0 false)))
  = None.
Proof.
  apply (topic_run_completes Samples.parse
           (Samples.apiOf (Some (Samples.scriptJson Samples.twoEntries))
              (fun _ => true))
           (Samples.topicBoard 0 0 false)
           (Samples.scriptValue Samples.twoEntries)
           [mkScene 0 (VStr "a reef at dawn") (VStr "The sea wakes.") None;
            mkScene 1 (VStr "a whale") (VStr "A giant passes.") None]).
  - discriminate.
  - reflexivity.
  - reflexivity.
  - intros j Hj. cbn in Hj. assert (Hc : j = 0 \/ j = 1) by lia.
    destruct Hc as [-> | ->]; eexists; reflexivity.
Defined.

Lemma audio_finish_scenes (e : loopEnd) (st : AudioApp.State) :
  AudioApp.scenes (audioFinish e st) = AudioApp.scenes st.
Proof. destruct e; reflexivity. Qed.

Lemma audio_initialScenes_nth (scriptLines : list string) (j : nat) :
  nth_error (AudioApp.initialScenesOf scriptLines) j
  = option_map (fun line => mkScene (Z.of_nat j) (VStr "") (VStr line) None)
      (nth_error scriptLines j).
Proof.
  unfold AudioApp.initialScenesOf, mapIndex.
  rewrite nth_error_mapIndexFrom. reflexivity.
Qed.

(** X8: whatever the prompt and image calls do, a storyboard created from
    a script file has exactly one scene per non-blank line of the file, in
    the file's order: scene j has id j and the j-th such line, verbatim, as
    its narration.  No blank line becomes a scene. *)
Theorem storyboard_scenes_are_lines (env : AudioApp.Env) (st : AudioApp.State)
    (script audio : AudioApp.File) :
  AudioApp.scriptFile st = Some script ->
  AudioApp.audioFile st = Some audio ->
  let scriptLines := AudioApp.scriptLinesOf (AudioApp.content script) in
  scriptLines <> [] ->
  let after := fst (AudioApp.handleCreateStoryboard env st) in
  length (AudioApp.scenes after) = length scriptLines
  /\ (forall j line,
        nth_error scriptLines j = Some line ->
        exists s,
          nth_error (AudioApp.scenes after) j = Some s
          /\ id s = Z.of_nat j
          /\ narratorScript s = VStr line)
  /\ (forall line, In line scriptLines ->
        trim line <> ""
        /\ In line (splitLines (AudioApp.content script))).
Proof.
  intros Hs Ha scriptLines Hne after. subst after.
  rewrite (handleCreateStoryboard_started env st script audio Hs Ha Hne).
  fold scriptLines.
  destruct (audio_initialScenes_ids scriptLines) as (Hids & _ & Hlen).
  destruct (sceneRun env (AudioApp.initialScenesOf scriptLines)
              (length (AudioApp.initialScenesOf scriptLines)) 0)
    as [[k e] calls].
  cbn [fst]. rewrite audio_finish_scenes.
  cbn [AudioApp.scenes AudioApp.setScenes].
  split; [| split].
  - unfold written. now rewrite length_map.
  - intros j line Hj.
    rewrite nth_error_written by assumption.
    rewrite audio_initialScenes_nth, Hj. cbn [option_map].
    eexists. split; [reflexivity |].
    destruct (Z.of_nat j <? k); [split; reflexivity |].
    destruct (promptWritten e && (Z.of_nat j =? k)); split; reflexivity.
  - intros line Hin. subst scriptLines. unfold AudioApp.scriptLinesOf in Hin.
    apply filter_In in Hin. destruct Hin as [Hin Hb].
    split; [| exact Hin].
    intros E. rewrite E in Hb. discriminate Hb.
Qed.

Lemma storyboard_scenes_are_lines_witness :
  length
    (AudioApp.scenes
       (fst (AudioApp.handleCreateStoryboard
               (Samples.envOf (fun _ => true) (fun _ => false))
               (Samples.audioBoard 0 30 0 0 0 false))))
  = length (AudioApp.scriptLinesOf "a line").
Proof.
  apply (storyboard_scenes_are_lines
           (Samples.envOf (fun _ => true) (fun _ => false))
           (Samples.audioBoard 0 30 0 0 0 false)
           (Samples.scriptOf "a line") Samples.narration).
  - reflexivity.
  - reflexivity.
  - discriminate.
Defined.

(** With every call answered, the audio variant's loop runs to the end. *)
Lemma sceneRun_completes (env : AudioApp.Env) (init : list Scene)
    (remaining : nat) :
  forall i : Z,
    0 <= i ->
    (forall j, i <= j < i + Z.of_nat remaining ->
               exists u, audioImageAt env init j = Some (inr u)) ->
    exists calls,
      sceneRun env init remaining i = (i + Z.of_nat remaining, Completed, calls)
      /\ length calls = (2 * remaining)%nat.
Proof.
  induction remaining as [| r IH]; intros i Hi Hok.
  - exists []. cbn [sceneRun]. split; [do 2 f_equal; lia | reflexivity].
  - cbn [sceneRun].
    destruct (Hok i) as [u Hu]; [lia |].
    unfold audioImageAt, audioPromptAt in Hu.
    destruct (at_ init i) as [scene |]; [| discriminate].
    cbn [option_map] in Hu.
    destruct (AudioApp.generateImagePromptForScript env (Z.to_nat i)
                (narratorScript scene)) as [e | p]; [discriminate |].
    injection Hu as Hu. rewrite Hu.
    destruct (IH (i + 1)) as (calls & Hrun & Hlen); [lia | |].
    { intros j Hj. apply Hok. lia. }
    rewrite Hrun. eexists. split; [do 2 f_equal; lia |].
    cbn [length]. rewrite Hlen. lia.
Qed.

(** X9: when every prompt call and every image call is answered, the
    audio variant's run makes two calls per scene, ends without a message
    and with loading off, keeps the object URL of the audio file, and every
    scene carries the prompt and the image that came for it, its id and its
    narration as created. *)
Theorem storyboard_completes (env : AudioApp.Env) (st : AudioApp.State)
    (script audio : AudioApp.File) :
  AudioApp.scriptFile st = Some script ->
  AudioApp.audioFile st = Some audio ->
  let init :=
    AudioApp.initialScenesOf (AudioApp.scriptLinesOf (AudioApp.content script)) in
  init <> [] ->
  (forall j, 0 <= j < Z.of_nat (length init) ->
             exists u, audioImageAt env init j = Some (inr u)) ->
  let after := fst (AudioApp.handleCreateStoryboard env st) in
  length (snd (AudioApp.handleCreateStoryboard env st)) = (2 * length init)%nat
  /\ AudioApp.error after = None
  /\ AudioApp.isLoading after = false
  /\ AudioApp.audioUrl after = Some (AudioApp.createObjectURL env audio)
  /\ (forall j s, nth_error init j = Some s ->
        exists p u,
          audioPromptAt env init (Z.of_nat j) = Some (inr p)
          /\ generateImage (AudioApp.api env) j (VStr p) = inr u
          /\ nth_error (AudioApp.scenes after) j
             = Some (mkScene (id s) (VStr p) (narratorScript s) (Some u))).
Proof.
  intros Hs Ha init Hne Hok after. subst after.
  destruct (audio_initialScenes_ids
              (AudioApp.scriptLinesOf (AudioApp.content script)))
    as (Hids & _ & Hlen). fold init in Hids, Hlen.
  assert (Hlines : AudioApp.scriptLinesOf (AudioApp.content script) <> []).
  { intros E. apply Hne. subst init. now rewrite E. }
  rewrite (handleCreateStoryboard_started env st script audio Hs Ha Hlines).
  fold init.
  destruct (sceneRun_completes env init (length init) 0) as (calls & Hrun & Hcalls);
    [lia | exact Hok |].
  rewrite Hrun. cbn [fst snd audioFinish promptWritten].
  split; [exact Hcalls |].
  split; [reflexivity |].
  split; [reflexivity |].
  split; [reflexivity |].
  intros j s Hj.
  assert (Hlt : (j < length init)%nat) by (apply nth_error_Some; congruence).
  destruct (Hok (Z.of_nat j)) as [u Hu]; [lia |].
  unfold audioImageAt in Hu.
  destruct (audioPromptAt env init (Z.of_nat j)) as [[e | p] |] eqn:Hp;
    try discriminate.
  injection Hu as Hu. rewrite Nat2Z.id in Hu.
  exists p, u. split; [reflexivity |]. split; [exact Hu |].
  cbn [AudioApp.scenes AudioApp.handleCreateStoryboard_finally
         AudioApp.setIsLoading AudioApp.setLoadingMessage AudioApp.setScenes].
  rewrite nth_error_written by assumption. rewrite Hj. cbn [option_map].
  destruct (Z.ltb_spec (Z.of_nat j) (0 + Z.of_nat (length init))); [| lia].
  unfold audioUrlAt, audioImageAt, audioPromptValue. rewrite Hp.
  rewrite Nat2Z.id, Hu. reflexivity.
Qed.

Lemma storyboard_completes_witness :
  AudioApp.error
    (fst (AudioApp.handleCreateStoryboard
            (Samples.envOf (fun _ => true) (fun _ => true))
            (Samples.audioBoard 0 30 0 0 0 false)))
  = None.
Proof.
  apply (storyboard_completes
           (Samples.envOf (fun _ => true) (fun _ => true))
           (Samples.audioBoard 0 30 0 0 0 false)
           (Samples.scriptOf "a line") Samples.narration).
  - reflexivity.
  - reflexivity.
  - discriminate.
  - intros j Hj. cbn in Hj. assert (j = 0) as -> by lia.
    eexists. reflexivity.
Defined.

(** ** What every reachable state of the topic variant satisfies *)

(** Induction over the events, with the two invariants already at hand. *)
Lemma run_invariant (parse : string -> exn + value) (P : App -> Prop) :
  P initialApp ->
  (forall app e, flagsMatch app -> indexInBoard app -> P app ->
                 P (step parse app e)) ->
  forall events, P (run parse initialApp events).
Proof.
  intros Hinit Hstep events.
  assert (H : forall app, flagsMatch app -> indexInBoard app -> P app ->
                          P (run parse app events)).
  { induction events as [| e rest IH]; intros app Hf Hi Hp; [exact Hp |].
    cbn. apply IH;
      [now apply flagsMatch_step | now apply indexInBoard_step | now apply Hstep]. }
  apply H; [split; reflexivity | split; cbn; [lia | discriminate] | exact Hinit].
Qed.

Lemma idsFrom_map (k : Z) (f : Scene -> Scene) (l : list Scene) :
  (forall s, id (f s) = id s) -> idsFrom k l -> idsFrom k (map f l).
Proof.
  intros Hf Hid j s Hj. rewrite nth_error_map in Hj.
  destruct (nth_error l j) as [s0 |] eqn:Hs; [| discriminate].
  cbn in Hj. injection Hj as <-. rewrite Hf. now apply Hid.
Qed.

Lemma idsFrom_patchImage (i : Z) (url : string) (l : list Scene) :
  idsFrom 0 l -> idsFrom 0 (patchImage i url l).
Proof.
  apply idsFrom_map. intros s. now destruct (id s =? i).
Qed.

Lemma idsFrom_editAt (current : Z) (edit : Scene -> Scene) (l : list Scene) :
  (forall s, id (edit s) = id s) -> idsFrom 0 l -> idsFrom 0 (editAt current edit l).
Proof.
  intros Hf Hid j s Hj. unfold editAt, mapIndex in Hj.
  rewrite nth_error_mapIndexFrom in Hj.
  destruct (nth_error l j) as [s0 |] eqn:Hs; [| discriminate].
  cbn [option_map] in Hj. injection Hj as <-. cbv beta.
  match goal with
  | |- context [if ?c then _ else _] => destruct c
  end; [rewrite Hf |]; now apply Hid.
Qed.

Lemma loopHead_scenes (initialScenes : list Scene) (i : Z) (st : TopicApp.State) :
  TopicApp.scenes (fst (loopHead initialScenes i st)) = TopicApp.scenes st.
Proof. exact (proj1 (proj2 (loopHead_keeps initialScenes i st))). Qed.

(** X10: in every state the topic variant reaches, the scene at position
    j has id j.  So a patch by id (an arriving image) and an edit by
    position address the same scene, through every edit, regeneration and
    new storyboard. *)
Theorem scene_ids_are_positions (parse : string -> exn + value)
    (events : list event) :
  forall (j : nat) (s : Scene),
    nth_error (TopicApp.scenes (ui (run parse initialApp events))) j = Some s ->
    id s = Z.of_nat j.
Proof.
  assert (H : idsFrom 0 (TopicApp.scenes (ui (run parse initialApp events)))).
  { apply (run_invariant parse
             (fun app => idsFrom 0 (TopicApp.scenes (ui app)))).
    - intros j s Hj. destruct j; discriminate.
    - intros app e _ _ Hid. destruct e; cbn [step]; try exact Hid.
      + (* ClickGenerate *)
        unfold clickGenerate, park.
        destruct (generateDisabled (ui app)); [exact Hid |].
        destruct (String.eqb (trim (TopicApp.topic (ui app))) "");
          [exact Hid |].
        intros j s Hj. destruct j; discriminate.
      + destruct (previewShown (ui app) && negb (navDisabled (ui app)));
          [| exact Hid].
        unfold TopicApp.prevScene.
        destruct (0 <? TopicApp.sceneTotal (ui app)); exact Hid.
      + destruct (previewShown (ui app) && negb (navDisabled (ui app)));
          [| exact Hid].
        unfold TopicApp.nextScene.
        destruct (0 <? TopicApp.sceneTotal (ui app)); exact Hid.
      + destruct (previewShown (ui app) && negb (playDisabled (ui app)));
          [| exact Hid].
        unfold TopicApp.togglePlayPause.
        destruct (TopicApp.isPlaying (ui app)); [exact Hid |].
        destruct (0 <? TopicApp.sceneTotal (ui app)); [| exact Hid].
        match goal with |- context [if ?c then _ else _] => destruct c end;
          exact Hid.
      + destruct (editorShown (ui app)); [| exact Hid].
        now apply idsFrom_editAt.
      + destruct (editorShown (ui app)); [| exact Hid].
        now apply idsFrom_editAt.
      + (* ClickRegenerate *)
        unfold clickRegenerate, park, TopicApp.handleRegenerateImage_begin.
        destruct (editorShown (ui app) && negb (regenerateDisabled (ui app)));
          [| exact Hid].
        destruct (TopicApp.currentScene (ui app)); exact Hid.
      + (* Settle *)
        destruct (nth_error (awaiting app) n) as [t |]; [| exact Hid].
        destruct t as [| initialScenes i | scene];
          destruct r as [outcome | outcome]; cbn [settle]; try exact Hid.
        * unfold resumeScript.
          destruct (generateScript_resume parse outcome) as [err | scriptData];
            [exact Hid |].
          destruct (TopicApp.initialScenesOf scriptData)
            as [err | initialScenes] eqn:Hinit; [exact Hid |].
          pose proof (loopHead_scenes initialScenes 0
                        (TopicApp.setScenes (fun _ => initialScenes) (ui app)))
            as Hs.
          destruct (loopHead initialScenes 0
                      (TopicApp.setScenes (fun _ => initialScenes) (ui app)))
            as [st' more].
          cbn [fst] in Hs. cbn [ui]. rewrite Hs.
          exact (proj1 (initialScenesOf_shape _ _ Hinit)).
        * unfold resumeImage.
          destruct (generateImage_resume outcome) as [err | imageUrl];
            [exact Hid |].
          pose proof (loopHead_scenes initialScenes (i + 1)
                        (TopicApp.setScenes (patchImage i imageUrl) (ui app)))
            as Hs.
          destruct (loopHead initialScenes (i + 1)
                      (TopicApp.setScenes (patchImage i imageUrl) (ui app)))
            as [st' more].
          cbn [fst] in Hs. cbn [ui]. rewrite Hs.
          now apply idsFrom_patchImage.
        * unfold TopicApp.handleRegenerateImage_resume.
          destruct (generateImage_resume outcome) as [err | imageUrl];
            [exact Hid |].
          now apply idsFrom_patchImage.
      + destruct (TopicApp.speechEffect (ui app)) as [u |]; [| exact Hid].
        unfold TopicApp.utterance_onend.
        destruct (TopicApp.madeAtIndex u <? TopicApp.madeAtLength u - 1);
          exact Hid.
      + destruct (TopicApp.speechEffect (ui app)); exact Hid. }
  intros j s Hj. now rewrite (H j s Hj).
Qed.

Lemma scene_ids_are_positions_witness :
  id (mkScene 1 (VStr "a whale") (VStr "A giant passes.")
        (Some "data:image/jpeg;base64,AAAA"))
  = Z.of_nat 1.
Proof.
  apply (scene_ids_are_positions Samples.parse Samples.firstStoryboard 1).
  reflexivity.
Defined.

Lemma existsb_mapIndexFrom {A : Type} (p : A -> bool) (f : A -> Z -> A)
    (xs : list A) :
  (forall x i, p (f x i) = p x) ->
  forall k : Z, existsb p (mapIndexFrom f k xs) = existsb p xs.
Proof.
  intros H. induction xs as [| x rest IH]; intros k; cbn; [reflexivity |].
  now rewrite H, IH.
Qed.

Lemma lacksImage_editAt (current : Z) (edit : Scene -> Scene) (l : list Scene) :
  (forall s, imageUrl (edit s) = imageUrl s) ->
  existsb lacksImage (editAt current edit l) = existsb lacksImage l.
Proof.
  intros H. unfold editAt, mapIndex. apply existsb_mapIndexFrom.
  intros s i. destruct (i =? current); [| reflexivity].
  unfold lacksImage. now rewrite H.
Qed.

Lemma regenerate_task_flag (app : App) (n : nat) (scene : Scene) :
  flagsMatch app ->
  nth_error (awaiting app) n = Some (AwaitRegenerate scene) ->
  TopicApp.regeneratingSceneId (ui app) <> None.
Proof.
  intros [H1 _] Hn E.
  pose proof (filter_removeNth isRegenerateTask _ _ _ Hn) as Hp.
  cbn [isRegenerateTask] in Hp. unfold count in H1.
  rewrite E in H1. cbn [isSome] in H1. lia.
Qed.

Lemma loopHead_playing (initialScenes : list Scene) (i : Z) (st : TopicApp.State) :
  TopicApp.isPlaying (fst (loopHead initialScenes i st)) = TopicApp.isPlaying st.
Proof. exact (proj1 (proj2 (proj2 (loopHead_keeps initialScenes i st)))). Qed.

Lemma resume_keeps_playing (parse : string -> exn + value) (t : task)
    (r : settled) (st st' : TopicApp.State) (more : list task) :
  settle parse t r st = Some (st', more) ->
  TopicApp.isPlaying st' = TopicApp.isPlaying st.
Proof.
  destruct t as [| initialScenes i | scene]; destruct r as [outcome | outcome];
    cbn [settle]; intros H; try discriminate; injection H as H.
  - unfold resumeScript in H.
    destruct (generateScript_resume parse outcome) as [err | scriptData].
    + injection H as <- _. reflexivity.
    + destruct (TopicApp.initialScenesOf scriptData) as [err | initialScenes].
      * injection H as <- _. reflexivity.
      * apply (f_equal fst) in H. cbn [fst] in H. subst st'.
        now rewrite loopHead_playing.
  - unfold resumeImage in H.
    destruct (generateImage_resume outcome) as [err | imageUrl].
    + injection H as <- _. reflexivity.
    + apply (f_equal fst) in H. cbn [fst] in H. subst st'.
      now rewrite loopHead_playing.
  - subst st'. unfold TopicApp.handleRegenerateImage_resume.
    destruct (generateImage_resume outcome); reflexivity.
Qed.

(** X11: in every state the topic variant reaches, playback is on only
    when no pipeline run and no regeneration is under way and every scene
    has its image; nothing is ever narrated over a scene that still shows
    the spinner. *)
Theorem playback_only_when_illustrated (parse : string -> exn + value)
    (events : list event) :
  let st := ui (run parse initialApp events) in
  TopicApp.isPlaying st = true ->
  TopicApp.isLoading st = false
  /\ TopicApp.regeneratingSceneId st = None
  /\ existsb lacksImage (TopicApp.scenes st) = false.
Proof.
  apply (run_invariant parse playsIllustrated).
  - intros H. discriminate H.
  - intros app e Hflags [_ Hload] Hinv. unfold playsIllustrated in *.
    destruct e; cbn [step]; try exact Hinv.
    + (* ClickGenerate *)
      unfold clickGenerate, park.
      destruct (generateDisabled (ui app)); [exact Hinv |].
      destruct (String.eqb (trim (TopicApp.topic (ui app))) "");
        [exact Hinv | intros H; discriminate H].
    + destruct (previewShown (ui app) && negb (navDisabled (ui app)));
        [| exact Hinv].
      unfold TopicApp.prevScene.
      destruct (0 <? TopicApp.sceneTotal (ui app)); intros H; discriminate H.
    + destruct (previewShown (ui app) && negb (navDisabled (ui app)));
        [| exact Hinv].
      unfold TopicApp.nextScene.
      destruct (0 <? TopicApp.sceneTotal (ui app)); intros H; discriminate H.
    + (* ClickPlayPause *)
      destruct (previewShown (ui app) && negb (playDisabled (ui app))) eqn:Hen;
        [| exact Hinv].
      apply andb_true_iff in Hen. destruct Hen as [_ Hen].
      apply negb_true_iff in Hen. unfold playDisabled in Hen.
      apply orb_false_iff in Hen. destruct Hen as [Hen Hreg].
      apply orb_false_iff in Hen. destruct Hen as [Hen Himg].
      apply orb_false_iff in Hen. destruct Hen as [Hl _].
      assert (Hr : TopicApp.regeneratingSceneId (ui app) = None).
      { destruct (TopicApp.regeneratingSceneId (ui app)); [discriminate | reflexivity]. }
      intros _. cbn [ui]. unfold TopicApp.togglePlayPause.
      destruct (TopicApp.isPlaying (ui app)); [now repeat split |].
      destruct (0 <? TopicApp.sceneTotal (ui app)); [| now repeat split].
      match goal with |- context [if ?c then _ else _] => destruct c end;
        now repeat split.
    + destruct (editorShown (ui app)); [| exact Hinv].
      intros Hp. destruct (Hinv Hp) as (Hl & Hr & Hi). cbn [ui].
      repeat split; try assumption.
      unfold TopicApp.handleScriptChange. cbn [TopicApp.scenes TopicApp.setScenes].
      now rewrite lacksImage_editAt.
    + destruct (editorShown (ui app)); [| exact Hinv].
      intros Hp. destruct (Hinv Hp) as (Hl & Hr & Hi). cbn [ui].
      repeat split; try assumption.
      unfold TopicApp.handlePromptChange. cbn [TopicApp.scenes TopicApp.setScenes].
      now rewrite lacksImage_editAt.
    + (* ClickRegenerate *)
      unfold clickRegenerate, park, TopicApp.handleRegenerateImage_begin.
      destruct (editorShown (ui app) && negb (regenerateDisabled (ui app)));
        [| exact Hinv].
      destruct (TopicApp.currentScene (ui app));
        [intros H; discriminate H | exact Hinv].
    + (* Settle *)
      destruct (nth_error (awaiting app) n) as [t |] eqn:Hn; [| exact Hinv].
      destruct (settle parse t r (ui app)) as [[st' more] |] eqn:Hs;
        [| exact Hinv].
      cbn [ui]. rewrite (resume_keeps_playing parse t r _ _ _ Hs).
      intros Hp. exfalso.
      destruct (Hinv Hp) as (Hl & Hr & _).
      destruct t as [| initialScenes i | scene].
      * pose proof (pipeline_task_loading app n _ Hflags Hn eq_refl). congruence.
      * pose proof (pipeline_task_loading app n _ Hflags Hn eq_refl). congruence.
      * exact (regenerate_task_flag app n scene Hflags Hn Hr).
    + destruct (TopicApp.speechEffect (ui app)) as [u |]; [| exact Hinv].
      unfold TopicApp.utterance_onend.
      destruct (TopicApp.madeAtIndex u <? TopicApp.madeAtLength u - 1);
        [exact Hinv | intros H; discriminate H].
    + destruct (TopicApp.speechEffect (ui app)) as [u |]; [| exact Hinv].
      intros H. discriminate H.
Qed.

Lemma playback_only_when_illustrated_witness :
  existsb lacksImage
    (TopicApp.scenes
       (ui (run Samples.parse initialApp
              (Samples.firstStoryboard ++ [ClickPlayPause])%list)))
  = false.
Proof.
  apply (playback_only_when_illustrated Samples.parse
           (Samples.firstStoryboard ++ [ClickPlayPause])%list).
  reflexivity.
Defined.

Lemma no_pipeline_task (l : list task) :
  length (filter isPipelineTask l) = 0%nat ->
  forall t, In t l -> isPipelineTask t = false.
Proof.
  induction l as [| x rest IH]; intros H t Hin; [contradiction |].
  cbn [filter] in H. destruct (isPipelineTask x) eqn:Hx; [discriminate H |].
  destruct Hin as [<- | Hin]; [exact Hx | now apply IH].
Qed.

Lemma In_removeNth {A : Type} (l : list A) :
  forall (n : nat) (x : A), In x (removeNth n l) -> In x l.
Proof.
  induction l as [| y rest IH]; intros n x Hin; [destruct n; exact Hin |].
  destruct n as [| n]; cbn [removeNth] in Hin; [now right |].
  destruct Hin as [<- | Hin]; [now left | right; now apply (IH n)].
Qed.

Lemma progressOf_other (st : TopicApp.State) (t : task) :
  isPipelineTask t = false -> progressOf st t.
Proof. destruct t; [discriminate | discriminate | intros _; exact I]. Qed.

Lemma progressOf_message (st st' : TopicApp.State) (t : task) :
  TopicApp.loadingMessage st' = TopicApp.loadingMessage st ->
  progressOf st t -> progressOf st' t.
Proof. intros H. destruct t; cbn [progressOf]; rewrite ?H; auto. Qed.

Lemma progressShown_keep (app : App) (st' : TopicApp.State) (tasks : list task) :
  TopicApp.loadingMessage st' = TopicApp.loadingMessage (ui app) ->
  TopicApp.isLoading st' = TopicApp.isLoading (ui app) ->
  (forall t, In t tasks -> In t (awaiting app) \/ isPipelineTask t = false) ->
  progressShown app -> progressShown (mkApp st' tasks).
Proof.
  intros Hm Hl Hin [Hidle Htasks]. split; cbn [ui awaiting].
  - rewrite Hm, Hl. exact Hidle.
  - intros t Ht. destruct (Hin t Ht) as [Hold | Hother].
    + apply (progressOf_message (ui app)); [exact Hm | now apply Htasks].
    + now apply progressOf_other.
Qed.

Lemma loopHead_reports (initialScenes : list Scene) (i : Z) (st : TopicApp.State) :
  0 <= i -> TopicApp.isLoading st = true ->
  pipelineReports (loopHead initialScenes i st).
Proof.
  intros Hi Hl. unfold loopHead, pipelineReports.
  destruct (Z.ltb_spec i (Z.of_nat (length initialScenes))).
  - destruct (at_ initialScenes i); cbn [fst snd].
    + right. split; [exact Hl |].
      exists initialScenes, i. split; [reflexivity |].
      split; [lia | reflexivity].
    + left. repeat split.
  - left. repeat split.
Qed.

Lemma progressShown_pipeline (app : App) (n : nat) (t : task)
    (r : TopicApp.State * list task) :
  flagsMatch app ->
  nth_error (awaiting app) n = Some t ->
  isPipelineTask t = true ->
  pipelineReports r ->
  progressShown (mkApp (fst r) (removeNth n (awaiting app) ++ snd r)%list).
Proof.
  intros Hflags Hn Ht Hr.
  pose proof (pipeline_task_loading app n t Hflags Hn Ht) as Hl.
  destruct Hflags as [_ H2]. unfold count in H2. rewrite Hl in H2.
  pose proof (filter_removeNth isPipelineTask _ _ _ Hn) as Hp.
  rewrite Ht in Hp.
  assert (Hrest : forall t', In t' (removeNth n (awaiting app)) ->
                             isPipelineTask t' = false).
  { apply no_pipeline_task. lia. }
  split; cbn [ui awaiting].
  - destruct Hr as [(_ & Hm & _) | (Hload & _)]; [intros _; exact Hm | congruence].
  - intros t' Hin. apply in_app_or in Hin. destruct Hin as [Hin | Hin].
    + apply progressOf_other. now apply Hrest.
    + destruct Hr as [(_ & _ & Hmore) | (_ & initialScenes & i & Hmore & Hprog)];
        rewrite Hmore in Hin; [contradiction |].
      destruct Hin as [<- | []]. exact Hprog.
Qed.

(** X12: in every state the topic variant reaches, the progress message
    is empty while no pipeline run is under way, is the script message
    while the script is awaited, and while the image of scene i of N is
    awaited is the message for "scene i+1/N", with i on the board. *)
Theorem progress_message_tracks_pipeline (parse : string -> exn + value)
    (events : list event) :
  let app := run parse initialApp events in
  (TopicApp.isLoading (ui app) = false -> TopicApp.loadingMessage (ui app) = "")
  /\ (In AwaitScript (awaiting app) ->
      TopicApp.loadingMessage (ui app) = "AIがシナリオを執筆中...")
  /\ (forall initialScenes i,
        In (AwaitImage initialScenes i) (awaiting app) ->
        0 <= i < Z.of_nat (length initialScenes)
        /\ TopicApp.loadingMessage (ui app)
           = TopicApp.imageProgress i (Z.of_nat (length initialScenes))).
Proof.
  assert (H : progressShown (run parse initialApp events)).
  { apply (run_invariant parse progressShown).
    - split; [reflexivity | intros t []].
    - intros app e Hflags _ Hinv.
      assert (Hsame : forall t, In t (awaiting app) ->
                                In t (awaiting app) \/ isPipelineTask t = false)
        by (intros t Ht; now left).
      destruct e; cbn [step].
      + now apply (progressShown_keep app).
      + now apply (progressShown_keep app).
      + (* ClickGenerate *)
        unfold clickGenerate, generateDisabled, park.
        destruct (TopicApp.isLoading (ui app)) eqn:Hl; cbn [fst snd].
        * apply (progressShown_keep app); auto.
          intros t Ht. rewrite app_nil_r in Ht. now left.
        * destruct (String.eqb (trim (TopicApp.topic (ui app))) "");
            cbn [fst snd].
          -- apply (progressShown_keep app); auto.
             intros t Ht. rewrite app_nil_r in Ht. now left.
          -- destruct Hflags as [_ H2]. unfold count in H2. rewrite Hl in H2.
             split; cbn [ui awaiting].
             ++ intros H. discriminate H.
             ++ intros t Ht. apply in_app_or in Ht. destruct Ht as [Ht | Ht].
                ** apply progressOf_other.
                   now apply (no_pipeline_task (awaiting app)).
                ** destruct Ht as [<- | []]. reflexivity.
      + destruct (previewShown (ui app) && negb (navDisabled (ui app)));
          [| exact Hinv].
        apply (progressShown_keep app); auto; unfold TopicApp.prevScene;
          destruct (0 <? TopicApp.sceneTotal (ui app)); reflexivity.
      + destruct (previewShown (ui app) && negb (navDisabled (ui app)));
          [| exact Hinv].
        apply (progressShown_keep app); auto; unfold TopicApp.nextScene;
          destruct (0 <? TopicApp.sceneTotal (ui app)); reflexivity.
      + destruct (previewShown (ui app) && negb (playDisabled (ui app)));
          [| exact Hinv].
        apply (progressShown_keep app); auto; unfold TopicApp.togglePlayPause;
          destruct (TopicApp.isPlaying (ui app)); try reflexivity;
          destruct (0 <? TopicApp.sceneTotal (ui app)); try reflexivity;
          match goal with |- context [if ?c then _ else _] => destruct c end;
          reflexivity.
      + destruct (editorShown (ui app)); [| exact Hinv].
        now apply (progressShown_keep app).
      + destruct (editorShown (ui app)); [| exact Hinv].
        now apply (progressShown_keep app).
      + (* ClickRegenerate *)
        unfold clickRegenerate, park, TopicApp.handleRegenerateImage_begin.
        destruct (editorShown (ui app) && negb (regenerateDisabled (ui app)));
          cbn [fst snd].
        * destruct (TopicApp.currentScene (ui app)); cbn [fst snd];
            apply (progressShown_keep app); auto;
            intros t Ht; apply in_app_or in Ht;
            destruct Ht as [Ht | Ht]; try (now left);
            destruct Ht as [<- | []]; now right.
        * apply (progressShown_keep app); auto.
          intros t Ht. rewrite app_nil_r in Ht. now left.
      + (* Settle *)
        destruct (nth_error (awaiting app) n) as [t |] eqn:Hn; [| exact Hinv].
        destruct t as [| initialScenes i | scene];
          destruct r as [outcome | outcome]; cbn [settle]; try exact Hinv.
        * pose proof (pipeline_task_loading app n _ Hflags Hn eq_refl) as Hl.
          assert (Hr : pipelineReports (resumeScript parse outcome (ui app))).
          { unfold resumeScript.
            destruct (generateScript_resume parse outcome) as [err | scriptData];
              [left; repeat split |].
            destruct (TopicApp.initialScenesOf scriptData) as [err | initialScenes];
              [left; repeat split |].
            apply loopHead_reports; [lia | exact Hl]. }
          destruct (resumeScript parse outcome (ui app)) as [st' more].
          exact (progressShown_pipeline app n AwaitScript (st', more)
                   Hflags Hn eq_refl Hr).
        * pose proof (pipeline_task_loading app n _ Hflags Hn eq_refl) as Hl.
          assert (Hi : 0 <= i).
          { destruct Hinv as [_ Htasks].
            destruct (Htasks _ (nth_error_In _ _ Hn)) as [Hb _]. lia. }
          assert (Hr : pipelineReports
                         (resumeImage initialScenes i outcome (ui app))).
          { unfold resumeImage.
            destruct (generateImage_resume outcome) as [err | imageUrl];
              [left; repeat split |].
            apply loopHead_reports; [lia | exact Hl]. }
          destruct (resumeImage initialScenes i outcome (ui app)) as [st' more].
          exact (progressShown_pipeline app n (AwaitImage initialScenes i)
                   (st', more) Hflags Hn eq_refl Hr).
        * apply (progressShown_keep app).
          -- unfold TopicApp.handleRegenerateImage_resume.
             destruct (generateImage_resume outcome); reflexivity.
          -- unfold TopicApp.handleRegenerateImage_resume.
             destruct (generateImage_resume outcome); reflexivity.
          -- intros t Ht. rewrite app_nil_r in Ht. left.
             now apply (In_removeNth _ n).
          -- exact Hinv.
      + destruct (TopicApp.speechEffect (ui app)) as [u |]; [| exact Hinv].
        apply (progressShown_keep app); auto; unfold TopicApp.utterance_onend;
          destruct (TopicApp.madeAtIndex u <? TopicApp.madeAtLength u - 1);
          reflexivity.
      + destruct (TopicApp.speechEffect (ui app)) as [u |]; [| exact Hinv].
        now apply (progressShown_keep app). }
  destruct H as [Hidle Htasks]. cbv zeta. split; [exact Hidle |].
  split.
  - intros Hin. exact (Htasks _ Hin).
  - intros initialScenes i Hin. exact (Htasks _ Hin).
Qed.

(** X13: in every state the topic variant reaches, a running pipeline
    finds the index at 0 and playback off, so the speech effect has
    nothing to say until the run is over. *)
Theorem pipeline_run_is_silent (parse : string -> exn + value)
    (events : list event) :
  let st := ui (run parse initialApp events) in
  TopicApp.isLoading st = true ->
  TopicApp.currentSceneIndex st = 0
  /\ TopicApp.isPlaying st = false
  /\ TopicApp.speechEffect st = None.
Proof.
  assert (H : indexInBoard (run parse initialApp events)).
  { apply (run_invariant parse indexInBoard).
    - split; cbn; [lia | discriminate].
    - intros app e Hflags Hinv _. now apply indexInBoard_step. }
  destruct H as [_ Hload]. cbv zeta. intros Hl.
  destruct (Hload Hl) as [Hi Hp]. repeat split; try assumption.
  unfold TopicApp.speechEffect. now rewrite Hp.
Qed.

Lemma pipeline_run_is_silent_witness :
  TopicApp.speechEffect
    (ui (run Samples.parse initialApp
           (Samples.firstStoryboard ++ [ClickPlayPause; ClickGenerate])%list))
  = None.
Proof.
  apply (pipeline_run_is_silent Samples.parse
           (Samples.firstStoryboard ++ [ClickPlayPause; ClickGenerate])%list).
  reflexivity.
Defined.

(** The event model, fed the settlements of one run in order, walks the
    image loop exactly as the run-to-completion loop does. *)
Lemma imageSettles_run (parse : string -> exn + value) (api : Api)
    (initialScenes : list Scene) (remaining : nat) :
  forall (i : Z) (st : TopicApp.State) (log : list request),
    Z.of_nat (length initialScenes) = i + Z.of_nat remaining ->
    run parse
      (mkApp (fst (loopHead initialScenes i st))
             (snd (loopHead initialScenes i st)))
      (imageSettles api initialScenes remaining i)
    = mkApp (fst (TopicApp.imageLoop api initialScenes remaining i st log)) [].
Proof.
  induction remaining as [| remaining IH]; intros i st log Hlen.
  - unfold loopHead.
    destruct (Z.ltb_spec i (Z.of_nat (length initialScenes))); [lia |].
    reflexivity.
  - unfold loopHead.
    destruct (Z.ltb_spec i (Z.of_nat (length initialScenes))); [| lia].
    cbn [imageSettles TopicApp.imageLoop].
    destruct (at_ initialScenes i) as [scene |]; [| reflexivity].
    cbn [fst snd]. unfold run. cbn [fold_left step ui awaiting nth_error settle].
    unfold resumeImage, generateImage.
    destruct (generateImage_resume
                (models_generateImages api (Z.to_nat i)
                   (imagePromptText (imagePrompt scene)))) as [err | imageUrl].
    + reflexivity.
    + cbn [removeNth app fst snd].
      pose proof (IH (i + 1)
                    (TopicApp.setScenes (patchImage i imageUrl)
                       (TopicApp.setLoadingMessage
                          (TopicApp.imageProgress i
                             (Z.of_nat (length initialScenes))) st))
                    (log ++ [generateImage_request (imagePrompt scene)])%list
                    ltac:(lia)) as Hrest.
      unfold run in Hrest.
      destruct (loopHead initialScenes (i + 1)
                  (TopicApp.setScenes (patchImage i imageUrl)
                     (TopicApp.setLoadingMessage
                        (TopicApp.imageProgress i
                           (Z.of_nat (length initialScenes))) st)))
        as [st' more].
      exact Hrest.
Qed.

(** X14: started on an idle screen with a non-blank topic, the event
    model fed one click on generate and then the settlement of each
    request the run issues, in order, ends in the state handleGenerate
    run to its end gives, with nothing left awaiting. *)
Theorem session_agrees_with_handleGenerate (parse : string -> exn + value)
    (api : Api) (st : TopicApp.State) :
  TopicApp.isLoading st = false ->
  trim (TopicApp.topic st) <> "" ->
  run parse (mkApp st []) (generateSession parse api st)
  = mkApp (fst (TopicApp.handleGenerate parse api st)) [].
Proof.
  intros Hidle Htopic. apply String.eqb_neq in Htopic.
  unfold generateSession, TopicApp.handleGenerate, run.
  rewrite Htopic.
  cbn [fold_left step ui awaiting park].
  unfold clickGenerate, generateDisabled. rewrite Hidle, Htopic.
  cbn [fst snd app nth_error settle]. unfold resumeScript, generateScript.
  change (TopicApp.topic (TopicApp.handleGenerate_begin st))
    with (TopicApp.topic st).
  change (TopicApp.sceneCount (TopicApp.handleGenerate_begin st))
    with (TopicApp.sceneCount st).
  destruct (generateScript_resume parse
              (models_generateContent api
                 (scriptContents (TopicApp.topic st) (TopicApp.sceneCount st))))
    as [err | scriptData]; [reflexivity |].
  destruct (TopicApp.initialScenesOf scriptData) as [err | initialScenes];
    [reflexivity |].
  cbn [removeNth app].
  pose proof (imageSettles_run parse api initialScenes (length initialScenes) 0
                (TopicApp.setScenes (fun _ => initialScenes)
                   (TopicApp.handleGenerate_begin st))
                [generateScript_request (TopicApp.topic st)
                   (TopicApp.sceneCount st)]) as Hrun.
  unfold run in Hrun.
  destruct (loopHead initialScenes 0
              (TopicApp.setScenes (fun _ => initialScenes)
                 (TopicApp.handleGenerate_begin st))) as [st' more].
  apply Hrun. lia.
Qed.

Lemma session_agrees_with_handleGenerate_witness :
  let api := Samples.apiOf (Some (Samples.scriptJson Samples.twoEntries))
               (fun _ => true) in
  let st := Samples.topicBoard 0 0 false in
  run Samples.parse (mkApp st []) (generateSession Samples.parse api st)
  = mkApp (fst (TopicApp.handleGenerate Samples.parse api st)) [].
Proof.
  apply (session_agrees_with_handleGenerate Samples.parse
           (Samples.apiOf (Some (Samples.scriptJson Samples.twoEntries))
              (fun _ => true))
           (Samples.topicBoard 0 0 false)).
  - reflexivity.
  - vm_compute. discriminate.
Defined.

(** ** The file inputs of the audio variant *)

Lemma choose_keeps_accepted (st : AudioApp.State) (u : upload) :
  storedFilesAccepted st -> storedFilesAccepted (choose st u).
Proof.
  intros [Hs Ha]. destruct u as [[f |] | [f |]]; cbn [choose];
    unfold AudioApp.handleScriptFileChange, AudioApp.handleAudioFileChange.
  - destruct (String.eqb_spec (AudioApp.type f) "text/plain") as [Ht | _];
      split; cbn; try assumption; try discriminate.
    intros g Hg. now injection Hg as <-.
  - split; cbn; [discriminate | assumption].
  - destruct (startsWith (AudioApp.type f) "audio/") eqn:Ht;
      split; cbn; try assumption; try discriminate.
    intros g Hg. now injection Hg as <-.
  - split; cbn; [assumption | discriminate].
Qed.

(** X15: however the two file inputs of the audio variant are used, a
    stored script file has type text/plain and a stored audio file has a
    type that starts with audio/; a selection of one kind never touches
    the file stored for the other. *)
Theorem stored_files_are_accepted (uploads : list upload) :
  let st := fold_left choose uploads AudioApp.initialState in
  (forall f, AudioApp.scriptFile st = Some f -> AudioApp.type f = "text/plain")
  /\ (forall f, AudioApp.audioFile st = Some f ->
                startsWith (AudioApp.type f) "audio/" = true)
  /\ (forall file,
        AudioApp.audioFile (choose st (ScriptChosen file)) = AudioApp.audioFile st
        /\ AudioApp.scriptFile (choose st (AudioChosen file))
           = AudioApp.scriptFile st).
Proof.
  cbv zeta.
  assert (H : storedFilesAccepted (fold_left choose uploads AudioApp.initialState)).
  { assert (Hinit : storedFilesAccepted AudioApp.initialState)
      by (split; intros f Hf; discriminate Hf).
    revert Hinit. generalize AudioApp.initialState.
    induction uploads as [| u rest IH]; intros st Hst; [exact Hst |].
    cbn [fold_left]. apply IH. now apply choose_keeps_accepted. }
  destruct H as [Hs Ha]. split; [exact Hs |]. split; [exact Ha |].
  intros file. cbn [choose].
  unfold AudioApp.handleScriptFileChange, AudioApp.handleAudioFileChange.
  destruct file as [f |]; [| split; reflexivity].
  destruct (String.eqb (AudioApp.type f) "text/plain");
    destruct (startsWith (AudioApp.type f) "audio/"); split; reflexivity.
Qed.
